(** * Rainfall-station consolidator and NDVI/rainfall correlation tool

    A shallow embedding of [src/python/station1.py], [src/python/landsat.py]
    and [src/python/run.py], followed by the properties their specification
    states.

    Conventions of the embedding:
    - a float is an exact rational ([Q]); a missing float (NaN) is [None];
    - a dataframe is the list of its rows, a typed record per row; the
      tables the loaders of the NDVI tool read are held by columns, a cell
      being missing, a number or a text;
    - the caller's dataframe is an object in a store, so that the in-place
      column assignments of the summaries are visible to the caller;
    - printing, the files read and written and the clock are fields of the
      state the effectful functions thread;
    - pandas, numpy, glob and os.path are modelled by the behaviour they
      document for the calls the scripts make. *)

From Stdlib Require Import ZArith QArith Qround String Ascii List Lia.
From Stdlib Require Import Sorting.Sorted Permutation.
From stdpp Require Import base option list gmap strings pretty.

Open Scope Z_scope.
Open Scope string_scope.
Open Scope list_scope.

(** * Part I: the embedding *)

(** ** Orders and the stable sort behind [groupby] and [sort_values] *)

Definition lex (c1 c2 : comparison) : comparison :=
  match c1 with Eq => c2 | _ => c1 end.

(** Missing values sort last ([na_position="last"]). *)
Definition cmp_na {A} (cmp : A → A → comparison) (a b : option A) : comparison :=
  match a, b with
  | Some x, Some y => cmp x y
  | Some _, None => Lt
  | None, Some _ => Gt
  | None, None => Eq
  end.

Definition not_gt (c : comparison) : bool :=
  match c with Gt => false | _ => true end.

Fixpoint insert_sorted {A} (leb : A → A → bool) (x : A) (l : list A) : list A :=
  match l with
  | [] => [x]
  | y :: l' => if leb x y then x :: l else y :: insert_sorted leb x l'
  end.

(** Rows that compare equal keep the order they came in. *)
Definition stable_sort {A} (leb : A → A → bool) (l : list A) : list A :=
  foldr (insert_sorted leb) [] l.

(** ** Floats as rationals *)

(** [numpy.rint]: round to the nearest integer, ties to the even one. *)
Definition rint (q : Q) : Z :=
  let f := Qfloor q in
  match Qcompare (q - inject_Z f) (1 # 2) with
  | Lt => f
  | Gt => f + 1
  | Eq => if Z.even f then f else f + 1
  end.

(** [Series.round(3)]: scale by 1000, [rint], scale back. *)
Definition round3 (q : Q) : Q := (inject_Z (rint (q * 1000)) / 1000)%Q.

(** [Series.sum()] skips the missing values (an all-missing series sums to 0). *)
Fixpoint nansum (l : list (option Q)) : Q :=
  match l with
  | [] => 0%Q
  | Some q :: l' => (q + nansum l')%Q
  | None :: l' => nansum l'
  end.

(** The plain sum of a list of numbers. *)
Fixpoint Qsum (l : list Q) : Q :=
  match l with
  | [] => 0%Q
  | q :: l' => (q + Qsum l')%Q
  end.

Definition isna {A} (o : option A) : bool :=
  match o with None => true | Some _ => false end.

(** [a > b] on floats. *)
Definition Qgtb (a b : Q) : bool := negb (Qle_bool a b).

(** ** Exceptions and results *)

Inductive exn : Type :=
  | ValueError (msg : string)
  | KeyError (msg : string)
  | RuntimeError (msg : string)
  | ParserError (msg : string)
  | OSError (msg : string)
  | FileNotFoundError (msg : string)
  | PermissionError (msg : string)
  | TypeError (msg : string)
  | ReferenceError.

(** [str(e)] *)
Definition exn_str (e : exn) : string :=
  match e with
  | ValueError m | KeyError m | RuntimeError m | ParserError m
  | OSError m | FileNotFoundError m | PermissionError m | TypeError m => m
  | ReferenceError => ""
  end.

(** [except Exception]: every exception of the model is one. *)
Definition is_Exception (e : exn) : bool := true.

(** [except PermissionError] *)
Definition is_PermissionError (e : exn) : bool :=
  match e with PermissionError _ => true | _ => false end.

Inductive Result (A : Type) : Type :=
  | Ok (a : A)
  | Raise (e : exn).
Arguments Ok {A} a.
Arguments Raise {A} e.

(** ** Grouping *)

(** [groupby(cols, dropna=False)]: one group per distinct key, the keys in
    sorted order, each group holding its rows in their original order. *)
Definition groupby {R K} `{EqDecision K} (kleb : K → K → bool) (key : R → K)
    (rows : list R) : list (K * list R) :=
  (λ k, (k, filter (λ r, key r = k) rows))
    <$> stable_sort kleb (remove_dups (key <$> rows)).

(** ** Strings and paths *)

(** The newline character. *)
Definition nl : string := String (ascii_of_nat 10) "".

(** [repr] of a string without quotes in it, and of a list of such. *)
Definition repr_str (s : string) : string := "'" +:+ s +:+ "'".

Fixpoint join_with (sep : string) (l : list string) : string :=
  match l with
  | [] => ""
  | [s] => s
  | s :: l' => s +:+ sep +:+ join_with sep l'
  end.

Definition repr_list (l : list string) : string :=
  "[" +:+ join_with ", " (repr_str <$> l) +:+ "]".

Fixpoint strip_prefix (p s : string) : option string :=
  match p, s with
  | "", _ => Some s
  | String a p', String b s' =>
      if Ascii.eqb a b then strip_prefix p' s' else None
  | String _ _, "" => None
  end.

Fixpoint contains (c : ascii) (s : string) : bool :=
  match s with
  | "" => false
  | String a s' => Ascii.eqb a c || contains c s'
  end.

Definition starts_with (p s : string) : bool :=
  match strip_prefix p s with Some _ => true | None => false end.

Definition ends_with (suf s : string) : bool :=
  let n := String.length s in
  let k := String.length suf in
  (k <=? n)%nat && String.eqb (substring (n - k) k s) suf.

(** [os.path.join(a, b)] for a relative [b], with [/] as the separator. *)
Definition path_join (a b : string) : string :=
  if String.eqb a "" then b
  else if ends_with "/" a then a +:+ b
  else a +:+ "/" +:+ b.

(** [os.path.basename] *)
Fixpoint basename (p : string) : string :=
  match p with
  | "" => ""
  | String c p' =>
      if contains "/" p' then basename p'
      else if Ascii.eqb c "/" then p' else p
  end.

(** The index of the last occurrence of [c] in [s] ([str.rfind]). *)
Fixpoint rfind (c : ascii) (s : string) : option nat :=
  match s with
  | "" => None
  | String a s' =>
      match rfind c s' with
      | Some i => Some (S i)
      | None => if Ascii.eqb a c then Some 0%nat else None
      end
  end.

(** Some character of [s] at an index in [[i, j)] is not a dot. *)
Definition has_non_dot (s : string) (i j : nat) : bool :=
  negb (forallb (Ascii.eqb ".") (list_ascii_of_string (substring i (j - i) s))).

(** [os.path.splitext]: the extension starts at the last dot of the last
    component, leading dots of the component not counted. *)
Definition splitext (p : string) : string * string :=
  match rfind "." p with
  | None => (p, "")
  | Some dot =>
      let filename := match rfind "/" p with Some sep => S sep | None => 0%nat end in
      if (filename <=? dot)%nat && has_non_dot p filename dot
      then (substring 0 dot p, substring dot (String.length p - dot) p)
      else (p, "")
  end.

(** The first [*] of a pattern splits it into what precedes and what follows. *)
Fixpoint split_star (s : string) : option (string * string) :=
  match s with
  | "" => None
  | String c s' =>
      if Ascii.eqb c "*" then Some ("", s')
      else match split_star s' with
           | Some (a, b) => Some (String c a, b)
           | None => None
           end
  end.

(** A path matches [pre*suf] when the star stands for a piece of one
    component; a star that opens a component matches no hidden file. *)
Definition star_match (pre suf p : string) : bool :=
  match strip_prefix pre p with
  | Some rest =>
      ends_with suf rest && negb (contains "/" rest) && negb (starts_with "." rest)
  | None => false
  end.

(** [str.upper] on ASCII letters. *)
Definition upper_ascii (c : ascii) : ascii :=
  let n := nat_of_ascii c in
  if (97 <=? n)%nat && (n <=? 122)%nat then ascii_of_nat (n - 32) else c.

Fixpoint upper (s : string) : string :=
  match s with
  | "" => ""
  | String c s' => String (upper_ascii c) (upper s')
  end.

(** * station1.py: the rainfall station consolidator *)

Module station1.

Definition REQUIRED_COLS : list string :=
  ["Station Number"; "Station Name"; "Height"; "Easting";
   "Northing"; "Latitude"; "Longitude"; "date"; "rain"].

Definition META_COLS : list string :=
  ["Station Number"; "Station Name"; "Height"; "Easting";
   "Northing"; "Latitude"; "Longitude"].

(** ** Data model *)

(** The seven metadata cells of a row ([META_COLS]). A cell the file leaves
    empty is missing ([None]). The consolidator never computes with these
    cells, it compares them only; numeric ones are held as integers
    (coordinates in fixed-point units). *)
Record Station : Type := mkStation {
  Station_Number : option Z;
  Station_Name : option string;
  Height : option Z;
  Easting : option Z;
  Northing : option Z;
  Latitude : option Z;
  Longitude : option Z }.

#[global] Instance Station_eq_dec : EqDecision Station.
Proof. solve_decision. Defined.

(** Some metadata cell is missing. *)
Definition station_has_na (s : Station) : bool :=
  isna (Station_Number s) || isna (Station_Name s) || isna (Height s)
  || isna (Easting s) || isna (Northing s) || isna (Latitude s)
  || isna (Longitude s).

Definition Station_compare (a b : Station) : comparison :=
  lex (cmp_na Z.compare (Station_Number a) (Station_Number b))
 (lex (cmp_na String.compare (Station_Name a) (Station_Name b))
 (lex (cmp_na Z.compare (Height a) (Height b))
 (lex (cmp_na Z.compare (Easting a) (Easting b))
 (lex (cmp_na Z.compare (Northing a) (Northing b))
 (lex (cmp_na Z.compare (Latitude a) (Latitude b))
      (cmp_na Z.compare (Longitude a) (Longitude b))))))).

(** A parsed date (a [datetime64] value; the time of day plays no role). *)
Record Timestamp : Type := mkDate { year : Z; month : Z; day : Z }.

#[global] Instance Timestamp_eq_dec : EqDecision Timestamp.
Proof. solve_decision. Defined.

(** A monthly period [(year, month)], the value of [dt.to_period("M")]. *)
Definition Period : Type := Z * Z.

Definition to_period (d : Timestamp) : Period := (year d, month d).

Definition Period_compare (p q : Period) : comparison :=
  lex (Z.compare p.1 q.1) (Z.compare p.2 q.2).

(** [str] of a monthly period, as in ["2021-03"]: four digits of year, two
    of month. *)
Definition digit (n : Z) : ascii := ascii_of_nat (48 + Z.to_nat (n mod 10)).

Definition pad4 (y : Z) : string :=
  String (digit (y / 1000)) (String (digit (y / 100))
 (String (digit (y / 10)) (String (digit y) ""))).

Definition pad2 (m : Z) : string := String (digit (m / 10)) (String (digit m) "").

Definition period_str (p : Period) : string := pad4 p.1 +:+ "-" +:+ pad2 p.2.

(** A validated daily record: the metadata, the date, and the rain amount,
    which may be missing. *)
Record Daily : Type := mkDaily {
  station : Station;
  date : Timestamp;
  rain : option Q }.

(** A column a summary assigns to the caller's table. *)
Inductive Column : Type :=
  | PeriodColumn (v : list Period)
  | IntColumn (v : list Z).

(** The caller's table, as far as the consolidator reads and writes it: the
    validated records (the columns of [REQUIRED_COLS]) and, in the order of
    their creation, the columns assigned to the table since it was loaded.
    The table keeps every other column its files had; the consolidator
    never reads them. *)
Record DataFrame : Type := mkFrame {
  records : list Daily;
  assigned : list (string * Column) }.

(** [cols[c] = v]: an existing column is replaced where it stands, a new one
    is appended. *)
Fixpoint assign (c : string) (v : Column) (cols : list (string * Column))
    : list (string * Column) :=
  match cols with
  | [] => [(c, v)]
  | (c', v') :: cols' =>
      if decide (c' = c) then (c, v) :: cols' else (c', v') :: assign c v cols'
  end.

(** [df[c] = v] *)
Definition setitem (c : string) (v : Column) (d : DataFrame) : DataFrame :=
  mkFrame (records d) (assign c v (assigned d)).

Fixpoint column (c : string) (cols : list (string * Column)) : option Column :=
  match cols with
  | [] => None
  | (c', v) :: cols' => if decide (c' = c) then Some v else column c cols'
  end.

(** [df[c] = v] on the names of the columns: a column of that name keeps its
    place, a new name comes last. *)
Definition add_column (names : list string) (c : string) : list string :=
  if decide (c ∈ names) then names else names ++ [c].

(** The names of the columns of a table, in order, given the names of the
    columns it had when it was loaded (those of its files, in their order):
    an assignment to one of these names has overwritten the column where it
    stands, the columns created since follow in the order of their
    creation. *)
Definition columns (file_columns : list string) (d : DataFrame) : list string :=
  foldl add_column file_columns (fst <$> assigned d).

Module Monthly.
Record row : Type := mk {
  Station : station1.Station;
  YearMonth : string;
  MonthlyRainfall : Q;
  DaysCount : nat;
  MissingCount : nat;
  PctMissing : Q;
  IncompleteMonth : bool }.
End Monthly.

Module Annual.
Record row : Type := mk {
  Station : station1.Station;
  Year : Z;
  AnnualRainfall : Q;
  DaysCount : nat;
  MissingCount : nat;
  PctMissing : Q;
  MonthsObserved : nat;
  MissingMonths : Z;
  IncompleteYear : bool;
  InsufficientMonths : bool;
  Flagged : bool }.
End Annual.

(** A wide table: the station columns, then one column per period. *)
Record Wide : Type := mkWide {
  period_columns : list string;
  wide_rows : list (Station * list (option Q)) }.

(** What [safe_save_csv] is given to write. *)
Inductive Table : Type :=
  | MonthlyTable (t : list Monthly.row)
  | AnnualTable (t : list Annual.row)
  | WideTable (t : Wide).

(** ** The state the functions thread *)

Definition loc : Type := nat.

(** A station file as [read_csv] sees it: unreadable, or a header and its
    rows. The fields of a row whose column the header lacks are not used. *)
Record RawRow : Type := mkRaw {
  raw_station : Station;
  raw_date : string;
  raw_rain : string }.

Inductive CsvFile : Type :=
  | Unreadable (e : exn)
  | Parsed (header : list string) (body : list RawRow).

Record World : Type := mkWorld {
  heap : gmap loc DataFrame;          (* the dataframe objects *)
  disk : gmap string CsvFile;         (* the input files *)
  write_fault : string → option exn;  (* what opening a path for writing raises *)
  outputs : gmap string Table;        (* the tables written so far *)
  now : string;                       (* time.strftime("%Y%m%d-%H%M%S") *)
  stdout : list string }.             (* the lines printed so far *)

Definition M (A : Type) : Type := World → Result A * World.

#[global] Instance M_ret : MRet M := λ A a w, (Ok a, w).

#[global] Instance M_bind : MBind M := λ A B k m w,
  match m w with
  | (Ok a, w') => k a w'
  | (Raise e, w') => (Raise e, w')
  end.

Definition raise {A} (e : exn) : M A := λ w, (Raise e, w).

(** [try: body except E as e: handler], the class [E] given by [catches]. *)
Definition try_except {A} (body : M A) (catches : exn → bool)
    (handler : exn → M A) : M A := λ w,
  match body w with
  | (Raise e, w') => if catches e then handler e w' else (Raise e, w')
  | r => r
  end.

(** The state after more lines are printed. *)
Definition emit (lines : list string) (w : World) : World :=
  mkWorld (heap w) (disk w) (write_fault w) (outputs w) (now w)
          (stdout w ++ lines).

Definition print (line : string) : M unit := λ w, (Ok (), emit [line] w).

Definition get_frame (l : loc) : M DataFrame := λ w,
  match heap w !! l with
  | Some d => (Ok d, w)
  | None => (Raise ReferenceError, w)
  end.

Definition set_frame (l : loc) (d : DataFrame) : M unit := λ w,
  (Ok (), mkWorld (<[l := d]> (heap w)) (disk w) (write_fault w) (outputs w)
                  (now w) (stdout w)).

(** A new dataframe object. *)
Definition new_frame (d : DataFrame) : M loc := λ w,
  let l := fresh (dom (heap w)) in
  (Ok l, mkWorld (<[l := d]> (heap w)) (disk w) (write_fault w) (outputs w)
                 (now w) (stdout w)).

(** [time.strftime("%Y%m%d-%H%M%S")] *)
Definition strftime : M string := λ w, (Ok (now w), w).

(** [glob.glob(pattern)], the files in the order the system lists them. *)
Definition glob (pattern : string) : M (list string) := λ w,
  let paths := (map_to_list (disk w)).*1 in
  match split_star pattern with
  | Some (pre, suf) => (Ok (filter (λ p, star_match pre suf p = true) paths), w)
  | None => (Ok (filter (λ p, p = pattern) paths), w)
  end.

(** [pd.read_csv(file)] *)
Definition read_csv (file : string) : M (list string * list RawRow) := λ w,
  match disk w !! file with
  | Some (Parsed header body) => (Ok (header, body), w)
  | Some (Unreadable e) => (Raise e, w)
  | None => (Raise (FileNotFoundError ("No such file or directory: " +:+ repr_str file)), w)
  end.

(** [df.to_csv(path, index=False)] *)
Definition to_csv (df : Table) (path : string) : M unit := λ w,
  match write_fault w path with
  | Some e => (Raise e, w)
  | None => (Ok (), mkWorld (heap w) (disk w) (write_fault w)
                            (<[path := df]> (outputs w)) (now w) (stdout w))
  end.

(** ** Saving *)

Definition safe_save_csv (df : Table) (output_file : string) : M string :=
  try_except
    (to_csv df output_file;;
     print (nl +:+ "Saved: " +:+ output_file);;
     mret output_file)
    is_PermissionError
    (λ _,
     timestamp ← strftime;
     let fallback_file := (splitext output_file).1 +:+ "_" +:+ timestamp +:+ ".csv" in
     to_csv df fallback_file;;
     print (nl +:+ "Could not save to '" +:+ output_file +:+ "'. Saved as '"
               +:+ fallback_file +:+ "' instead.");;
     mret fallback_file).

(** ** Loading *)

(** [[c for c in REQUIRED_COLS if c not in df.columns]] *)
Definition missing_columns (header : list string) : list string :=
  filter (λ c, c ∉ header) REQUIRED_COLS.

Section Loading.

(** [pd.to_datetime(text, format=date_format, errors="coerce")] and
    [pd.to_numeric(text, errors="coerce")] on one cell: the parsed value, or
    nothing when the text does not parse. *)
Variable to_datetime : string → string → option Timestamp.
Variable to_numeric : string → option Q.

(** A row after the two coercions, the date not yet checked. *)
Definition coerce (date_format : string) (r : RawRow)
    : Station * option Timestamp * option Q :=
  (raw_station r, to_datetime date_format (raw_date r), to_numeric (raw_rain r)).

(** [df.dropna(subset=["date"])] *)
Definition dropna_date (rows : list (Station * option Timestamp * option Q))
    : list Daily :=
  omap (λ r : Station * option Timestamp * option Q,
          match r.1.2 with
          | Some d => Some (mkDaily r.1.1 d r.2)
          | None => None
          end) rows.

Definition read_and_validate_csv (file : string) (date_format : string)
    : M (list Daily) :=
  df ← read_csv file;
  let missing := missing_columns df.1 in
  if decide (missing = []) then
    (* type coercion, then drop the rows without a date *)
    mret (dropna_date (coerce date_format <$> df.2))
  else raise (ValueError ("Missing columns: " +:+ repr_list missing)).

(** The body of the loop of [load_folder] over the files found. *)
Fixpoint load_files (csv_files : list string) (date_format : string)
    (frames : list (list Daily)) : M (list (list Daily)) :=
  match csv_files with
  | [] => mret frames
  | f :: rest =>
      frames ← try_except
        (df ← read_and_validate_csv f date_format;
         print ("Loaded: " +:+ basename f +:+ "  (rows=" +:+ pretty (length df) +:+ ")");;
         mret (frames ++ [df]))
        is_Exception
        (λ e, print ("Skipping " +:+ basename f +:+ ": " +:+ exn_str e);;
              mret frames);
      load_files rest date_format frames
  end.

Definition load_folder (input_folder : string) (date_format : string) : M loc :=
  csv_files ← glob (path_join input_folder "*.csv");
  if decide (csv_files = []) then
    raise (FileNotFoundError "No CSV files found in the folder.")
  else
    frames ← load_files csv_files date_format [];
    if decide (frames = []) then
      raise (RuntimeError "No valid CSVs after validation.")
    else
      (* pd.concat(frames, ignore_index=True) *)
      new_frame (mkFrame (concat frames) []).

End Loading.

(** ** Monthly and annual summaries *)

(** The values the signatures give [missing_threshold] and [min_months]
    when the caller passes none. *)
Definition default_missing_threshold : Q := 2 # 10.
Definition default_min_months : Z := 10.

(** [(MissingCount / DaysCount).round(3)] *)
Definition pct (missing days : nat) : Q :=
  round3 (inject_Z (Z.of_nat missing) / inject_Z (Z.of_nat days)).

(** [s.isna().sum()] *)
Definition count_missing (s : list (option Q)) : nat :=
  length (filter (λ v, isna v = true) s).

(** The monthly table of the rows of [df], each with its [YearMonth]:
    the [groupby], the flags and the final sort of [summarize_monthly]. *)
Definition monthly_table (rows : list (Daily * Period)) (missing_threshold : Q)
    : list Monthly.row :=
  (* group_cols = META_COLS + ["YearMonth"] *)
  let group_cols := λ r : Daily * Period, (station r.1, r.2) in
  let group_leb := λ a b : Station * Period,
    not_gt (lex (Station_compare a.1 b.1) (Period_compare a.2 b.2)) in
  let agg :=
    (λ kg : (Station * Period) * list (Daily * Period),
       let s := rain ∘ fst <$> kg.2 in
       (kg.1, nansum s, length s, count_missing s))
      <$> groupby group_leb group_cols rows in
  let agg :=
    (λ a : (Station * Period) * Q * nat * nat,
       let '(k, MonthlyRainfall, DaysCount, MissingCount) := a in
       let PctMissing := pct MissingCount DaysCount in
       let IncompleteMonth := Qgtb PctMissing missing_threshold in
       (* agg["YearMonth"].astype(str) *)
       Monthly.mk k.1 (period_str k.2) MonthlyRainfall DaysCount MissingCount
                  PctMissing IncompleteMonth) <$> agg in
  (* agg.sort_values(["Station Number", "YearMonth"]) *)
  stable_sort
    (λ a b, not_gt (lex (cmp_na Z.compare
                           (Station_Number (Monthly.Station a))
                           (Station_Number (Monthly.Station b)))
                        (String.compare (Monthly.YearMonth a)
                                        (Monthly.YearMonth b))))
    agg.

Definition summarize_monthly (df : loc) (missing_threshold : Q)
    : M (list Monthly.row) :=
  d ← get_frame df;
  (* df["YearMonth"] = df["date"].dt.to_period("M") *)
  let ym := to_period ∘ date <$> records d in
  set_frame df (setitem "YearMonth" (PeriodColumn ym) d);;
  mret (monthly_table (zip (records d) ym) missing_threshold).

(** distinct (Year, Month) combos present for that group/year *)
Definition _nmonths (x : list Timestamp) : nat :=
  length (remove_dups ((λ t, (year t, month t)) <$> x)).

(** The annual table of the rows of [df], each with its [Year]: the
    [groupby], the flags and the final sort of [summarize_annual]. *)
Definition annual_table (rows : list (Daily * Z)) (missing_threshold : Q)
    (min_months : Z) : list Annual.row :=
  (* group_cols = META_COLS + ["Year"] *)
  let group_cols := λ r : Daily * Z, (station r.1, r.2) in
  let group_leb := λ a b : Station * Z,
    not_gt (lex (Station_compare a.1 b.1) (Z.compare a.2 b.2)) in
  let agg :=
    (λ kg : (Station * Z) * list (Daily * Z),
       let s := rain ∘ fst <$> kg.2 in
       (kg.1, nansum s, length s, count_missing s,
        _nmonths (date ∘ fst <$> kg.2)))
      <$> groupby group_leb group_cols rows in
  let agg :=
    (λ a : (Station * Z) * Q * nat * nat * nat,
       let '(k, AnnualRainfall, DaysCount, MissingCount, MonthsObserved) := a in
       let PctMissing := pct MissingCount DaysCount in
       let MissingMonths := 12 - Z.of_nat MonthsObserved in
       let IncompleteYear := Qgtb PctMissing missing_threshold in
       let InsufficientMonths := (Z.of_nat MonthsObserved <? min_months)%Z in
       let Flagged := IncompleteYear || InsufficientMonths in
       Annual.mk k.1 k.2 AnnualRainfall DaysCount MissingCount PctMissing
                 MonthsObserved MissingMonths IncompleteYear
                 InsufficientMonths Flagged) <$> agg in
  (* agg[final_cols].sort_values(["Station Number", "Year"]) *)
  stable_sort
    (λ a b, not_gt (lex (cmp_na Z.compare
                           (Station_Number (Annual.Station a))
                           (Station_Number (Annual.Station b)))
                        (Z.compare (Annual.Year a) (Annual.Year b))))
    agg.

(** What [12 - agg["MonthsObserved"]] raises when the table has no row:
    there is then no group, and the column the aggregation of the dates
    leaves is a column of dates, which no integer is subtracted from. *)
Definition no_group_error : exn :=
  TypeError ("Addition/subtraction of integers and integer-arrays with "
             +:+ "DatetimeArray is no longer supported.  Instead of "
             +:+ "adding/subtracting `n`, use `n * obj.freq`").

Definition summarize_annual (df : loc) (missing_threshold : Q) (min_months : Z)
    : M (list Annual.row) :=
  (* df["Year"] = df["date"].dt.year *)
  d ← get_frame df;
  let yr := year ∘ date <$> records d in
  set_frame df (setitem "Year" (IntColumn yr) d);;
  (* df["Month"] = df["date"].dt.month *)
  d ← get_frame df;
  set_frame df (setitem "Month" (IntColumn (month ∘ date <$> records d)) d);;
  (* the groupby, then 12 - agg["MonthsObserved"] *)
  match records d with
  | [] => raise no_group_error
  | _ => mret (annual_table (zip (records d) yr) missing_threshold min_months)
  end.

(** ** Wide tables *)

(** The cell of a wide table: the sum of the values of its group, missing
    when the group has no row. *)
Definition cell_sum (values : list Q) : option Q :=
  match values with
  | [] => None
  | _ => Some (Qsum values)
  end.

(** [pivot_table(index=META_COLS, columns=c, values=v, aggfunc="sum")] on
    rows given as (station, column label, value): the rows with a missing
    metadata cell are left out of the grouping; index and columns come out
    sorted; a cell without a row is missing. *)
Definition pivot_table {C} `{EqDecision C} (cleb : C → C → bool)
    (rows : list (Station * C * Q))
    : list C * list (Station * list (option Q)) :=
  let data := filter (λ r : Station * C * Q, station_has_na r.1.1 = false) rows in
  let index := stable_sort (λ a b, not_gt (Station_compare a b))
                           (remove_dups ((λ r : Station * C * Q, r.1.1) <$> data)) in
  let cols := stable_sort cleb (remove_dups ((λ r : Station * C * Q, r.1.2) <$> data)) in
  let cell := λ s c,
    cell_sum (snd <$> filter (λ r : Station * C * Q, r.1.1 = s ∧ r.1.2 = c) data) in
  (cols, (λ s, (s, cell s <$> cols)) <$> index).

Definition pivot_wide (monthly_df : list Monthly.row) : Wide :=
  let wide := pivot_table String.leb
    ((λ r, (Monthly.Station r, Monthly.YearMonth r, Monthly.MonthlyRainfall r))
       <$> monthly_df) in
  mkWide wide.1 wide.2.

(** [str.isdigit] of [str(c)] for an integer [c] *)
Definition isdigit_of_int (c : Z) : bool := (0 <=? c)%Z.

Definition pivot_wide_annual (annual_df : list Annual.row) : Wide :=
  let wide := pivot_table Z.leb
    ((λ r, (Annual.Station r, Annual.Year r, Annual.AnnualRainfall r))
       <$> annual_df) in
  (* year columns in numeric order; the others are not kept *)
  let year_cols := filter (λ c, isdigit_of_int c = true) wide.1 in
  let year_cols_sorted := stable_sort Z.leb year_cols in
  let pick := λ cells : list (option Q),
    (λ c, match list_find (λ c', c' = c) wide.1 with
          | Some (i, _) => default None (cells !! i)
          | None => None
          end) <$> year_cols_sorted in
  mkWide (pretty <$> year_cols_sorted)
         ((λ r : Station * list (option Q), (r.1, pick r.2)) <$> wide.2).

(** ** The command line *)

(** The arguments [argparse] hands to [main]. *)
Record Args : Type := mkArgs {
  input_folder : string;
  output : string;
  wide_output : option string;
  date_format : string;
  missing_threshold : Q }.

(** The arguments when only the folder is given. *)
Definition default_args (folder : string) : Args :=
  mkArgs folder "monthly_rain_summary.csv" None "%Y-%m-%d" (2 # 10).

Section Main.

Variable to_datetime : string → string → option Timestamp.
Variable to_numeric : string → option Q.

(** [monthly.head(10).to_string(index=False)] *)
Variable to_string : list Monthly.row → string.

Definition main (args : Args) : M unit :=
  df ← load_folder to_datetime to_numeric (input_folder args) (date_format args);
  monthly ← summarize_monthly df (missing_threshold args);
  out_path ← safe_save_csv (MonthlyTable monthly) (output args);
  print (nl +:+ "Preview (first 10 rows):");;
  print (to_string (take 10 monthly));;
  (* if args.wide_output: neither None nor the empty string *)
  match wide_output args with
  | Some wide_file =>
      if decide (wide_file = "") then mret ()
      else
        let wide := pivot_wide monthly in
        wide_path ← safe_save_csv (WideTable wide) wide_file;
        print ("\ Wide table saved to: " +:+ wide_path)
  | None => mret ()
  end.

End Main.

End station1.

(** * landsat.py: NDVI and rainfall, lagged correlations *)

Module landsat.

(** A row of the NDVI table: the year, the season and the index value, which
    may be missing. *)
Record NdviRow : Type := mkNdvi {
  year : Z;
  season : string;
  NDVI : option Q }.

(** A row of the yearly rainfall table. *)
Record RainRow : Type := mkRain {
  rain_year : Z;
  rain_mm : option Q }.

(** A row of the merged table: year, ndvi, rain. *)
Record Merged : Type := mkMerged {
  m_year : Z;
  ndvi : Q;
  rain : option Q }.

(** A coefficient and its significance; either may be NaN. *)
Definition Stat : Type := option Q * option Q.

Record Stats : Type := mkStats {
  pearson : Stat;
  spearman : Stat;
  kendall : Stat }.

(** A row of the result of [lagged_correlations]. *)
Record CorrRow : Type := mkCorr {
  c_season : string;
  lag_years : Z;
  n : nat;
  pearson_r : option Q;
  pearson_p : option Q;
  spearman_r : option Q;
  spearman_p : option Q;
  kendall_tau : option Q;
  kendall_p : option Q }.

(** The values the signatures give [lags] and [min_ndvi] when the caller
    passes none. *)
Definition default_lags : list Z := [-2; -1; 0; 1; 2]%Z.
Definition default_min_ndvi : option Q := Some (25 # 100)%Q.

(** [drop_duplicates(subset=["year"], keep="last")] *)
Fixpoint drop_duplicates_last {A} (key : A → Z) (l : list A) : list A :=
  match l with
  | [] => []
  | x :: l' =>
      if decide (key x ∈ key <$> l') then drop_duplicates_last key l'
      else x :: drop_duplicates_last key l'
  end.

(** Return one NDVI value per year for the given season (NDVI >= min_ndvi).
    The sort by year is taken stable: rows of the same year keep their order,
    and the last of them is the one kept. *)
Definition build_series (df : list NdviRow) (season_ : string)
    (start_year : Z) (min_ndvi : Q) : list (Z * Q) :=
  let d := filter (λ r, season r = upper season_) df in
  (* .loc[:, ["year", "NDVI"]].dropna() *)
  let d := omap (λ r, v ← NDVI r; Some (year r, v)) d in
  let d := stable_sort (λ a b : Z * Q, Z.leb a.1 b.1) d in
  let d := drop_duplicates_last fst d in
  let d := filter (λ r : Z * Q, (start_year ≤ r.1)%Z) d in
  filter (λ r : Z * Q, Qle_bool min_ndvi r.2 = true) d.

(** [pd.merge(left, right, on="year", how="inner")]: every pair of rows with
    the same year, in the order of the left rows. *)
Definition merge_inner (left : list (Z * Q)) (right : list RainRow) : list Merged :=
  l ← left;
  r ← filter (λ r, rain_year r = l.1) right;
  [mkMerged l.1 l.2 (rain_mm r)].

Definition prepare_merged (df : list NdviRow) (rain_df : list RainRow)
    (season_ : string) (min_ndvi : option Q) : list Merged :=
  let d := build_series df season_ 1984 (25 # 100) in
  let d := match min_ndvi with
           | Some m => filter (λ r : Z * Q, Qle_bool m r.2 = true) d
           | None => d
           end in
  stable_sort (λ a b, Z.leb (m_year a) (m_year b)) (merge_inner d rain_df).

(** [Series.shift(k)]: the value of row [i] moves to row [i + k]; a row
    nothing moves to is missing. *)
Definition shift {A} (k : Z) (s : list (option A)) : list (option A) :=
  (λ i : nat,
     let j := Z.of_nat i - k in
     if decide (0 ≤ j)%Z then default None (s !! Z.to_nat j) else None)
    <$> seq 0 (length s).

Section Correlations.

(** The three tests of [scipy.stats], which may fail, and the coefficient of
    [Series.corr] for a method. *)
Variable pearsonr spearmanr kendalltau : list Q → list Q → Result Stat.
Variable series_corr : string → list Q → list Q → option Q.

(** Return Pearson/Spearman/Kendall coefficients (+ p-values). *)
Definition corr_with_p (x y : list Q) : Stats :=
  match pearsonr x y, spearmanr x y, kendalltau x y with
  | Ok p, Ok s, Ok k => mkStats p s k
  | _, _, _ =>
      mkStats (series_corr "pearson" x y, None)
              (series_corr "spearman" x y, None)
              (series_corr "kendall" x y, None)
  end.

(** The pairs a lag leaves: [tmp] after the shift and the [dropna]. *)
Definition lag_pairs (base : list Merged) (lag : Z) : list (Q * Q) :=
  (* tmp["rain_lag"] = tmp["rain"].shift(lag * -1) *)
  let rain_lag := shift (lag * -1) (rain <$> base) in
  (* tmp.dropna(subset=["ndvi", "rain_lag"]); ndvi is never missing here *)
  omap (λ r : Merged * option Q, v ← r.2; Some (ndvi r.1, v)) (zip base rain_lag).

(** The loop of [lagged_correlations]: the rows collected for the lags. *)
Fixpoint lag_rows (base : list Merged) (season_ : string) (lags : list Z)
    (rows : list CorrRow) : list CorrRow :=
  match lags with
  | [] => rows
  | lag :: lags' =>
      let tmp := lag_pairs base lag in
      if decide (length tmp < 3)%nat then
        lag_rows base season_ lags' rows
      else
        let stat := corr_with_p tmp.*1 tmp.*2 in
        lag_rows base season_ lags'
          (rows ++ [mkCorr season_ lag (length tmp)
                      (pearson stat).1 (pearson stat).2
                      (spearman stat).1 (spearman stat).2
                      (kendall stat).1 (kendall stat).2])
  end.

(** [pd.DataFrame(rows).sort_values(["season", "lag_years"])]: a frame made
    of no row has no column, and sorting it by a column raises. *)
Definition sort_values_season_lag (rows : list CorrRow) : Result (list CorrRow) :=
  match rows with
  | [] => Raise (KeyError "'season'")
  | _ =>
      Ok (stable_sort
            (λ a b, not_gt (lex (String.compare (c_season a) (c_season b))
                                (Z.compare (lag_years a) (lag_years b))))
            rows)
  end.

(** Correlate NDVI_t with Rainfall_{t+lag}. *)
Definition lagged_correlations (df : list NdviRow) (rain_df : list RainRow)
    (season_ : string) (lags : list Z) (min_ndvi : option Q)
    : Result (list CorrRow) :=
  let base := prepare_merged df rain_df season_ min_ndvi in
  let rows := lag_rows base season_ lags [] in
  sort_values_season_lag rows.

End Correlations.

(** ** The loaders *)

(** A cell of a table as [read_csv] gives it: missing, a number, or a text. *)
Inductive Cell : Type :=
  | Missing
  | Number (q : Q)
  | Text (s : string).

(** A table as [read_csv] gives it: its columns in order, each with its name
    and its cells, one for each row. The names differ from one another
    ([read_csv] renames a repeated one) and the columns are equally long. *)
Definition Frame : Type := list (string * list Cell).

(** What a path holds: a file [read_csv] fails on, or a table. A path that
    holds nothing does not exist. *)
Inductive File : Type :=
  | Garbled (e : exn)
  | Readable (t : Frame).

(** The exceptions of the loaders: those of [exn] and two more. *)
Inductive error : Type :=
  | Builtin (e : exn)
  | TypeError (msg : string)
  | IndexError (msg : string).

Inductive Outcome (A : Type) : Type :=
  | Returns (a : A)
  | Raises (e : error).
Arguments Returns {A} a.
Arguments Raises {A} e.

(** [str.lower] and [str.strip] on ASCII. *)
Definition lower_ascii (c : ascii) : ascii :=
  let n := nat_of_ascii c in
  if (65 <=? n)%nat && (n <=? 90)%nat then ascii_of_nat (n + 32) else c.

Fixpoint lower (s : string) : string :=
  match s with
  | "" => ""
  | String c s' => String (lower_ascii c) (lower s')
  end.

Definition is_space (c : ascii) : bool :=
  let n := nat_of_ascii c in
  (n =? 32)%nat || ((9 <=? n)%nat && (n <=? 13)%nat)
  || ((28 <=? n)%nat && (n <=? 31)%nat).

Fixpoint lstrip (s : string) : string :=
  match s with
  | "" => ""
  | String c s' => if is_space c then lstrip s' else s
  end.

Fixpoint rstrip (s : string) : string :=
  match s with
  | "" => ""
  | String c s' =>
      let r := rstrip s' in
      if is_space c && String.eqb r "" then "" else String c r
  end.

Definition strip (s : string) : string := rstrip (lstrip s).

(** [df[c]] for a column the table has. *)
Definition getitem (t : Frame) (c : string) : list Cell :=
  match list_find (λ col : string * list Cell, col.1 = c) t with
  | Some (_, col) => col.2
  | None => []
  end.

(** [df[c] = cells] for a column the table has: replaced where it stands. *)
Definition setitem (c : string) (cells : list Cell) (t : Frame) : Frame :=
  (λ col : string * list Cell, if decide (col.1 = c) then (c, cells) else col)
    <$> t.

(** [drop_duplicates(subset=[key], keep="last")], missing keys alike. *)
Fixpoint drop_duplicates_keep_last {A K} `{EqDecision K} (key : A → K)
    (l : list A) : list A :=
  match l with
  | [] => []
  | x :: l' =>
      if decide (key x ∈ key <$> l') then drop_duplicates_keep_last key l'
      else x :: drop_duplicates_keep_last key l'
  end.

(** [Series.median()] of the values present, at least one: the middle one in
    sorted order, or the mean of the two middle ones. *)
Definition median (values : list Q) : Q :=
  let s := stable_sort Qle_bool values in
  let n := length s in
  if Nat.even n
  then ((nth (n / 2 - 1) s 0 + nth (n / 2) s 0) / 2)%Q
  else nth (n / 2) s 0%Q.

(** A year as [astype("Int64")] accepts it: a whole number of 64 bits. *)
Definition is_int64 (q : Q) : bool :=
  Qeq_bool q (inject_Z (Qfloor q))
  && (- 2 ^ 63 <=? Qfloor q)%Z && (Qfloor q <? 2 ^ 63)%Z.

(** [s.astype("Int64").dropna().astype(int)], put back in the table: a value
    that is not a whole number makes the cast raise; the rows without a
    value stay without one. *)
Definition astype_Int64 (s : list (option Q)) : Outcome (list (option Z)) :=
  if forallb (λ v, match v with Some q => is_int64 q | None => true end) s
  then Returns ((λ v : option Q, Qfloor <$> v) <$> s)
  else Raises (TypeError "cannot safely cast non-equivalent float64 to int64").

(** A row of the table [load_ndvi_table] returns, as far as the program
    reads it: the other columns of the file are carried along. *)
Record Loaded : Type := mkLoaded {
  l_year : Z;
  l_season : string;
  l_NDVI : Q;
  l_NDWI_true : option Q }.

(** The table of [load_ndvi_table]: its rows, and whether it has the column
    [NDWI_true]. *)
Record NdviTable : Type := mkNdviTable {
  has_NDWI_true : bool;
  loaded : list Loaded }.

(** The rows as [build_series] reads them. *)
Definition ndvi_rows (t : NdviTable) : list NdviRow :=
  (λ r, mkNdvi (l_year r) (l_season r) (Some (l_NDVI r))) <$> loaded t.

(** The rows of the table of [load_rainfall] a merge on the year can match:
    a row without a year matches none. *)
Definition rain_rows (t : list (option Z * Q)) : list RainRow :=
  omap (λ r : option Z * Q, y ← r.1; Some (mkRain y (Some r.2))) t.

Section Loaders.

(** [pd.to_numeric(text, errors="coerce")] on one text, and [str] of a
    number. *)
Variable to_numeric : string → option Q.
Variable num_str : Q → string.

Definition numeric (c : Cell) : option Q :=
  match c with
  | Missing => None
  | Number q => Some q
  | Text s => to_numeric s
  end.

(** [Series.astype(str)] on one cell. A missing cell becomes the text "nan"
    where the texts of pandas are objects, as they are before pandas 3; in
    pandas 3 the cell stays missing, and [load_ndvi_table] then drops the row
    it keeps here with the season "NAN". *)
Definition astype_str (c : Cell) : string :=
  match c with
  | Missing => "nan"
  | Number q => num_str q
  | Text s => s
  end.

Definition _detect_ndvi_column (df : Frame) : Outcome string :=
  (* cols_lower = {c.lower(): c for c in df.columns}: the last column wins *)
  let cols_lower := λ key, last (filter (λ c, lower c = key) df.*1) in
  match cols_lower "ndvi", cols_lower "ndvi_use", cols_lower "ndvi_harmonized" with
  | Some c, _, _ => Returns c
  | None, Some c, _ => Returns c
  | None, None, Some c => Returns c
  | None, None, None =>
      let numerics :=
        omap (λ col : string * list Cell,
                match omap numeric col.2 with
                | [] => None
                | s => Some (col.1, median s)
                end) df in
      let plausible :=
        filter (λ cm : string * Q,
                  Qle_bool (2 # 10) cm.2 && Qle_bool cm.2 (9 # 10) = true)
               numerics in
      (* sort(key=lambda x: x[1], reverse=True), then the first *)
      let first := λ l : list (string * Q),
        match stable_sort (λ a b : string * Q, Qle_bool b.2 a.2) l with
        | x :: _ => Returns x.1
        | [] => Raises (IndexError "list index out of range")
        end in
      match plausible with
      | _ :: _ => first plausible
      | [] => first numerics
      end
  end.

(** The sort by year is taken stable, as in [build_series]. *)
Definition load_ndvi_table (files : gmap string File) (csv_path : string)
    : Outcome NdviTable :=
  match files !! csv_path with
  | None => Raises (Builtin (FileNotFoundError ("CSV not found: " +:+ csv_path)))
  | Some (Garbled e) => Raises (Builtin e)
  | Some (Readable df) =>
      (* standardize *)
      let df :=
        if decide ("season" ∈ df.*1)
        then setitem "season" (Text ∘ upper ∘ astype_str <$> getitem df "season") df
        else df in
      if decide ("year" ∈ df.*1) then
        match astype_Int64 (numeric <$> getitem df "year") with
        | Raises e => Raises e
        | Returns years =>
            let df :=
              setitem "year"
                ((λ y : option Z, match y with
                                  | Some z => Number (inject_Z z)
                                  | None => Missing
                                  end) <$> years) df in
            match _detect_ndvi_column df with
            | Raises e => Raises e
            | Returns ndvi_col =>
                let NDVI := numeric <$> getitem df ndvi_col in
                (* optional: keep true NDWI if present *)
                let keep := bool_decide ("NDWI" ∈ df.*1 ∧ ndvi_col ≠ "NDWI") in
                let NDWI_true :=
                  if keep then numeric <$> getitem df "NDWI"
                  else (λ _, None) <$> years in
                (* dropna(subset=["NDVI", "season", "year"]) *)
                if decide ("season" ∈ df.*1) then
                  let seasons := astype_str <$> getitem df "season" in
                  let out :=
                    omap (λ r : option Z * (string * (option Q * option Q)),
                            y ← r.1; v ← r.2.2.1;
                            Some (mkLoaded y r.2.1 v r.2.2.2))
                         (zip years (zip seasons (zip NDVI NDWI_true))) in
                  Returns (mkNdviTable keep
                             (stable_sort (λ a b, Z.leb (l_year a) (l_year b)) out))
                else Raises (Builtin (KeyError "['season']"))
            end
        end
      else Raises (Builtin (ValueError "NDVI CSV must contain a 'year' column."))
  end.

(** A row of the result is its year, which may be missing, and its rain.
    The sort by year is taken stable: of the rows of a year, the one kept is
    the last of the file. *)
Definition load_rainfall (files : gmap string File) (csv_path : string)
    : Outcome (list (option Z * Q)) :=
  match files !! csv_path with
  | None =>
      Raises (Builtin (FileNotFoundError ("Rainfall CSV not found: " +:+ csv_path)))
  | Some (Garbled e) => Raises (Builtin e)
  | Some (Readable r) =>
      match list_find (λ c, lower (strip c) = "year") r.*1 with
      | None => Raises (Builtin (ValueError "Rainfall CSV must have a 'Year' column."))
      | Some (_, year_col) =>
          match list_find (λ c, c ∈ r.*1)
                  ["Value_mm"; "Value"; "Mean_mm"; "MEAN"; "Mean"; "mean"] with
          | None =>
              Raises (Builtin (ValueError "Rainfall CSV missing a rainfall value column."))
          | Some (_, val_col) =>
              match astype_Int64 (numeric <$> getitem r year_col) with
              | Raises e => Raises e
              | Returns years =>
                  let rain_mm := numeric <$> getitem r val_col in
                  (* dropna(subset=["rain_mm"]) *)
                  let rows :=
                    omap (λ x : option Z * option Q, v ← x.2; Some (x.1, v))
                         (zip years rain_mm) in
                  (* sort_values("year"): the rows without a year last *)
                  let rows :=
                    stable_sort (λ a b : option Z * Q,
                                   not_gt (cmp_na Z.compare a.1 b.1)) rows in
                  Returns (drop_duplicates_keep_last fst rows)
              end
          end
      end
  end.

End Loaders.

End landsat.

(** * run.py: the consolidator on one folder *)

Module run.
Import station1.

Section Run.

Variable to_datetime : string → string → option Timestamp.
Variable to_numeric : string → option Q.

(** The paths of the script, raw strings: a backslash is a character of
    the name. *)
Definition INPUT_DIR : string :=
  "C:\Users\marce\PycharmProjects\station\modifiedclara".
Definition OUT_LONG : string :=
  "C:\Users\marce\PycharmProjects\station\modifiedclara\claramonthly_rain_summary.csv".
Definition OUT_WIDE : string :=
  "C:\Users\marce\PycharmProjects\station\modifiedclara\claramonthly_rain_wide.csv".
Definition OUT_ANNUAL : string :=
  "C:\Users\marce\PycharmProjects\station\modifiedclara\claraannual_rain_summary.csv".
Definition OUT_ANNUAL_WIDE : string :=
  "C:\Users\marce\PycharmProjects\station\modifiedclara\\claraannual_rain_wide.csv".
Definition DATE_FMT : string := "%d-%b-%y".

(** The script up to its previews: the monthly and the annual summary are
    made from the same dataframe object. *)
Definition script : M (list Monthly.row * list Annual.row) :=
  df ← load_folder to_datetime to_numeric INPUT_DIR DATE_FMT;
  monthly ← summarize_monthly df (2 # 10);
  safe_save_csv (MonthlyTable monthly) OUT_LONG;;
  let wide := pivot_wide monthly in
  safe_save_csv (WideTable wide) OUT_WIDE;;
  annual ← summarize_annual df (2 # 10) 10;
  safe_save_csv (AnnualTable annual) OUT_ANNUAL;;
  let annual_wide := pivot_wide_annual annual in
  safe_save_csv (WideTable annual_wide) OUT_ANNUAL_WIDE;;
  mret (monthly, annual).

(** [monthly.head(10).to_string(index=False)], and the same of [annual]. *)
Variable monthly_to_string : list Monthly.row → string.
Variable annual_to_string : list Annual.row → string.

(** The whole script: the tables, then the previews. *)
Definition program : M unit :=
  tables ← script;
  print "Done. Previews:";;
  print (nl +:+ "Monthly (first 10):");;
  print (monthly_to_string (take 10 tables.1));;
  print (nl +:+ "Annual (first 10):");;
  print (annual_to_string (take 10 tables.2)).

End Run.

End run.

(** * Vocabulary of the properties *)

Module spec.
Import station1.

(** The daily records of a station in a month, and in a year. *)
Definition month_group (recs : list Daily) (s : Station) (p : Period) : list Daily :=
  filter (λ r, station r = s ∧ to_period (date r) = p) recs.

Definition year_group (recs : list Daily) (s : Station) (y : Z) : list Daily :=
  filter (λ r, station r = s ∧ year (date r) = y) recs.

(** The rain values of a group that are not missing. *)
Definition present_rain (g : list Daily) : list Q := omap rain g.

(** The rows of a group whose rain is missing. *)
Definition missing_rows (g : list Daily) : list Daily :=
  filter (λ r, rain r = None) g.

(** The distinct months a group has a record in. *)
Definition distinct_months (g : list Daily) : list Z :=
  remove_dups (month ∘ date <$> g).

(** A date of the range of [datetime64]: a year of four digits and a month
    of the calendar. *)
Definition valid_date (d : Timestamp) : Prop :=
  (1000 ≤ year d ≤ 9999)%Z ∧ (1 ≤ month d ≤ 12)%Z.


(** A month of the range of [datetime64]: a year of four digits and a month
    of the calendar. Such a month is the only one of its text. *)
Definition valid_month (p : Period) : Prop :=
  (1000 ≤ p.1 ≤ 9999)%Z ∧ (1 ≤ p.2 ≤ 12)%Z.

(** Two texts of months, the first month not after the second: the texts
    are those of two months of the range, in this order of the calendar. *)
Definition month_le (a b : string) : Prop :=
  ∃ p q : Period, valid_month p ∧ valid_month q
                  ∧ a = period_str p ∧ b = period_str q
                  ∧ Period_compare p q ≠ Gt.



(** The sum of the cells of the rows a wide table has for a station, missing
    cells skipped, and the sum of the monthly rainfall a long table has for
    it. *)
Definition wide_station_sum (w : Wide) (s : Station) : Q :=
  Qsum ((λ r : Station * list (option Q), nansum r.2)
          <$> filter (λ r : Station * list (option Q), r.1 = s) (wide_rows w)).

Definition long_station_sum (t : list Monthly.row) (s : Station) : Q :=
  Qsum (Monthly.MonthlyRainfall <$> filter (λ r, Monthly.Station r = s) t).

Section Loading.

Variable to_datetime : string → string → option Timestamp.
Variable to_numeric : string → option Q.

(** A file passes the validation of its columns: it reads as a table that
    has every required column. *)
Definition validates (w : World) (file : string) : Prop :=
  ∃ header body, disk w !! file = Some (Parsed header body)
                 ∧ ∀ c, c ∈ REQUIRED_COLS → c ∈ header.

(** What reading and validating a file gives in a state. *)
Definition validated (w : World) (date_format file : string) : Result (list Daily) :=
  (read_and_validate_csv to_datetime to_numeric file date_format w).1.

(** The line [load_folder] prints for a file. *)
Definition report (w : World) (date_format file : string) : string :=
  match validated w date_format file with
  | Ok df => "Loaded: " +:+ basename file +:+ "  (rows=" +:+ pretty (length df) +:+ ")"
  | Raise e => "Skipping " +:+ basename file +:+ ": " +:+ exn_str e
  end.

(** The tables of the files that validate, in the order of the files. *)
Definition valid_frames (w : World) (date_format : string) (files : list string)
    : list (list Daily) :=
  omap (λ f, match validated w date_format f with
             | Ok df => Some df
             | Raise _ => None
             end) files.

(** A raw row as a daily record, when its date parses. *)
Definition daily_of_raw (date_format : string) (r : RawRow) : option Daily :=
  d ← to_datetime date_format (raw_date r);
  Some (mkDaily (raw_station r) d (to_numeric (raw_rain r))).

End Loading.

Section Correlations.

Variable pearsonr spearmanr kendalltau : list Q → list Q → Result landsat.Stat.
Variable series_corr : string → list Q → list Q → option Q.

(** The row of a lag: none when the lag leaves fewer than 3 pairs. *)
Definition lag_row (base : list landsat.Merged) (season_ : string) (lag : Z)
    : option landsat.CorrRow :=
  let tmp := landsat.lag_pairs base lag in
  if decide (3 ≤ length tmp)%nat then
    let stat := landsat.corr_with_p pearsonr spearmanr kendalltau series_corr
                  tmp.*1 tmp.*2 in
    Some (landsat.mkCorr season_ lag (length tmp)
            (landsat.pearson stat).1 (landsat.pearson stat).2
            (landsat.spearman stat).1 (landsat.spearman stat).2
            (landsat.kendall stat).1 (landsat.kendall stat).2)
  else None.

End Correlations.

(** The pair of a row of the merged table under a lag: its NDVI with the rain
    of the row [lag] places further, when there is such a row and it has a
    rain value. *)
Definition pair_at (base : list landsat.Merged) (lag : Z) (i : nat) : option (Q * Q) :=
  r ← base !! i;
  r' ← (if decide (0 ≤ Z.of_nat i + lag)%Z
        then base !! Z.to_nat (Z.of_nat i + lag) else None);
  v ← landsat.rain r';
  Some (landsat.ndvi r, v).

(** The row the monthly summary gives a station and a month, and the row
    the annual summary gives a station and a year. *)
Definition monthly_row (recs : list Daily) (thr : Q) (s : Station) (p : Period)
    : Monthly.row :=
  let g := rain <$> month_group recs s p in
  Monthly.mk s (period_str p) (nansum g) (length g) (count_missing g)
    (pct (count_missing g) (length g))
    (Qgtb (pct (count_missing g) (length g)) thr).

Definition annual_row (recs : list Daily) (thr : Q) (min_months : Z)
    (s : Station) (y : Z) : Annual.row :=
  let g := year_group recs s y in
  let v := rain <$> g in
  let pm := pct (count_missing v) (length v) in
  let mo := _nmonths (date <$> g) in
  Annual.mk s y (nansum v) (length v) (count_missing v) pm mo
    (12 - Z.of_nat mo) (Qgtb pm thr) (Z.of_nat mo <? min_months)%Z
    (Qgtb pm thr || (Z.of_nat mo <? min_months)%Z).

(** The text of a month is of a year: it starts with the four digits of the
    year and a dash. *)
Definition in_year (y : Z) (ym : string) : bool :=
  starts_with (pad4 y +:+ "-") ym.

(** The months a station has a record in, in a year. *)
Definition year_months (recs : list Daily) (s : Station) (y : Z)
    : list (Station * Period) :=
  filter (λ k : Station * Period, k.1 = s ∧ k.2.1 = y)
         (remove_dups ((λ r, (station r, to_period (date r))) <$> recs)).

(** The rows a monthly table has for a station and a year. *)
Definition months_of (t : list Monthly.row) (s : Station) (y : Z)
    : list Monthly.row :=
  filter (λ m, Monthly.Station m = s ∧ in_year y (Monthly.YearMonth m) = true) t.

(** The first element of a list with a property. *)
Definition first_such {A} (P : A → Prop) (l : list A) (x : A) : Prop :=
  ∃ i : nat, l !! i = Some x ∧ P x ∧ ∀ (j : nat) y, l !! j = Some y → (j < i)%nat → ¬ P y.

(** The names a rainfall file may give its column of values, in the order of
    preference of [load_rainfall]. *)
Definition value_names : list string :=
  ["Value_mm"; "Value"; "Mean_mm"; "MEAN"; "Mean"; "mean"].

Section Loaders.

Variable to_numeric : string → option Q.

(** The cells of a column that hold a number, as numbers. *)
Definition numbers (cells : list landsat.Cell) : list Q :=
  omap (landsat.numeric to_numeric) cells.

(** The columns of a table that hold a number, each with its median. *)
Definition numeric_columns (df : landsat.Frame) : list (string * Q) :=
  omap (λ col : string * list landsat.Cell,
          match numbers col.2 with
          | [] => None
          | s => Some (col.1, landsat.median s)
          end) df.

(** A median an NDVI column may have. *)
Definition plausible (m : Q) : Prop := (2 # 10 <= m)%Q ∧ (m <= 9 # 10)%Q.

Variable num_str : Q → string.


End Loaders.

End spec.

(** * Sample data *)

Module examples.
Import station1.

(** Two stations; the file of the second gives no height. *)
Definition clara : Station :=
  mkStation (Some 1519) (Some "CLARA") (Some 55) (Some 225300) (Some 232200)
            (Some 5334200) (Some (-762000)).

Definition abbeyleix : Station :=
  mkStation (Some 4415) (Some "ABBEYLEIX") None (Some 243800) (Some 184500)
            (Some 5291500) (Some (-734700)).

(** Daily records: for Clara three days of January 2020, one of them without
    a rain value, and one day of December 2019; for Abbeyleix one day of
    February 2020. *)
Definition daily : list Daily :=
  [ mkDaily clara (mkDate 2020 1 1) (Some (3 # 2)%Q);
    mkDaily clara (mkDate 2020 1 2) None;
    mkDaily abbeyleix (mkDate 2020 2 1) (Some 5%Q);
    mkDaily clara (mkDate 2019 12 31) (Some 1%Q);
    mkDaily clara (mkDate 2020 1 3) (Some 1%Q) ].

(** A date of the form [YYYY-MM-DD], and a number written with digits, as the
    two coercions read them. *)
Fixpoint digits_value (s : string) (acc : Z) : option Z :=
  match s with
  | "" => Some acc
  | String c s' =>
      let n := nat_of_ascii c in
      if (48 <=? n)%nat && (n <=? 57)%nat
      then digits_value s' (10 * acc + Z.of_nat (n - 48))
      else None
  end.

Definition number (s : string) : option Z :=
  if String.eqb s "" then None else digits_value s 0.

Definition iso_datetime (date_format text : string) : option Timestamp :=
  if (String.length text =? 10)%nat
     && String.eqb (substring 4 1 text) "-"
     && String.eqb (substring 7 1 text) "-"
  then
    y ← number (substring 0 4 text);
    m ← number (substring 5 2 text);
    d ← number (substring 8 2 text);
    if (1 <=? m)%Z && (m <=? 12)%Z && (1 <=? d)%Z && (d <=? 31)%Z
    then Some (mkDate y m d) else None
  else None.

Definition whole_number (text : string) : option Q :=
  inject_Z <$> number text.

(** The month of [%b]. *)
Definition month_abbr (text : string) : option Z :=
  (λ m : nat * string, Z.of_nat (S m.1))
    <$> list_find (λ m, m = text)
          ["Jan"; "Feb"; "Mar"; "Apr"; "May"; "Jun";
           "Jul"; "Aug"; "Sep"; "Oct"; "Nov"; "Dec"].

(** A date as the format tells to read it, for the two formats
    [%Y-%m-%d] and [%d-%b-%y], the day written with two digits; the year of
    [%y] is of 2000 to 2068, or of 1969 to 1999. No other format parses. *)
Definition strptime (date_format text : string) : option Timestamp :=
  if String.eqb date_format "%Y-%m-%d" then iso_datetime date_format text
  else if String.eqb date_format "%d-%b-%y" then
    if (String.length text =? 9)%nat
       && String.eqb (substring 2 1 text) "-"
       && String.eqb (substring 6 1 text) "-"
    then
      d ← number (substring 0 2 text);
      m ← month_abbr (substring 3 3 text);
      y ← number (substring 7 2 text);
      if (1 <=? d)%Z && (d <=? 31)%Z
      then Some (mkDate (if (y <? 69)%Z then 2000 + y else 1900 + y) m d)
      else None
    else None
  else None.

(** A folder with two station files, the second without its rain column,
    and a state that holds the daily records as table 0. *)
Definition clara_csv : CsvFile :=
  Parsed REQUIRED_COLS
    [ mkRaw clara "2020-01-01" "3";
      mkRaw clara "01/02/2020" "4";
      mkRaw clara "2020-01-03" "n/a" ].

Definition abbeyleix_csv : CsvFile :=
  Parsed ["Station Number"; "Station Name"; "Height"; "Easting"; "Northing";
          "Latitude"; "Longitude"; "date"] [].

Definition frame : DataFrame := mkFrame daily [].

Definition world : World :=
  mkWorld {[ 0%nat := frame ]}
          {[ "stations/clara.csv" := clara_csv;
             "stations/abbeyleix.csv" := abbeyleix_csv ]}
          (λ p, if String.eqb p "out/monthly.csv"
                then Some (PermissionError "Permission denied: 'out/monthly.csv'")
                else None)
          ∅ "20240101-120000" [].

(** The monthly table of the daily records. *)
Definition monthly : list Monthly.row :=
  monthly_table (zip daily (to_period ∘ date <$> daily)) (2 # 10).

(** Two summers of NDVI and two years of rain. *)
Definition ndvi_two_years : list landsat.NdviRow :=
  [ landsat.mkNdvi 2000 "SUMMER" (Some (6 # 10)%Q);
    landsat.mkNdvi 2001 "SUMMER" (Some (7 # 10)%Q) ].

Definition rain_two_years : list landsat.RainRow :=
  [ landsat.mkRain 2000 (Some 900%Q); landsat.mkRain 2001 (Some 1100%Q) ].

(** Five summers of NDVI, 2001 missing, and six years of rain. *)
Definition ndvi_years : list landsat.NdviRow :=
  [ landsat.mkNdvi 1999 "SUMMER" (Some (5 # 10)%Q);
    landsat.mkNdvi 2000 "SUMMER" (Some (6 # 10)%Q);
    landsat.mkNdvi 2002 "SUMMER" (Some (7 # 10)%Q);
    landsat.mkNdvi 2003 "SUMMER" (Some (6 # 10)%Q);
    landsat.mkNdvi 2004 "WINTER" (Some (3 # 10)%Q);
    landsat.mkNdvi 2004 "SUMMER" (Some (8 # 10)%Q) ].

Definition rain_years : list landsat.RainRow :=
  [ landsat.mkRain 1999 (Some 800%Q); landsat.mkRain 2000 (Some 900%Q);
    landsat.mkRain 2001 (Some 1000%Q); landsat.mkRain 2002 (Some 1100%Q);
    landsat.mkRain 2003 (Some 950%Q); landsat.mkRain 2004 (Some 1200%Q) ].

(** The arguments of a run of the consolidator on the folder of the sample
    state, both tables asked for, and a preview that tells the number of
    rows only. *)
Definition args : Args :=
  mkArgs "stations" "out/monthly.csv" (Some "out/wide.csv") "%Y-%m-%d" (2 # 10).

Definition row_count (rows : list Monthly.row) : string :=
  pretty (length rows) +:+ " rows".

Definition annual_row_count (rows : list Annual.row) : string :=
  pretty (length rows) +:+ " rows".

(** A station file with its dates as [run.py] reads them, one of them in
    another form. *)
Definition clara_dmy_csv : CsvFile :=
  Parsed REQUIRED_COLS
    [ mkRaw clara "01-Jan-20" "3";
      mkRaw clara "2020-01-02" "4";
      mkRaw clara "03-Jan-20" "n/a";
      mkRaw clara "15-Feb-21" "7" ].

(** A state for [run.py]: its input folder holds that file, and every path
    can be written. *)
Definition run_world : World :=
  mkWorld ∅
    {[ "C:\Users\marce\PycharmProjects\station\modifiedclara/clara.csv"
         := clara_dmy_csv ]}
    (λ _, None) ∅
          "20240101-120000" [].

(** The same with the file whose dates are written [YYYY-MM-DD]: none is
    of the format of [run.py]. *)
Definition run_world_iso : World :=
  mkWorld ∅
    {[ "C:\Users\marce\PycharmProjects\station\modifiedclara/clara.csv"
         := clara_csv ]}
    (λ _, None) ∅
          "20240101-120000" [].

(** Three consecutive years of the merged table. *)
Definition merged_consecutive : list landsat.Merged :=
  [ landsat.mkMerged 2000 (6 # 10) (Some 900%Q);
    landsat.mkMerged 2001 (7 # 10) (Some 1100%Q);
    landsat.mkMerged 2002 (5 # 10) (Some 1000%Q) ].

(** Tests that give no value, for a run without [scipy]'s numbers. *)
Definition no_test (x y : list Q) : Result landsat.Stat := Ok (None, None).
Definition no_corr (method : string) (x y : list Q) : option Q := None.


(** A rainfall file: the year column named with blanks and capitals, a year
    given twice, a row without a year, a row without a value; and two of the
    value columns. *)
Definition rain_csv : landsat.Frame :=
  [ (" Year ", [ landsat.Number 2001; landsat.Number 2000;
                 landsat.Text "n/a"; landsat.Number 2001 ]);
    ("Mean", [ landsat.Number 1; landsat.Number 2;
               landsat.Number 3; landsat.Number 4 ]);
    ("Value", [ landsat.Number 1000; landsat.Number 900;
                landsat.Number 5; landsat.Text "-" ]) ].

(** An NDVI file: a value that is not a number, a row without its NDWI. *)
Definition ndvi_csv : landsat.Frame :=
  [ ("year", [ landsat.Number 2001; landsat.Number 2000; landsat.Number 2002 ]);
    ("season", [ landsat.Text "summer"; landsat.Text "winter";
                 landsat.Text "Winter" ]);
    ("NDVI_use", [ landsat.Number (61 # 100); landsat.Number (58 # 100);
                   landsat.Text "x" ]);
    ("NDWI", [ landsat.Number (1 # 10); landsat.Missing;
               landsat.Number (2 # 10) ]) ].

Definition csv_files : gmap string landsat.File :=
  {[ "rain.csv" := landsat.Readable rain_csv;
     "ndvi.csv" := landsat.Readable ndvi_csv ]}.

(** A table without a column named for NDVI: two indices, of medians 0.4
    and 0.65, beside the year and a text. *)
Definition unnamed_csv : landsat.Frame :=
  [ ("year", [ landsat.Number 2000; landsat.Number 2001 ]);
    ("index_a", [ landsat.Number (3 # 10); landsat.Number (5 # 10) ]);
    ("index_b", [ landsat.Number (7 # 10); landsat.Number (6 # 10) ]);
    ("label", [ landsat.Text "a"; landsat.Text "b" ]) ].

End examples.

(** * Part II: properties *)

(** ** The stable sort *)

Section StableSort.
Context {A : Type} (leb : A → A → bool).

Lemma insert_sorted_perm x l : insert_sorted leb x l ≡ₚ x :: l.
Proof.
  induction l as [|y l IH]; simpl; [done|].
  destruct (leb x y); [done|]. rewrite IH. apply Permutation_swap.
Qed.

Lemma stable_sort_perm l : stable_sort leb l ≡ₚ l.
Proof.
  induction l as [|x l IH]; simpl; [done|].
  by rewrite insert_sorted_perm, IH.
Qed.

Lemma elem_of_stable_sort x l : x ∈ stable_sort leb l ↔ x ∈ l.
Proof. by rewrite stable_sort_perm. Qed.

Lemma stable_sort_length l : length (stable_sort leb l) = length l.
Proof. by rewrite stable_sort_perm. Qed.

Lemma stable_sort_NoDup l : NoDup l → NoDup (stable_sort leb l).
Proof. by rewrite stable_sort_perm. Qed.

Hypothesis leb_total : ∀ x y, leb x y = true ∨ leb y x = true.

Lemma insert_sorted_Sorted x l :
  Sorted (λ a b, leb a b = true) l →
  Sorted (λ a b, leb a b = true) (insert_sorted leb x l).
Proof.
  induction 1 as [|y l Hs IH Hd]; simpl.
  - repeat constructor.
  - destruct (leb x y) eqn:Hxy.
    + repeat constructor; done.
    + constructor; [done|].
      destruct Hd as [|z l' Hyz]; simpl.
      * constructor. destruct (leb_total x y); congruence.
      * destruct (leb x z); constructor; [|done].
        destruct (leb_total x y); congruence.
Qed.

Lemma stable_sort_Sorted l : Sorted (λ a b, leb a b = true) (stable_sort leb l).
Proof.
  induction l; simpl; [constructor|]. by apply insert_sorted_Sorted.
Qed.

End StableSort.

(** Orders built from comparisons are total. *)

Lemma lex_opp c1 c2 : CompOpp (lex c1 c2) = lex (CompOpp c1) (CompOpp c2).
Proof. by destruct c1. Qed.

Lemma lex_assoc c1 c2 c3 : lex (lex c1 c2) c3 = lex c1 (lex c2 c3).
Proof. by destruct c1. Qed.

Lemma cmp_na_opp {A} (cmp : A → A → comparison) a b :
  (∀ x y, cmp y x = CompOpp (cmp x y)) →
  cmp_na cmp b a = CompOpp (cmp_na cmp a b).
Proof. intros H. destruct a, b; simpl; auto. Qed.

Lemma not_gt_total c : not_gt c = true ∨ not_gt (CompOpp c) = true.
Proof. destruct c; simpl; auto. Qed.


Lemma string_compare_refl s : String.compare s s = Eq.
Proof.
  pose proof (String.compare_antisym s s) as H.
  destruct (String.compare s s); simpl in H; congruence.
Qed.

(** ** Strings *)

Lemma string_app_cons (c : ascii) (s t : string) :
  String c s +:+ t = String c (s +:+ t).
Proof. reflexivity. Qed.

Lemma string_app_nil (t : string) : "" +:+ t = t.
Proof. reflexivity. Qed.

Lemma string_app_nil_r (s : string) : s +:+ "" = s.
Proof. induction s as [|c s IH]; [done|]. by rewrite string_app_cons, IH. Qed.

Lemma string_app_assoc (a b c : string) : (a +:+ b) +:+ c = a +:+ (b +:+ c).
Proof. induction a as [|x a IH]; [done|]. by rewrite !string_app_cons, IH. Qed.

(** ** Sums, counts and rounding *)

Lemma Qgtb_lt a b : Qgtb a b = true ↔ (b < a)%Q.
Proof.
  unfold Qgtb. rewrite negb_true_iff, <- not_true_iff_false, Qle_bool_iff.
  split; [apply Qnot_le_lt | apply Qlt_not_le].
Qed.

Lemma Qgtb_eq_false a b : (a == b)%Q → Qgtb a b = false.
Proof.
  intros H. unfold Qgtb. apply negb_false_iff, Qle_bool_iff.
  rewrite H. apply Qle_refl.
Qed.

Lemma nansum_omap l : nansum l = Qsum (omap id l).
Proof.
  induction l as [|[q|] l IH]; simpl; [done| |done]. by rewrite IH.
Qed.

Lemma Qsum_app l1 l2 : (Qsum (l1 ++ l2) == Qsum l1 + Qsum l2)%Q.
Proof.
  induction l1 as [|q l1 IH]; simpl; [ring|]. rewrite IH. ring.
Qed.

Lemma Qsum_perm l1 l2 : l1 ≡ₚ l2 → (Qsum l1 == Qsum l2)%Q.
Proof.
  induction 1; simpl; try ring.
  - by rewrite IHPermutation.
  - etransitivity; eauto.
Qed.

(** ** Grouping *)

Section GroupBy.
Context {R K : Type} `{EqDecision K}.
Variable kleb : K → K → bool.
Variable key : R → K.

Lemma elem_of_groupby k g rows :
  (k, g) ∈ groupby kleb key rows ↔
  k ∈ key <$> rows ∧ g = filter (λ r, key r = k) rows.
Proof.
  unfold groupby. rewrite list_elem_of_fmap. split.
  - intros (k' & Heq & Hin). injection Heq as -> ->.
    by rewrite elem_of_stable_sort, elem_of_remove_dups in Hin.
  - intros [Hin ->]. exists k. split; [done|].
    by rewrite elem_of_stable_sort, elem_of_remove_dups.
Qed.

Lemma groupby_keys rows :
  fst <$> groupby kleb key rows = stable_sort kleb (remove_dups (key <$> rows)).
Proof.
  unfold groupby. rewrite <- list_fmap_compose. apply list_fmap_id.
Qed.

Lemma groupby_keys_NoDup rows : NoDup (fst <$> groupby kleb key rows).
Proof. rewrite groupby_keys. apply stable_sort_NoDup, NoDup_remove_dups. Qed.

Lemma groupby_nonempty k g rows : (k, g) ∈ groupby kleb key rows → g ≠ [].
Proof.
  rewrite elem_of_groupby. intros [Hin ->] Hnil.
  apply list_elem_of_fmap in Hin as (r & -> & Hr).
  assert (r ∈ filter (λ r0, key r0 = key r) rows) as Hf
    by (by apply list_elem_of_filter).
  rewrite Hnil in Hf. by apply not_elem_of_nil in Hf.
Qed.

End GroupBy.

Lemma zip_fmap_self {A B} (f : A → B) (l : list A) :
  zip l (f <$> l) = (λ x, (x, f x)) <$> l.
Proof. induction l as [|x l IH]; csimpl; [done|]. by rewrite IH. Qed.

Lemma filter_fmap_pair {A B} (f : A → B) (P : A * B → Prop)
    `{∀ x, Decision (P x)} (l : list A) :
  fst <$> filter P ((λ x, (x, f x)) <$> l) = filter (λ x, P (x, f x)) l.
Proof.
  induction l as [|x l IH]; csimpl; [done|].
  rewrite !filter_cons. destruct (decide (P (x, f x))); csimpl; by rewrite IH.
Qed.

(** ** station1.py: the summaries *)

Import station1 spec.

(** Running a sequence, and a [try]. *)

Lemma bind_ok {A B} (m : M A) (k : A → M B) (w w' : World) (a : A) :
  m w = (Ok a, w') → (m ≫= k) w = k a w'.
Proof. intros H. unfold mbind, M_bind. by rewrite H. Qed.

Lemma bind_raise {A B} (m : M A) (k : A → M B) (w w' : World) (e : exn) :
  m w = (Raise e, w') → (m ≫= k) w = (Raise e, w').
Proof. intros H. unfold mbind, M_bind. by rewrite H. Qed.

Lemma try_ok {A} (body : M A) catches handler (w w' : World) (a : A) :
  body w = (Ok a, w') → try_except body catches handler w = (Ok a, w').
Proof. intros H. unfold try_except. by rewrite H. Qed.

Lemma try_caught {A} (body : M A) catches handler (w w' : World) (e : exn) :
  body w = (Raise e, w') → catches e = true →
  try_except body catches handler w = handler e w'.
Proof. intros H Hc. unfold try_except. by rewrite H, Hc. Qed.

Lemma try_uncaught {A} (body : M A) catches handler (w w' : World) (e : exn) :
  body w = (Raise e, w') → catches e = false →
  try_except body catches handler w = (Raise e, w').
Proof. intros H Hc. unfold try_except. by rewrite H, Hc. Qed.

Lemma month_group_rain (recs : list Daily) (k : Station * Period) :
  rain ∘ fst <$> filter (λ r : Daily * Period, (station r.1, r.2) = k)
                        (zip recs (to_period ∘ date <$> recs))
  = rain <$> month_group recs k.1 k.2.
Proof.
  rewrite zip_fmap_self, list_fmap_compose.
  rewrite (filter_fmap_pair (to_period ∘ date)
             (λ r : Daily * Period, (station r.1, r.2) = k)).
  f_equal. unfold month_group. apply list_filter_iff.
  intros r. destruct k as [s p]. simpl. split; [by intros [= -> ->]|].
  by intros [-> ->].
Qed.

Lemma year_group_fst (recs : list Daily) (k : Station * Z) :
  fst <$> filter (λ r : Daily * Z, (station r.1, r.2) = k)
                 (zip recs (year ∘ date <$> recs))
  = year_group recs k.1 k.2.
Proof.
  rewrite zip_fmap_self.
  rewrite (filter_fmap_pair (year ∘ date)
             (λ r : Daily * Z, (station r.1, r.2) = k)).
  unfold year_group. apply list_filter_iff.
  intros r. destruct k as [s p]. simpl. split; [by intros [= -> ->]|].
  by intros [-> ->].
Qed.

(** The rows of the monthly table, one for each (station, month) some record
    has, computed from the records of that station and month. *)
Lemma elem_of_monthly_table (row : Monthly.row) (recs : list Daily) (thr : Q) :
  row ∈ monthly_table (zip recs (to_period ∘ date <$> recs)) thr ↔
  ∃ s p, (s, p) ∈ (λ r, (station r, to_period (date r))) <$> recs ∧
    let g := rain <$> month_group recs s p in
    row = Monthly.mk s (period_str p) (nansum g) (length g) (count_missing g)
            (pct (count_missing g) (length g))
            (Qgtb (pct (count_missing g) (length g)) thr).
Proof.
  unfold monthly_table. rewrite elem_of_stable_sort. split.
  - intros (a & -> & ([k g] & -> & Hkg)%list_elem_of_fmap)%list_elem_of_fmap.
    apply elem_of_groupby in Hkg as [Hk ->]. cbn [fst snd].
    rewrite month_group_rain. destruct k as [s p]. exists s, p. split; [|done].
    rewrite zip_fmap_self, <- list_fmap_compose in Hk. exact Hk.
  - intros (s & p & Hk & ->).
    apply list_elem_of_fmap. eexists (_, _, _, _). split; cycle 1.
    + apply list_elem_of_fmap.
      exists ((s, p), filter (λ r : Daily * Period, (station r.1, r.2) = (s, p))
                        (zip recs (to_period ∘ date <$> recs))).
      split; [reflexivity|]. apply elem_of_groupby. split; [|done].
      by rewrite zip_fmap_self, <- list_fmap_compose.
    + cbn [fst snd]. by rewrite (month_group_rain recs (s, p)).
Qed.

(** The rows of the annual table, one for each (station, year) some record
    has, computed from the records of that station and year. *)
Lemma elem_of_annual_table (row : Annual.row) (recs : list Daily) (thr : Q)
    (min_months : Z) :
  row ∈ annual_table (zip recs (year ∘ date <$> recs)) thr min_months ↔
  ∃ s y, (s, y) ∈ (λ r, (station r, year (date r))) <$> recs ∧
    let g := year_group recs s y in
    let v := rain <$> g in
    let pm := pct (count_missing v) (length v) in
    let mo := _nmonths (date <$> g) in
    row = Annual.mk s y (nansum v) (length v) (count_missing v) pm mo
            (12 - Z.of_nat mo) (Qgtb pm thr) (Z.of_nat mo <? min_months)%Z
            (Qgtb pm thr || (Z.of_nat mo <? min_months)%Z).
Proof.
  unfold annual_table. rewrite elem_of_stable_sort. split.
  - intros (a & -> & ([k g] & -> & Hkg)%list_elem_of_fmap)%list_elem_of_fmap.
    apply elem_of_groupby in Hkg as [Hk ->]. cbn [fst snd].
    rewrite (list_fmap_compose fst rain), (list_fmap_compose fst date).
    rewrite year_group_fst. destruct k as [s y]. exists s, y. split; [|done].
    rewrite zip_fmap_self, <- list_fmap_compose in Hk. exact Hk.
  - intros (s & y & Hk & ->).
    apply list_elem_of_fmap. eexists (_, _, _, _, _). split; cycle 1.
    + apply list_elem_of_fmap.
      exists ((s, y), filter (λ r : Daily * Z, (station r.1, r.2) = (s, y))
                        (zip recs (year ∘ date <$> recs))).
      split; [reflexivity|]. apply elem_of_groupby. split; [|done].
      by rewrite zip_fmap_self, <- list_fmap_compose.
    + cbn [fst snd].
      rewrite (list_fmap_compose fst rain), (list_fmap_compose fst date).
      by rewrite (year_group_fst recs (s, y)).
Qed.

(** What a run of each summary returns and leaves in the store. *)
Lemma summarize_monthly_run (w : World) (df : loc) (d : DataFrame) (thr : Q) :
  heap w !! df = Some d →
  summarize_monthly df thr w =
    (Ok (monthly_table (zip (records d) (to_period ∘ date <$> records d)) thr),
     mkWorld (<[df := setitem "YearMonth"
                        (PeriodColumn (to_period ∘ date <$> records d)) d]> (heap w))
             (disk w) (write_fault w) (outputs w) (now w) (stdout w)).
Proof.
  intros Hd. unfold summarize_monthly, mbind, M_bind, get_frame.
  by rewrite Hd.
Qed.

Lemma summarize_annual_run (w : World) (df : loc) (d : DataFrame) (thr : Q)
    (min_months : Z) :
  heap w !! df = Some d →
  records d ≠ [] →
  summarize_annual df thr min_months w =
    (Ok (annual_table (zip (records d) (year ∘ date <$> records d)) thr min_months),
     mkWorld (<[df := setitem "Month" (IntColumn (month ∘ date <$> records d))
                        (setitem "Year" (IntColumn (year ∘ date <$> records d)) d)]>
                (heap w))
             (disk w) (write_fault w) (outputs w) (now w) (stdout w)).
Proof.
  intros Hd Hrecs. unfold summarize_annual, mbind, M_bind, get_frame.
  rewrite Hd. cbn. rewrite lookup_insert_eq. cbn.
  rewrite insert_insert_eq. by destruct (records d).
Qed.

Lemma summarize_annual_any (w : World) (df : loc) (d : DataFrame) (thr : Q)
    (min_months : Z) :
  heap w !! df = Some d →
  summarize_annual df thr min_months w =
    (match records d with
     | [] => Raise no_group_error
     | _ => Ok (annual_table (zip (records d) (year ∘ date <$> records d))
                  thr min_months)
     end,
     mkWorld (<[df := setitem "Month" (IntColumn (month ∘ date <$> records d))
                        (setitem "Year" (IntColumn (year ∘ date <$> records d)) d)]>
                (heap w))
             (disk w) (write_fault w) (outputs w) (now w) (stdout w)).
Proof.
  intros Hd. unfold summarize_annual, mbind, M_bind, get_frame.
  rewrite Hd. cbn. rewrite lookup_insert_eq. cbn.
  rewrite insert_insert_eq. by destruct (records d).
Qed.

(** On a table with no row the annual summary assigns its two columns and
    then raises. *)
Lemma summarize_annual_no_rows (w : World) (df : loc) (d : DataFrame) (thr : Q)
    (min_months : Z) :
  heap w !! df = Some d →
  records d = [] →
  summarize_annual df thr min_months w =
    (Raise no_group_error,
     mkWorld (<[df := setitem "Month" (IntColumn (month ∘ date <$> records d))
                        (setitem "Year" (IntColumn (year ∘ date <$> records d)) d)]>
                (heap w))
             (disk w) (write_fault w) (outputs w) (now w) (stdout w)).
Proof.
  intros Hd Hrecs. unfold summarize_annual, mbind, M_bind, get_frame.
  rewrite Hd. cbn. rewrite lookup_insert_eq. cbn.
  rewrite insert_insert_eq. by rewrite Hrecs.
Qed.

Lemma omap_rain_fmap (g : list Daily) : omap id (rain <$> g) = present_rain g.
Proof.
  unfold present_rain. induction g as [|r g IH]; csimpl; [done|].
  rewrite IH. by destruct (rain r).
Qed.

Lemma count_missing_rain (g : list Daily) :
  count_missing (rain <$> g) = length (missing_rows g).
Proof.
  unfold count_missing, missing_rows.
  induction g as [|r g IH]; csimpl; [done|].
  rewrite !filter_cons. destruct (rain r) eqn:Hr; simpl.
  - destruct (decide (false = true)); [done|].
    destruct (decide (Some q = None)); [done|]. exact IH.
  - destruct (decide (true = true)); [|done].
    destruct (decide (@None Q = None)); [|done]. simpl. by rewrite IH.
Qed.

Lemma month_group_nonempty (recs : list Daily) (s : Station) (p : Period) :
  (s, p) ∈ (λ r, (station r, to_period (date r))) <$> recs →
  month_group recs s p ≠ [].
Proof.
  intros (r & [= -> ->] & Hr)%list_elem_of_fmap Hnil.
  assert (r ∈ month_group recs (station r) (to_period (date r))) as Hin
    by (by apply list_elem_of_filter).
  rewrite Hnil in Hin. by apply not_elem_of_nil in Hin.
Qed.

Lemma year_group_nonempty (recs : list Daily) (s : Station) (y : Z) :
  (s, y) ∈ (λ r, (station r, year (date r))) <$> recs →
  year_group recs s y ≠ [].
Proof.
  intros (r & [= -> ->] & Hr)%list_elem_of_fmap Hnil.
  assert (r ∈ year_group recs (station r) (year (date r))) as Hin
    by (by apply list_elem_of_filter).
  rewrite Hnil in Hin. by apply not_elem_of_nil in Hin.
Qed.

Lemma remove_dups_fmap_inj_length {A B} `{EqDecision A, EqDecision B}
    (f : A → B) (l : list A) :
  (∀ x y, f x = f y → x = y) →
  length (remove_dups (f <$> l)) = length (remove_dups l).
Proof.
  intros Hinj. induction l as [|x l IH]; csimpl; [done|].
  destruct (decide_rel elem_of (f x) (f <$> l)) as [Hin|Hin];
    destruct (decide_rel elem_of x l) as [Hin'|Hin']; simpl; auto.
  - apply list_elem_of_fmap in Hin as (y & Hxy & Hy).
    apply Hinj in Hxy as ->. done.
  - exfalso. apply Hin. apply list_elem_of_fmap. eauto.
Qed.

(** Within the records of one year, the distinct (year, month) pairs are as
    many as the distinct months. *)
Lemma nmonths_year_group (recs : list Daily) (s : Station) (y : Z) :
  _nmonths (date <$> year_group recs s y)
  = length (distinct_months (year_group recs s y)).
Proof.
  unfold _nmonths, distinct_months.
  rewrite <- (remove_dups_fmap_inj_length (pair y)
                (month ∘ date <$> year_group recs s y))
    by (by intros ?? [= ->]).
  do 2 f_equal. rewrite <- !list_fmap_compose.
  apply list_fmap_ext. intros i r Hr. simpl.
  apply list_elem_of_lookup_2, list_elem_of_filter in Hr as [[_ <-] _]. done.
Qed.

(** C2. For every group of validated daily records sharing a station
    identity and a month, the row of the monthly summary holds: as
    MonthlyRainfall the sum of the rain values of the group that are not
    missing, as DaysCount the number of rows of the group, as MissingCount
    the number of its rows whose rain is missing, and as PctMissing
    MissingCount / DaysCount rounded to 3 decimals. The summary has such a
    row for every record, and every row of it is the row of a group. *)
Theorem monthly_summary_aggregates (w : World) (df : loc) (d : DataFrame)
    (missing_threshold : Q) :
  heap w !! df = Some d →
  ∃ out w', summarize_monthly df missing_threshold w = (Ok out, w') ∧
    (∀ r, r ∈ records d →
       ∃ row, row ∈ out ∧ Monthly.Station row = station r
              ∧ Monthly.YearMonth row = period_str (to_period (date r))) ∧
    (∀ row, row ∈ out →
       ∃ p, Monthly.YearMonth row = period_str p ∧
         let g := month_group (records d) (Monthly.Station row) p in
         g ≠ [] ∧
         Monthly.MonthlyRainfall row = Qsum (present_rain g) ∧
         Monthly.DaysCount row = length g ∧
         Monthly.MissingCount row = length (missing_rows g) ∧
         Monthly.PctMissing row
         = round3 (inject_Z (Z.of_nat (length (missing_rows g)))
                   / inject_Z (Z.of_nat (length g)))).
Proof.
  intros Hd. eexists _, _. split; [by apply summarize_monthly_run|]. split.
  - intros r Hr.
    eexists. split.
    + apply elem_of_monthly_table.
      exists (station r), (to_period (date r)). split; [|reflexivity].
      apply list_elem_of_fmap. eauto.
    + done.
  - intros row (s & p & Hk & ->)%elem_of_monthly_table. exists p. cbn.
    split; [done|]. split; [by apply month_group_nonempty|].
    rewrite nansum_omap, omap_rain_fmap, count_missing_rain, length_fmap.
    done.
Qed.

(** C1. In the monthly and in the annual summary, the period of a row is
    flagged incomplete exactly when its missing fraction, as the table holds
    it (MissingCount / DaysCount rounded to 3 decimals), is strictly above the
    caller's threshold; a fraction equal to the threshold is not flagged. The
    monthly summary is returned for every table, the annual one for every
    table that has a row. *)
Theorem incomplete_flag_strict (w : World) (df : loc) (d : DataFrame)
    (missing_threshold : Q) (min_months : Z) :
  heap w !! df = Some d →
  (∃ out w', summarize_monthly df missing_threshold w = (Ok out, w') ∧
     ∀ row, row ∈ out →
       Monthly.PctMissing row
       = round3 (inject_Z (Z.of_nat (Monthly.MissingCount row))
                 / inject_Z (Z.of_nat (Monthly.DaysCount row))) ∧
       (Monthly.IncompleteMonth row = true
        ↔ (missing_threshold < Monthly.PctMissing row)%Q) ∧
       ((Monthly.PctMissing row == missing_threshold)%Q
        → Monthly.IncompleteMonth row = false)) ∧
  (records d ≠ [] →
   ∃ out w', summarize_annual df missing_threshold min_months w = (Ok out, w') ∧
     ∀ row, row ∈ out →
       Annual.PctMissing row
       = round3 (inject_Z (Z.of_nat (Annual.MissingCount row))
                 / inject_Z (Z.of_nat (Annual.DaysCount row))) ∧
       (Annual.IncompleteYear row = true
        ↔ (missing_threshold < Annual.PctMissing row)%Q) ∧
       ((Annual.PctMissing row == missing_threshold)%Q
        → Annual.IncompleteYear row = false)).
Proof.
  intros Hd. split.
  - eexists _, _. split; [by apply summarize_monthly_run|].
    intros row (s & p & _ & ->)%elem_of_monthly_table. cbn.
    split; [done|]. split; [apply Qgtb_lt | apply Qgtb_eq_false].
  - intros Hrecs. eexists _, _. split; [by apply summarize_annual_run|].
    intros row (s & y & _ & ->)%elem_of_annual_table. cbn.
    split; [done|]. split; [apply Qgtb_lt | apply Qgtb_eq_false].
Qed.

(** The rounding matters: 401 missing rows of 2000 are more than a fifth,
    yet the fraction the table holds is 0.2 and the month is not flagged. *)
Example rounding_hides_a_small_excess :
  (default_missing_threshold < inject_Z 401 / inject_Z 2000)%Q
  ∧ (pct 401 2000 == default_missing_threshold)%Q
  ∧ Qgtb (pct 401 2000) default_missing_threshold = false.
Proof. repeat split; reflexivity. Qed.

(** C3. The annual summary of a table that has a row is returned, and in it
    a row is flagged InsufficientMonths exactly when the number of distinct
    months its station has a record in, in its year, is strictly below the
    caller's minimum; a year with exactly the minimum is not flagged. Flagged
    holds exactly when IncompleteYear or InsufficientMonths does. *)
Theorem insufficient_months_flag (w : World) (df : loc) (d : DataFrame)
    (missing_threshold : Q) (min_months : Z) :
  heap w !! df = Some d →
  records d ≠ [] →
  ∃ out w', summarize_annual df missing_threshold min_months w = (Ok out, w') ∧
    ∀ row, row ∈ out →
      let g := year_group (records d) (Annual.Station row) (Annual.Year row) in
      let observed := length (distinct_months g) in
      Annual.MonthsObserved row = observed ∧
      (Annual.InsufficientMonths row = true ↔ (Z.of_nat observed < min_months)%Z) ∧
      (Z.of_nat observed = min_months → Annual.InsufficientMonths row = false) ∧
      (Annual.Flagged row = true
       ↔ Annual.IncompleteYear row = true ∨ Annual.InsufficientMonths row = true).
Proof.
  intros Hd Hrecs. eexists _, _. split; [by apply summarize_annual_run|].
  intros row (s & y & _ & ->)%elem_of_annual_table. cbn.
  rewrite nmonths_year_group. split; [done|]. split; [apply Z.ltb_lt|].
  split; [|apply orb_true_iff].
  intros <-. apply Z.ltb_irrefl.
Qed.

(** ** The text of a period orders as the period does *)

Lemma digit_compare (a b : Z) :
  (0 ≤ a < 10)%Z → (0 ≤ b < 10)%Z →
  Ascii.compare (digit a) (digit b) = Z.compare a b.
Proof.
  intros Ha Hb.
  assert (a = 0 ∨ a = 1 ∨ a = 2 ∨ a = 3 ∨ a = 4 ∨ a = 5 ∨ a = 6 ∨ a = 7
          ∨ a = 8 ∨ a = 9)%Z as Ha' by lia.
  assert (b = 0 ∨ b = 1 ∨ b = 2 ∨ b = 3 ∨ b = 4 ∨ b = 5 ∨ b = 6 ∨ b = 7
          ∨ b = 8 ∨ b = 9)%Z as Hb' by lia.
  destruct_or!; subst; reflexivity.
Qed.

Lemma digit_mod (a : Z) : digit (a mod 10) = digit a.
Proof. unfold digit. by rewrite Z.mod_mod. Qed.

Lemma compare_tens (x y : Z) :
  Z.compare x y = lex (Z.compare (x / 10) (y / 10)) (Z.compare (x mod 10) (y mod 10)).
Proof.
  pose proof (Z.div_mod x 10 ltac:(lia)) as Hx.
  pose proof (Z.div_mod y 10 ltac:(lia)) as Hy.
  pose proof (Z.mod_pos_bound x 10 ltac:(lia)).
  pose proof (Z.mod_pos_bound y 10 ltac:(lia)).
  destruct (Z.compare_spec (x / 10) (y / 10)); simpl.
  - destruct (Z.compare_spec (x mod 10) (y mod 10)).
    + apply Z.compare_eq_iff. lia.
    + apply Z.compare_lt_iff. lia.
    + apply Z.compare_gt_iff. lia.
  - apply Z.compare_lt_iff. lia.
  - apply Z.compare_gt_iff. lia.
Qed.

Lemma digit_compare_mod (a b : Z) :
  Ascii.compare (digit a) (digit b) = Z.compare (a mod 10) (b mod 10).
Proof.
  rewrite <- (digit_mod a), <- (digit_mod b).
  apply digit_compare; apply Z.mod_pos_bound; lia.
Qed.

Lemma string_compare_cons c1 s1 c2 s2 :
  String.compare (String c1 s1) (String c2 s2)
  = lex (Ascii.compare c1 c2) (String.compare s1 s2).
Proof. simpl. by destruct (Ascii.compare c1 c2). Qed.

Lemma period_str_compare (p q : Period) :
  (0 ≤ p.1 < 10000)%Z → (0 ≤ q.1 < 10000)%Z →
  (0 ≤ p.2 < 100)%Z → (0 ≤ q.2 < 100)%Z →
  String.compare (period_str p) (period_str q) = Period_compare p q.
Proof.
  destruct p as [y m], q as [y' m']. cbn [fst snd]. intros Hy Hy' Hm Hm'.
  unfold period_str, pad4, pad2, Period_compare. cbn [fst snd].
  rewrite !string_app_cons, !string_app_nil.
  rewrite !string_compare_cons, !digit_compare_mod. cbn [String.compare].
  change (Ascii.compare "-" "-") with Eq. cbn [lex].
  assert (∀ x, 0 ≤ x < 10000 → x / 10 / 10 = x / 100 ∧ x / 10 / 10 / 10 = x / 1000
                 ∧ (x / 1000) mod 10 = x / 1000)%Z as Hdiv.
  { intros x Hx. rewrite !Z.div_div by lia. repeat split.
    apply Z.mod_small. split; [apply Z.div_pos; lia|].
    apply Z.div_lt_upper_bound; lia. }
  destruct (Hdiv y Hy) as (Hy2 & Hy3 & ->).
  destruct (Hdiv y' Hy') as (Hy2' & Hy3' & ->).
  rewrite (compare_tens y y'), (compare_tens (y / 10) (y' / 10)).
  rewrite (compare_tens (y / 10 / 10) (y' / 10 / 10)).
  rewrite (compare_tens m m').
  rewrite Hy3, Hy2, Hy3', Hy2'.
  assert ((m / 10) mod 10 = m / 10)%Z as ->
    by (apply Z.mod_small; split; [apply Z.div_pos; lia | apply Z.div_lt_upper_bound; lia]).
  assert ((m' / 10) mod 10 = m' / 10)%Z as ->
    by (apply Z.mod_small; split; [apply Z.div_pos; lia | apply Z.div_lt_upper_bound; lia]).
  destruct (y / 1000 ?= y' / 1000)%Z; [|done..].
  destruct (y / 100 mod 10 ?= y' / 100 mod 10)%Z; [|done..].
  destruct (y / 10 mod 10 ?= y' / 10 mod 10)%Z; [|done..].
  destruct (y mod 10 ?= y' mod 10)%Z; [|done..].
  cbn [lex]. destruct (m / 10 ?= m' / 10)%Z; [|done..].
  cbn [lex]. by destruct (m mod 10 ?= m' mod 10)%Z.
Qed.

Lemma period_str_inj (p q : Period) :
  (0 ≤ p.1 < 10000)%Z → (0 ≤ q.1 < 10000)%Z →
  (0 ≤ p.2 < 100)%Z → (0 ≤ q.2 < 100)%Z →
  period_str p = period_str q → p = q.
Proof.
  intros Hp Hq Hp' Hq' Heq.
  pose proof (period_str_compare p q Hp Hq Hp' Hq') as Hc.
  rewrite Heq, string_compare_refl in Hc.
  destruct p as [y m], q as [y' m']. unfold Period_compare in Hc.
  cbn [fst snd] in Hc.
  destruct (Z.compare_spec y y'); try done. subst.
  cbn [lex] in Hc. symmetry in Hc. by apply Z.compare_eq in Hc as ->.
Qed.

(** ** Order and uniqueness of the rows of a summary *)

Lemma Sorted_impl_elem {A} (R R' : A → A → Prop) (l : list A) :
  (∀ x y, x ∈ l → y ∈ l → R x y → R' x y) → Sorted R l → Sorted R' l.
Proof.
  intros HR Hs. induction Hs as [|x l Hs IH Hd]; [constructor|].
  constructor.
  - apply IH. intros y z Hy Hz. apply HR; by right.
  - destruct Hd as [|y l' Hxy]; constructor.
    apply HR; [by left | right; by left | done].
Qed.



Lemma valid_period (d : Timestamp) :
  valid_date d →
  (0 ≤ (to_period d).1 < 10000)%Z ∧ (0 ≤ (to_period d).2 < 100)%Z.
Proof. unfold valid_date, to_period. simpl. lia. Qed.


(** The order of the texts of two months of the range is the order of the
    months: a later month never comes first. *)
Lemma month_le_order (p q : Period) :
  valid_month p → valid_month q →
  month_le (period_str p) (period_str q) ↔ Period_compare p q ≠ Gt.
Proof.
  intros Hp Hq. split.
  - intros (p' & q' & Hp' & Hq' & Ha & Hb & Hle).
    unfold valid_month in *.
    apply period_str_inj in Ha; [|lia..]. apply period_str_inj in Hb; [|lia..].
    by subst.
  - intros Hle. by exists p, q.
Qed.

Example month_le_december_january :
  month_le "2020-01" "2020-12" ∧ ¬ month_le "2020-12" "2020-01".
Proof.
  split.
  - apply (month_le_order (2020, 1)%Z (2020, 12)%Z);
      [unfold valid_month; cbn; lia..|done].
  - intros H. apply (month_le_order (2020, 12)%Z (2020, 1)%Z) in H;
      [|unfold valid_month; cbn; lia..].
    by apply H.
Qed.









(** ** The summaries write to the caller's table *)

Lemma column_assign_eq c v cols : column c (assign c v cols) = Some v.
Proof.
  induction cols as [|[c' v'] cols IH]; simpl.
  - by rewrite decide_True.
  - destruct (decide (c' = c)); simpl.
    + by rewrite decide_True.
    + by rewrite decide_False.
Qed.

Lemma column_assign_ne c c' v cols :
  c' ≠ c → column c' (assign c v cols) = column c' cols.
Proof.
  intros Hne. induction cols as [|[c'' v''] cols IH]; simpl.
  - by rewrite decide_False.
  - destruct (decide (c'' = c)) as [->|]; simpl.
    + by rewrite !decide_False.
    + destruct (decide (c'' = c')); [done|apply IH].
Qed.

Lemma assign_fresh c v cols :
  c ∉ cols.*1 → assign c v cols = cols ++ [(c, v)].
Proof.
  induction cols as [|[c' v'] cols IH]; simpl; [done|].
  intros [Hne Hnin]%not_elem_of_cons.
  rewrite decide_False by done. by rewrite IH.
Qed.

Lemma assign_names_ne c c' v cols :
  c' ≠ c → c' ∈ (assign c v cols).*1 ↔ c' ∈ cols.*1.
Proof.
  intros Hne. induction cols as [|[c'' v''] cols IH]; simpl.
  - rewrite list_elem_of_singleton. split; [done|]. by intros ?%not_elem_of_nil.
  - destruct (decide (c'' = c)) as [->|]; csimpl.
    + rewrite !elem_of_cons. tauto.
    + rewrite !elem_of_cons, IH. tauto.
Qed.

Lemma assigned_setitem c v d : assigned (setitem c v d) = assign c v (assigned d).
Proof. reflexivity. Qed.

Lemma records_setitem c v d : records (setitem c v d) = records d.
Proof. reflexivity. Qed.

Lemma assign_names c v cols : (assign c v cols).*1 = add_column cols.*1 c.
Proof.
  unfold add_column. induction cols as [|[c' v'] cols IH]; csimpl.
  - done.
  - destruct (decide (c' = c)) as [->|Hne]; csimpl.
    + by rewrite decide_True by left.
    + rewrite IH. destruct (decide (c ∈ cols.*1)) as [Hin|Hnin].
      * by rewrite decide_True by (by right).
      * rewrite decide_False; [done|].
        intros [?|?]%elem_of_cons; [by apply Hne|by apply Hnin].
Qed.

Lemma elem_of_add_columns (names l : list string) (c : string) :
  c ∈ foldl add_column names l ↔ c ∈ names ∨ c ∈ l.
Proof.
  revert names. induction l as [|x l IH]; intros names; simpl.
  - rewrite elem_of_nil. tauto.
  - rewrite IH, elem_of_cons. unfold add_column.
    destruct (decide (x ∈ names)) as [Hin|Hnin].
    + split; [tauto|]. intros [?|[->|?]]; tauto.
    + rewrite elem_of_app, list_elem_of_singleton. tauto.
Qed.

Lemma add_column_fresh names c : c ∉ names → add_column names c = names ++ [c].
Proof. intros Hnin. unfold add_column. by rewrite decide_False. Qed.

Lemma add_column_old names c : c ∈ names → add_column names c = names.
Proof. intros Hin. unfold add_column. by rewrite decide_True. Qed.

Lemma columns_setitem fc c v d :
  columns fc (setitem c v d) = add_column (columns fc d) c.
Proof.
  unfold columns, setitem. cbn [assigned]. rewrite assign_names.
  destruct (decide (c ∈ (assigned d).*1)) as [Hin|Hnin].
  - rewrite (add_column_old (assigned d).*1) by done.
    symmetry. apply add_column_old, elem_of_add_columns. by right.
  - rewrite (add_column_fresh (assigned d).*1) by done. by rewrite foldl_app.
Qed.

Lemma setitem_fresh_ne fc c v d : c ∉ columns fc d → setitem c v d ≠ d.
Proof.
  intros Hnin Heq. apply (f_equal (columns fc)) in Heq.
  rewrite columns_setitem, add_column_fresh in Heq by done.
  apply (f_equal length) in Heq. rewrite length_app in Heq. simpl in Heq. lia.
Qed.

(** C10. The summaries write to the table of the caller: after
    [summarize_monthly] the table has a YearMonth column holding the month of
    each row, after [summarize_annual] a Year and a Month column, also when
    the table has no row and the annual summary raises instead of returning.
    A column of that name is overwritten where it stands, be it a column of
    the files or one written before; a table that had no such column has
    gained it after its other columns, and is not what it was. The rows,
    every other column and every other table are as before. *)
Theorem summaries_mutate_input (w : World) (df : loc) (d : DataFrame)
    (missing_threshold : Q) (min_months : Z) :
  heap w !! df = Some d →
  (∃ out w' d', summarize_monthly df missing_threshold w = (Ok out, w') ∧
     heap w' !! df = Some d' ∧
     records d' = records d ∧
     column "YearMonth" (assigned d')
     = Some (PeriodColumn (to_period ∘ date <$> records d)) ∧
     (∀ c, c ≠ "YearMonth" → column c (assigned d') = column c (assigned d)) ∧
     (∀ file_columns,
        columns file_columns d' = add_column (columns file_columns d) "YearMonth" ∧
        ("YearMonth" ∈ columns file_columns d →
         columns file_columns d' = columns file_columns d) ∧
        ("YearMonth" ∉ columns file_columns d →
         columns file_columns d' = columns file_columns d ++ ["YearMonth"]
         ∧ d' ≠ d)) ∧
     (∀ l, l ≠ df → heap w' !! l = heap w !! l)) ∧
  (∃ r w' d', summarize_annual df missing_threshold min_months w = (r, w') ∧
     (records d ≠ [] → ∃ out, r = Ok out) ∧
     (records d = [] → ∃ msg, r = Raise (TypeError msg)) ∧
     heap w' !! df = Some d' ∧
     records d' = records d ∧
     column "Year" (assigned d') = Some (IntColumn (year ∘ date <$> records d)) ∧
     column "Month" (assigned d') = Some (IntColumn (month ∘ date <$> records d)) ∧
     (∀ c, c ≠ "Year" → c ≠ "Month" →
           column c (assigned d') = column c (assigned d)) ∧
     (∀ file_columns,
        columns file_columns d'
        = add_column (add_column (columns file_columns d) "Year") "Month" ∧
        ("Year" ∈ columns file_columns d → "Month" ∈ columns file_columns d →
         columns file_columns d' = columns file_columns d) ∧
        ("Year" ∉ columns file_columns d → "Month" ∉ columns file_columns d →
         columns file_columns d' = columns file_columns d ++ ["Year"; "Month"]
         ∧ d' ≠ d)) ∧
     (∀ l, l ≠ df → heap w' !! l = heap w !! l)).
Proof.
  intros Hd. split.
  - eexists _, _, _. split; [by apply summarize_monthly_run|]. cbn [heap].
    split; [apply lookup_insert_eq|]. rewrite !assigned_setitem.
    split; [done|].
    split; [apply column_assign_eq|].
    split; [intros c Hc; by apply column_assign_ne|].
    split; [|intros l Hl; by apply lookup_insert_ne].
    intros fc. rewrite columns_setitem. split; [done|].
    split; [apply add_column_old|].
    intros Hnin. split; [by apply add_column_fresh|by apply (setitem_fresh_ne fc)].
  - set (d' := setitem "Month" (IntColumn (month ∘ date <$> records d))
                 (setitem "Year" (IntColumn (year ∘ date <$> records d)) d)).
    assert (∃ r, summarize_annual df missing_threshold min_months w
                 = (r, mkWorld (<[df := d']> (heap w)) (disk w) (write_fault w)
                               (outputs w) (now w) (stdout w))
                 ∧ (records d ≠ [] → ∃ out, r = Ok out)
                 ∧ (records d = [] → ∃ msg, r = Raise (TypeError msg)))
      as (r & Hrun & Hok & Hraise).
    { destruct (decide (records d = [])) as [Hnil|Hrecs].
      - eexists. split; [by apply summarize_annual_no_rows|].
        split; [done|]. intros _. by eexists.
      - eexists. split; [by apply summarize_annual_run|].
        split; [|done]. intros _. by eexists. }
    exists r. eexists _, d'. split; [exact Hrun|].
    split; [exact Hok|]. split; [exact Hraise|]. cbn [heap].
    split; [apply lookup_insert_eq|]. subst d'. rewrite !assigned_setitem.
    split; [done|].
    split; [by rewrite column_assign_ne, column_assign_eq by done|].
    split; [apply column_assign_eq|].
    split; [intros c Hc Hc'; by rewrite !column_assign_ne by done|].
    split; [|intros l Hl; by apply lookup_insert_ne].
    intros fc. rewrite !columns_setitem. split; [done|].
    split.
    + intros Hy Hm. by rewrite (add_column_old _ "Year"), add_column_old.
    + intros Hy Hm. rewrite (add_column_fresh _ "Year") by done.
      rewrite add_column_fresh, <- app_assoc.
      2:{ rewrite elem_of_app, list_elem_of_singleton. intros [?|?]; done. }
      split; [done|]. intros Heq. apply (f_equal (columns fc)) in Heq.
      rewrite !columns_setitem, (add_column_fresh _ "Year") in Heq by done.
      rewrite add_column_fresh in Heq.
      2:{ rewrite elem_of_app, list_elem_of_singleton. intros [?|?]; done. }
      apply (f_equal length) in Heq. rewrite !length_app in Heq.
      simpl in Heq. lia.
Qed.

(** ** Loading *)

Section LoadingProperties.

Variable to_datetime : string → string → option Timestamp.
Variable to_numeric : string → option Q.

Lemma emit_nil (w : World) : emit [] w = w.
Proof. destruct w. unfold emit. simpl. by rewrite app_nil_r. Qed.

Lemma emit_emit (l1 l2 : list string) (w : World) :
  emit l2 (emit l1 w) = emit (l1 ++ l2) w.
Proof. unfold emit. simpl. by rewrite app_assoc. Qed.

Lemma missing_nil_iff (header : list string) :
  missing_columns header = [] ↔ ∀ c, c ∈ REQUIRED_COLS → c ∈ header.
Proof.
  unfold missing_columns. split.
  - intros Hnil c Hc. destruct (decide (c ∈ header)) as [|Hn]; [done|].
    assert (c ∈ filter (λ c, c ∉ header) REQUIRED_COLS) as Hin
      by (by apply list_elem_of_filter).
    rewrite Hnil in Hin. by apply not_elem_of_nil in Hin.
  - intros Hall. apply elem_of_nil_inv. intros c [Hn Hc]%list_elem_of_filter.
    by apply Hn, Hall.
Qed.

Lemma dropna_date_coerce (date_format : string) (body : list RawRow) :
  dropna_date (coerce to_datetime to_numeric date_format <$> body)
  = omap (daily_of_raw to_datetime to_numeric date_format) body.
Proof.
  unfold dropna_date. induction body as [|r body IH]; csimpl; [done|].
  rewrite IH. unfold daily_of_raw. by destruct (to_datetime _ _).
Qed.

(** What reading a file gives, by what the disk holds. *)
Lemma read_and_validate_csv_run (w : World) (file date_format : string) :
  read_and_validate_csv to_datetime to_numeric file date_format w
  = (match disk w !! file with
     | Some (Parsed header body) =>
         if decide (missing_columns header = [])
         then Ok (omap (daily_of_raw to_datetime to_numeric date_format) body)
         else Raise (ValueError ("Missing columns: "
                       +:+ repr_list (missing_columns header)))
     | Some (Unreadable e) => Raise e
     | None => Raise (FileNotFoundError
                        ("No such file or directory: " +:+ repr_str file))
     end, w).
Proof.
  unfold read_and_validate_csv.
  destruct (disk w !! file) as [[e|header body]|] eqn:Hf.
  - apply bind_raise. unfold read_csv. by rewrite Hf.
  - erewrite bind_ok by (unfold read_csv; by rewrite Hf).
    cbv zeta. cbn [fst snd]. case_decide; [|done].
    by rewrite dropna_date_coerce.
  - apply bind_raise. unfold read_csv. by rewrite Hf.
Qed.

(** Reading a file leaves the state as it was. *)
Lemma read_and_validate_csv_pure (w : World) (file date_format : string) :
  read_and_validate_csv to_datetime to_numeric file date_format w
  = (validated to_datetime to_numeric w date_format file, w).
Proof. unfold validated. by rewrite read_and_validate_csv_run. Qed.

Lemma validated_Parsed (w : World) (date_format file : string)
    (header : list string) (body : list RawRow) :
  disk w !! file = Some (Parsed header body) →
  validated to_datetime to_numeric w date_format file
  = if decide (missing_columns header = [])
    then Ok (omap (daily_of_raw to_datetime to_numeric date_format) body)
    else Raise (ValueError ("Missing columns: "
                  +:+ repr_list (missing_columns header))).
Proof.
  intros Hf. unfold validated. by rewrite read_and_validate_csv_run, Hf.
Qed.

Lemma validates_iff (w : World) (date_format file : string) :
  validates w file ↔ ∃ df, validated to_datetime to_numeric w date_format file = Ok df.
Proof.
  split.
  - intros (header & body & Hf & Hall).
    rewrite (validated_Parsed _ _ _ _ _ Hf).
    rewrite decide_True by (by apply missing_nil_iff). eauto.
  - intros [df Hdf]. unfold validated in Hdf.
    rewrite read_and_validate_csv_run in Hdf. cbn [fst] in Hdf.
    destruct (disk w !! file) as [[e|header body]|] eqn:Hf; try done.
    case_decide as Hnil; [|done].
    exists header, body. split; [done|]. by apply missing_nil_iff.
Qed.

Lemma validated_emit (lines : list string) (w : World) (date_format file : string) :
  validated to_datetime to_numeric (emit lines w) date_format file
  = validated to_datetime to_numeric w date_format file.
Proof. unfold validated. by rewrite !read_and_validate_csv_run. Qed.

Lemma report_emit (lines : list string) (w : World) (date_format file : string) :
  report to_datetime to_numeric (emit lines w) date_format file
  = report to_datetime to_numeric w date_format file.
Proof. unfold report. by rewrite validated_emit. Qed.

Lemma valid_frames_emit (lines : list string) (w : World) (date_format : string)
    (files : list string) :
  valid_frames to_datetime to_numeric (emit lines w) date_format files
  = valid_frames to_datetime to_numeric w date_format files.
Proof.
  unfold valid_frames. induction files as [|f files IH]; csimpl; [done|].
  by rewrite validated_emit, IH.
Qed.

Lemma load_files_run (files : list string) (date_format : string)
    (frames : list (list Daily)) (w : World) :
  load_files to_datetime to_numeric files date_format frames w
  = (Ok (frames ++ valid_frames to_datetime to_numeric w date_format files),
     emit (report to_datetime to_numeric w date_format <$> files) w).
Proof.
  revert frames w. induction files as [|f rest IH]; intros frames w.
  - cbn. by rewrite app_nil_r, emit_nil.
  - cbn [load_files].
    destruct (validated to_datetime to_numeric w date_format f) as [df|e] eqn:Hv.
    + erewrite bind_ok; cycle 1.
      { apply try_ok. erewrite bind_ok;
          [|by rewrite read_and_validate_csv_pure, Hv]. reflexivity. }
      rewrite IH, emit_emit, <- app_assoc, valid_frames_emit.
      erewrite (list_fmap_ext (report _ _ (emit _ _) _));
        [|intros; apply report_emit].
      unfold valid_frames, report. csimpl. by rewrite Hv.
    + erewrite bind_ok; cycle 1.
      { erewrite try_caught; [reflexivity| |done].
        apply bind_raise. by rewrite read_and_validate_csv_pure, Hv. }
      rewrite IH, emit_emit, valid_frames_emit.
      erewrite (list_fmap_ext (report _ _ (emit _ _) _));
        [|intros; apply report_emit].
      unfold valid_frames, report. csimpl. by rewrite Hv.
Qed.

Lemma glob_run (pattern : string) (w : World) :
  ∃ files, glob pattern w = (Ok files, w).
Proof. unfold glob. destruct (split_star pattern) as [[pre suf]|]; eauto. Qed.

Lemma valid_frames_nil_iff (w : World) (date_format : string) (files : list string) :
  valid_frames to_datetime to_numeric w date_format files = []
  ↔ ¬ ∃ f, f ∈ files ∧ validates w f.
Proof.
  unfold valid_frames. split.
  - intros Hnil (f & Hf & [df Hdf]%(validates_iff _ date_format)).
    assert (df ∈ @nil (list Daily)) as Hin; [|by apply not_elem_of_nil in Hin].
    rewrite <- Hnil. apply list_elem_of_omap. exists f. by rewrite Hdf.
  - intros Hno. apply elem_of_nil_inv. intros df (f & Hf & Hdf)%list_elem_of_omap.
    apply Hno. exists f. split; [done|]. apply (validates_iff _ date_format).
    destruct (validated _ _ _ _ _) as [df'|]; [eauto|done].
Qed.

Lemma load_folder_run (w : World) (input_folder date_format : string)
    (files : list string) :
  glob (path_join input_folder "*.csv") w = (Ok files, w) →
  load_folder to_datetime to_numeric input_folder date_format w
  = if decide (files = []) then
      (Raise (FileNotFoundError "No CSV files found in the folder."), w)
    else
      let frames := valid_frames to_datetime to_numeric w date_format files in
      let w' := emit (report to_datetime to_numeric w date_format <$> files) w in
      if decide (frames = []) then
        (Raise (RuntimeError "No valid CSVs after validation."), w')
      else new_frame (mkFrame (concat frames) []) w'.
Proof.
  intros Hglob. unfold load_folder. erewrite bind_ok by exact Hglob.
  case_decide; [done|].
  erewrite bind_ok by apply load_files_run. cbn [app]. by case_decide.
Qed.

(** C5. Of the CSV files of the folder, one that lacks a required column is
    skipped, and the line printed for it tells which columns it lacks; the
    other files are still read. The load gives a table exactly when some
    file validates, the table of the validated files; it raises when none
    does, and when the folder has no CSV file. *)
Theorem load_folder_outcomes (w : World) (input_folder date_format : string) :
  ∃ files, glob (path_join input_folder "*.csv") w = (Ok files, w) ∧
    let r := load_folder to_datetime to_numeric input_folder date_format w in
    (files = [] →
       r = (Raise (FileNotFoundError "No CSV files found in the folder."), w)) ∧
    (files ≠ [] →
       stdout r.2 = stdout w ++ (report to_datetime to_numeric w date_format <$> files) ∧
       ((∃ df, r.1 = Ok df) ↔ ∃ f, f ∈ files ∧ validates w f) ∧
       ((¬ ∃ f, f ∈ files ∧ validates w f) →
          r.1 = Raise (RuntimeError "No valid CSVs after validation.")) ∧
       (∀ df, r.1 = Ok df →
          heap w !! df = None ∧
          heap r.2 !! df
          = Some (mkFrame (concat (valid_frames to_datetime to_numeric w
                                     date_format files)) []))) ∧
    (∀ f header body,
       disk w !! f = Some (Parsed header body) →
       (¬ ∀ c, c ∈ REQUIRED_COLS → c ∈ header) →
       report to_datetime to_numeric w date_format f
       = "Skipping " +:+ basename f +:+ ": Missing columns: "
           +:+ repr_list (missing_columns header)).
Proof.
  destruct (glob_run (path_join input_folder "*.csv") w) as [files Hglob].
  exists files. split; [done|]. cbv zeta.
  rewrite (load_folder_run _ _ _ _ Hglob).
  split; [|split].
  - intros ->. by rewrite decide_True.
  - intros Hne. rewrite decide_False by done. cbv zeta.
    pose proof (valid_frames_nil_iff w date_format files) as Hnil.
    destruct (decide (valid_frames to_datetime to_numeric w date_format files = []))
      as [Hv|Hv]; cbn.
    + split; [done|]. split; [|split].
      * split; [by intros [??]|]. intros Hex. by apply Hnil in Hv.
      * done.
      * done.
    + split; [done|]. split; [|split].
      * split; [|eauto]. intros _.
        destruct (valid_frames to_datetime to_numeric w date_format files)
          as [|df rest] eqn:Hvf; [done|].
        assert (df ∈ valid_frames to_datetime to_numeric w date_format files)
          as (f & Hf & Hdf)%list_elem_of_omap by (rewrite Hvf; by left).
        exists f. split; [done|]. apply (validates_iff _ date_format).
        destruct (validated _ _ _ _ _) as [df'|]; [eauto|done].
      * intros Hno. by apply Hnil in Hno.
      * intros df [= <-]. split; [|apply lookup_insert_eq].
        apply not_elem_of_dom, is_fresh.
  - intros f header body Hf Hmiss. unfold report.
    rewrite (validated_Parsed _ _ _ _ _ Hf).
    rewrite decide_False by (by rewrite missing_nil_iff). done.
Qed.

(** C6. Of a file that passes the validation of its columns, the table
    returned holds, in their order, the rows whose date parses under the
    caller's format: a row whose date does not parse is dropped; a row whose
    rain does not parse is kept, its rain missing, and so it counts as a row
    and as a missing row of its group, and adds nothing to the sum. *)
Theorem read_and_validate_rows (w : World) (file date_format : string)
    (header : list string) (body : list RawRow) :
  disk w !! file = Some (Parsed header body) →
  (∀ c, c ∈ REQUIRED_COLS → c ∈ header) →
  ∃ out, read_and_validate_csv to_datetime to_numeric file date_format w = (Ok out, w) ∧
    out = omap (daily_of_raw to_datetime to_numeric date_format) body ∧
    length out
    = length (filter (λ r, is_Some (to_datetime date_format (raw_date r))) body) ∧
    (∀ r d, r ∈ body → to_datetime date_format (raw_date r) = Some d →
       mkDaily (raw_station r) d (to_numeric (raw_rain r)) ∈ out) ∧
    (∀ r d, r ∈ body → to_datetime date_format (raw_date r) = Some d →
       to_numeric (raw_rain r) = None →
       mkDaily (raw_station r) d None ∈ out) ∧
    (∀ x, x ∈ out →
       ∃ r, r ∈ body ∧ to_datetime date_format (raw_date r) = Some (date x)
            ∧ station x = raw_station r ∧ rain x = to_numeric (raw_rain r)) ∧
    (∀ x g1 g2, rain x = None →
       length (g1 ++ x :: g2) = S (length (g1 ++ g2)) ∧
       length (missing_rows (g1 ++ x :: g2)) = S (length (missing_rows (g1 ++ g2))) ∧
       present_rain (g1 ++ x :: g2) = present_rain (g1 ++ g2)).
Proof.
  intros Hf Hcols. eexists. split.
  { rewrite read_and_validate_csv_pure, (validated_Parsed _ _ _ _ _ Hf).
    by rewrite decide_True by (by apply missing_nil_iff). }
  split; [done|]. split; [|split; [|split; [|split]]].
  - clear Hf. induction body as [|r body IH]; csimpl; [done|].
    rewrite filter_cons. unfold daily_of_raw at 1.
    destruct (to_datetime date_format (raw_date r)) eqn:Hd; csimpl.
    + by rewrite IH.
    + exact IH.
  - intros r d Hr Hd. apply list_elem_of_omap. exists r. split; [done|].
    unfold daily_of_raw. by rewrite Hd.
  - intros r d Hr Hd Hn. apply list_elem_of_omap. exists r. split; [done|].
    unfold daily_of_raw. by rewrite Hd, Hn.
  - intros x (r & Hr & Hx)%list_elem_of_omap. exists r. split; [done|].
    unfold daily_of_raw in Hx.
    destruct (to_datetime date_format (raw_date r)); [|done].
    by injection Hx as <-.
  - intros x g1 g2 Hx. unfold missing_rows, present_rain.
    rewrite !length_app, !filter_app, !length_app, filter_cons, !omap_app.
    rewrite decide_True by done. csimpl. rewrite Hx. split; [lia|]. split; [lia|done].
Qed.

(** The files [glob] gives for a folder are the files of the disk whose path
    is the folder, a name that ends in [.csv] and does not start with a dot. *)
Lemma contains_app (c : ascii) (a b : string) :
  contains c (a +:+ b) = contains c a || contains c b.
Proof.
  induction a as [|x a IH]; [done|]. rewrite string_app_cons. simpl.
  rewrite IH. by rewrite orb_assoc.
Qed.

Lemma split_star_app (a b : string) :
  contains "*" a = false → split_star (a +:+ String "*" b) = Some (a, b).
Proof.
  induction a as [|x a IH]; [done|]. rewrite string_app_cons. simpl.
  intros [Hx Ha]%orb_false_iff. rewrite Hx, IH by done. done.
Qed.

Lemma path_join_pattern (folder name : string) :
  path_join folder name = path_join folder "" +:+ name.
Proof.
  unfold path_join. destruct (String.eqb folder ""); [done|].
  destruct (ends_with "/" folder).
  - by rewrite string_app_nil_r.
  - by rewrite !string_app_assoc.
Qed.

Lemma elem_of_glob_csv (w : World) (input_folder : string) (files : list string)
    (f : string) :
  contains "*" input_folder = false →
  glob (path_join input_folder "*.csv") w = (Ok files, w) →
  f ∈ files ↔ is_Some (disk w !! f)
              ∧ star_match (path_join input_folder "") ".csv" f = true.
Proof.
  intros Hstar. unfold glob. rewrite path_join_pattern.
  rewrite split_star_app; cycle 1.
  { unfold path_join. destruct (String.eqb input_folder ""); [done|].
    destruct (ends_with "/" input_folder); rewrite !contains_app, Hstar; done. }
  intros [= <-]. rewrite list_elem_of_filter, list_elem_of_fmap. split.
  - intros [Hm ([f' x] & -> & Hin%elem_of_map_to_list)]. eauto.
  - intros [[x Hx] Hm]. split; [done|]. exists (f, x).
    split; [done|]. by apply elem_of_map_to_list.
Qed.

End LoadingProperties.

(** ** Saving *)

Lemma substring_0_all (s : string) : substring 0 (String.length s) s = s.
Proof. induction s as [|c s IH]; simpl; [done|]. by rewrite IH. Qed.

Lemma substring_split (s : string) (n : nat) :
  (n ≤ String.length s)%nat →
  substring 0 n s +:+ substring n (String.length s - n) s = s.
Proof.
  revert n. induction s as [|c s IH]; intros [|n] Hn; simpl in *; try lia.
  - done.
  - by rewrite string_app_nil, substring_0_all.
  - rewrite string_app_cons, IH by lia. done.
Qed.

Lemma rfind_Some (c : ascii) (s : string) (i : nat) :
  rfind c s = Some i →
  (i < String.length s)%nat
  ∧ ∃ t, substring i (String.length s - i) s = String c t.
Proof.
  revert i. induction s as [|a s IH]; intros i; simpl; [done|].
  destruct (rfind c s) as [j|] eqn:Hj.
  - intros [= <-]. destruct (IH j eq_refl) as [Hlt [t Ht]].
    split; [lia|]. exists t. exact Ht.
  - destruct (Ascii.eqb a c) eqn:Ha; [|done]. intros [= <-].
    apply Ascii.eqb_eq in Ha as ->. split; [lia|].
    exists s. simpl. by rewrite substring_0_all.
Qed.

(** The two parts [splitext] gives make up the path, and the extension is
    empty or starts with a dot. *)
Lemma splitext_spec (p : string) :
  (splitext p).1 +:+ (splitext p).2 = p
  ∧ ((splitext p).2 = "" ∨ ∃ t, (splitext p).2 = String "." t).
Proof.
  unfold splitext. destruct (rfind "." p) as [dot|] eqn:Hdot; simpl.
  - destruct (_ && _); simpl.
    + destruct (rfind_Some _ _ _ Hdot) as [Hlt [t Ht]]. split.
      * apply substring_split. lia.
      * right. eauto.
    + split; [apply string_app_nil_r|by left].
  - split; [apply string_app_nil_r|by left].
Qed.

Lemma string_app_inv_head (a b c : string) : a +:+ b = a +:+ c → b = c.
Proof.
  induction a as [|x a IH]; [done|]. rewrite !string_app_cons.
  intros [= H]. by apply IH.
Qed.

(** The alternate name is never the name asked for. *)
Lemma fallback_differs (output_file timestamp : string) :
  (splitext output_file).1 +:+ "_" +:+ timestamp +:+ ".csv" ≠ output_file.
Proof.
  destruct (splitext_spec output_file) as [Hp Hext]. intros Heq.
  rewrite <- Hp in Heq at 2. apply string_app_inv_head in Heq.
  destruct Hext as [Hnil|[t Ht]]; rewrite ?Hnil, ?Ht in Heq; done.
Qed.

(** A locked target and a free alternate path: the table goes to the
    alternate path. *)
Lemma safe_save_csv_locked_run (df : Table) (output_file : string) (w : World)
    (m : string) :
  write_fault w output_file = Some (PermissionError m) →
  write_fault w ((splitext output_file).1 +:+ "_" +:+ now w +:+ ".csv") = None →
  ∃ w', safe_save_csv df output_file w
        = (Ok ((splitext output_file).1 +:+ "_" +:+ now w +:+ ".csv"), w')
        ∧ outputs w'
          = <[(splitext output_file).1 +:+ "_" +:+ now w +:+ ".csv" := df]> (outputs w).
Proof.
  intros Hlock Hfb.
  unfold safe_save_csv, try_except, mbind, M_bind, to_csv, strftime.
  rewrite Hlock. cbn. rewrite Hfb. cbn. eauto.
Qed.

(** C7 as the specification states it fails: a write that fails for another
    reason than a lock ends the run. *)
Lemma safe_save_csv_aborts_on_missing_folder :
  let w := mkWorld ∅ ∅
             (λ p, if String.eqb p "out/monthly.csv"
                   then Some (FileNotFoundError "No such file or directory: 'out/monthly.csv'")
                   else None)
             ∅ "20240101-120000" [] in
  write_fault w "out/monthly.csv" ≠ None
  ∧ write_fault w "out/monthly_20240101-120000.csv" = None
  ∧ safe_save_csv (MonthlyTable []) "out/monthly.csv" w
    = (Raise (FileNotFoundError "No such file or directory: 'out/monthly.csv'"), w).
Proof. cbv zeta. split; [done|]. split; reflexivity. Qed.

(** C7, amended. The save returns the path asked for when the write
    succeeds. When the write raises a permission error (the file is open or
    locked) and the alternate path, named after the path and the time, can be
    written, the same table is written there and the alternate path is
    returned; it is never the path asked for. A write that fails otherwise,
    and a failure to write the alternate path, are raised to the caller. *)
Theorem safe_save_csv_fallback (df : Table) (output_file : string) (w : World) :
  let fallback_file := (splitext output_file).1 +:+ "_" +:+ now w +:+ ".csv" in
  fallback_file ≠ output_file ∧
  (write_fault w output_file = None →
     ∃ w', safe_save_csv df output_file w = (Ok output_file, w')
           ∧ outputs w' = <[output_file := df]> (outputs w)) ∧
  (∀ m, write_fault w output_file = Some (PermissionError m) →
     write_fault w fallback_file = None →
     ∃ w', safe_save_csv df output_file w = (Ok fallback_file, w')
           ∧ outputs w' = <[fallback_file := df]> (outputs w)) ∧
  (∀ e, write_fault w output_file = Some e → is_PermissionError e = false →
     safe_save_csv df output_file w = (Raise e, w)) ∧
  (∀ m e, write_fault w output_file = Some (PermissionError m) →
     write_fault w fallback_file = Some e →
     safe_save_csv df output_file w = (Raise e, w)).
Proof.
  cbv zeta. split; [apply fallback_differs|].
  unfold safe_save_csv, try_except, mbind, M_bind, to_csv, strftime.
  split; [|split; [|split]].
  - intros ->. cbn. eauto.
  - intros m -> Hfb. cbn. rewrite Hfb. cbn. eauto.
  - intros e -> He. by rewrite He.
  - intros m e -> Hfb. cbn. by rewrite Hfb.
Qed.

(** ** Wide tables *)

Lemma Qsum_filter_split {A} (f : A → Q) (P : A → Prop) `{∀ x, Decision (P x)}
    (l : list A) :
  (Qsum (f <$> l)
   == Qsum (f <$> filter P l) + Qsum (f <$> filter (λ x, ¬ P x) l))%Q.
Proof.
  induction l as [|x l IH]; csimpl; [ring|].
  rewrite !filter_cons. destruct (decide (P x)).
  - rewrite decide_False by tauto. csimpl. rewrite IH. ring.
  - rewrite decide_True by done. csimpl. rewrite IH. ring.
Qed.

(** Summing label by label is summing all, when every row has one of the
    labels and no label comes twice. *)
Lemma Qsum_by_label {A C} `{EqDecision C} (f : A → Q) (key : A → C)
    (cols : list C) (l : list A) :
  NoDup cols → (∀ r, r ∈ l → key r ∈ cols) →
  (Qsum ((λ c, Qsum (f <$> filter (λ r, key r = c) l)) <$> cols)
   == Qsum (f <$> l))%Q.
Proof.
  intros Hnd. revert l. induction Hnd as [|c cols Hc Hnd IH]; intros l Hl.
  - destruct l as [|r l]; [reflexivity|].
    exfalso. eapply not_elem_of_nil, (Hl r). by left.
  - csimpl. rewrite (Qsum_filter_split f (λ r, key r = c) l).
    apply Qplus_comp; [reflexivity|].
    rewrite <- (IH (filter (λ r, ¬ key r = c) l)).
    + erewrite list_fmap_ext; [reflexivity|].
      intros i c' Hc'. cbv beta. f_equal. f_equal.
      rewrite list_filter_filter. apply list_filter_iff. intros r.
      split; [|tauto]. intros ->. split; [done|]. intros ->.
      apply Hc. by eapply list_elem_of_lookup_2.
    + intros r [Hne Hr]%list_elem_of_filter.
      apply Hl, elem_of_cons in Hr as [Heq|Hin]; [by destruct Hne|done].
Qed.

Lemma nansum_cells (cols : list (list Q)) :
  (nansum (cell_sum <$> cols) == Qsum (Qsum <$> cols))%Q.
Proof.
  induction cols as [|[|r rows] cols IH]; csimpl.
  - reflexivity.
  - rewrite IH. ring.
  - rewrite IH. ring.
Qed.

Lemma Qsum_station_rows (F : Station → list (option Q)) (index : list Station)
    (s : Station) :
  NoDup index →
  (Qsum ((λ r : Station * list (option Q), nansum r.2)
           <$> filter (λ r : Station * list (option Q), r.1 = s)
                      ((λ s', (s', F s')) <$> index))
   == if decide (s ∈ index) then nansum (F s) else 0)%Q.
Proof.
  induction 1 as [|s' index Hs' Hnd IH].
  - case_decide as Hin; [by apply not_elem_of_nil in Hin|reflexivity].
  - rewrite fmap_cons, filter_cons. cbn [fst].
    destruct (decide (s' = s)) as [->|Hne].
    + rewrite fmap_cons. cbn [Qsum snd]. rewrite IH.
      rewrite (decide_False (P := s ∈ index)) by done.
      rewrite decide_True by (by left). ring.
    + rewrite IH. destruct (decide (s ∈ index)).
      * rewrite decide_True by (by right). reflexivity.
      * rewrite decide_False; [reflexivity|].
        intros [->|?]%elem_of_cons; done.
Qed.

(** The cells of the row of a station without a missing metadata cell sum to
    what the rows given for the station sum to. *)
Lemma pivot_table_row_sum {C} `{EqDecision C} (cleb : C → C → bool)
    (rows : list (Station * C * Q)) (s : Station) :
  station_has_na s = false →
  (Qsum ((λ r : Station * list (option Q), nansum r.2)
           <$> filter (λ r : Station * list (option Q), r.1 = s)
                      (pivot_table cleb rows).2)
   == Qsum (snd <$> filter (λ r : Station * C * Q, r.1.1 = s) rows))%Q.
Proof.
  intros Hs. unfold pivot_table. cbn [snd].
  set (data := filter (λ r : Station * C * Q, station_has_na r.1.1 = false) rows).
  set (cols := stable_sort cleb (remove_dups ((λ r : Station * C * Q, r.1.2) <$> data))).
  assert (filter (λ r : Station * C * Q, r.1.1 = s) rows
          = filter (λ r : Station * C * Q, r.1.1 = s) data) as ->.
  { unfold data. rewrite list_filter_filter. apply list_filter_iff.
    intros r. split; [|tauto]. intros ->. done. }
  rewrite Qsum_station_rows
    by apply stable_sort_NoDup, NoDup_remove_dups.
  assert (NoDup cols) as Hcols by apply stable_sort_NoDup, NoDup_remove_dups.
  assert (∀ r, r ∈ data → r.1.2 ∈ cols) as Hall.
  { intros r Hr. apply elem_of_stable_sort, elem_of_remove_dups.
    apply list_elem_of_fmap. eauto. }
  case_decide as Hin.
  - rewrite <- (Qsum_by_label snd (λ r : Station * C * Q, r.1.2) cols
                  (filter (λ r : Station * C * Q, r.1.1 = s) data)) ; [|done|].
    2:{ intros r [_ Hr]%list_elem_of_filter. by apply Hall. }
    erewrite (list_fmap_ext _
      (cell_sum ∘ (λ c, snd <$> filter (λ r : Station * C * Q, r.1.2 = c)
                          (filter (λ r : Station * C * Q, r.1.1 = s) data)))); cycle 1.
    { intros i c _. cbv beta. unfold compose. rewrite list_filter_filter.
      erewrite (list_filter_iff _ (λ r : Station * C * Q, r.1.2 = c ∧ r.1.1 = s));
        [reflexivity|]. intros r. tauto. }
    rewrite list_fmap_compose, nansum_cells.
    rewrite <- list_fmap_compose. reflexivity.
  - assert (filter (λ r : Station * C * Q, r.1.1 = s) data = []) as ->;
      [|reflexivity].
    apply elem_of_nil_inv. intros r [Hrs Hr]%list_elem_of_filter.
    apply Hin, elem_of_stable_sort, elem_of_remove_dups, list_elem_of_fmap.
    eauto.
Qed.

(** X1. For a station without a missing metadata cell, the cells of its row of
    the wide table sum to its monthly rainfall in the long table. *)
Lemma pivot_wide_station_sum (monthly_df : list Monthly.row) (s : Station) :
  station_has_na s = false →
  (wide_station_sum (pivot_wide monthly_df) s == long_station_sum monthly_df s)%Q.
Proof.
  intros Hs. unfold wide_station_sum, long_station_sum, pivot_wide.
  cbn [wide_rows]. rewrite pivot_table_row_sum by done.
  induction monthly_df as [|r t IH]; csimpl; [reflexivity|].
  rewrite !filter_cons. cbn [fst snd].
  destruct (decide (Monthly.Station r = s)); csimpl; by rewrite IH.
Qed.


(** ** landsat.py: lagged correlations *)

Section CorrelationProperties.

Variable pearsonr spearmanr kendalltau : list Q → list Q → Result landsat.Stat.
Variable series_corr : string → list Q → list Q → option Q.

Lemma lag_rows_spec (base : list landsat.Merged) (season_ : string)
    (lags : list Z) (rows : list landsat.CorrRow) :
  landsat.lag_rows pearsonr spearmanr kendalltau series_corr base season_ lags rows
  = rows ++ omap (lag_row pearsonr spearmanr kendalltau series_corr base season_) lags.
Proof.
  revert rows. induction lags as [|lag lags IH]; intros rows; csimpl.
  - by rewrite app_nil_r.
  - unfold lag_row at 1. cbv zeta.
    destruct (decide (length (landsat.lag_pairs base lag) < 3)%nat).
    + rewrite decide_False by lia. apply IH.
    + rewrite decide_True by lia. rewrite IH, <- app_assoc. done.
Qed.

Lemma omap_zip_seq {A B C} (f : nat → B) (g : A → B → option C)
    (pre l : list A) :
  omap (λ p : A * B, g p.1 p.2) (zip l (f <$> seq (length pre) (length l)))
  = omap (λ i, (pre ++ l) !! i ≫= λ r, g r (f i)) (seq (length pre) (length l)).
Proof.
  revert pre. induction l as [|x l IH]; intros pre; [done|].
  cbn [length seq fmap list_fmap zip zip_with omap list_omap fst snd].
  rewrite list_lookup_middle by done. cbn [mbind option_bind].
  specialize (IH (pre ++ [x])). rewrite length_app, <- app_assoc in IH.
  cbn [length app] in IH. rewrite Nat.add_1_r in IH. by rewrite IH.
Qed.

(** The pairs of a lag, row by row. *)
Lemma lag_pairs_spec (base : list landsat.Merged) (lag : Z) :
  landsat.lag_pairs base lag = omap (pair_at base lag) (seq 0 (length base)).
Proof.
  unfold landsat.lag_pairs, landsat.shift. rewrite length_fmap.
  rewrite (omap_zip_seq _ (λ (r : landsat.Merged) (o : option Q),
                             o ≫= λ v, Some (landsat.ndvi r, v)) [] base).
  apply list_omap_ext, Forall_Forall2_diag, Forall_forall. intros j _.
  unfold pair_at. cbn [app]. destruct (base !! j) as [r|]; [|done]. csimpl.
  replace (Z.of_nat j - lag * -1)%Z with (Z.of_nat j + lag)%Z by lia.
  destruct (decide (0 ≤ Z.of_nat j + lag)%Z); csimpl; [|done].
  rewrite list_lookup_fmap.
  destruct (base !! Z.to_nat (Z.of_nat j + lag)) as [r'|]; csimpl; [|done].
  by destruct (landsat.rain r').
Qed.

Lemma corr_leb_total (a b : landsat.CorrRow) :
  let leb := λ a b, not_gt (lex (String.compare (landsat.c_season a) (landsat.c_season b))
                                (Z.compare (landsat.lag_years a) (landsat.lag_years b))) in
  leb a b = true ∨ leb b a = true.
Proof.
  cbv beta zeta.
  rewrite (String.compare_antisym (landsat.c_season b) (landsat.c_season a)).
  rewrite (Z.compare_antisym (landsat.lag_years a) (landsat.lag_years b)).
  rewrite <- lex_opp. apply not_gt_total.
Qed.

Lemma elem_of_lag_rows (base : list landsat.Merged) (season_ : string)
    (lags : list Z) (row : landsat.CorrRow) :
  row ∈ omap (lag_row pearsonr spearmanr kendalltau series_corr base season_) lags →
  landsat.c_season row = season_
  ∧ landsat.lag_years row ∈ lags
  ∧ landsat.n row = length (landsat.lag_pairs base (landsat.lag_years row))
  ∧ (3 ≤ landsat.n row)%nat
  ∧ let stat := landsat.corr_with_p pearsonr spearmanr kendalltau series_corr
                  (landsat.lag_pairs base (landsat.lag_years row)).*1
                  (landsat.lag_pairs base (landsat.lag_years row)).*2 in
    (landsat.pearson_r row, landsat.pearson_p row) = landsat.pearson stat
    ∧ (landsat.spearman_r row, landsat.spearman_p row) = landsat.spearman stat
    ∧ (landsat.kendall_tau row, landsat.kendall_p row) = landsat.kendall stat.
Proof.
  intros (lag & Hlag & Hrow)%list_elem_of_omap. unfold lag_row in Hrow.
  cbv zeta in Hrow. case_decide as Hn; [|done]. injection Hrow as <-. cbn.
  repeat split; try done.
  - by destruct (landsat.pearson _).
  - by destruct (landsat.spearman _).
  - by destruct (landsat.kendall _).
Qed.

(** When some lag leaves 3 pairs or more, the result has, sorted by lag, one
    row for each lag that does, holding the number of pairs and the three
    statistics of the pairs, and no row for the other lags. *)
Lemma lagged_correlations_rows (df : list landsat.NdviRow)
    (rain_df : list landsat.RainRow) (season_ : string) (lags : list Z)
    (min_ndvi : option Q) :
  let base := landsat.prepare_merged df rain_df season_ min_ndvi in
  (∃ lag, lag ∈ lags ∧ (3 ≤ length (landsat.lag_pairs base lag))%nat) →
  ∃ out,
    landsat.lagged_correlations pearsonr spearmanr kendalltau series_corr
      df rain_df season_ lags min_ndvi = Ok out
    ∧ out ≡ₚ omap (lag_row pearsonr spearmanr kendalltau series_corr base season_) lags
    ∧ Sorted (λ a b, (landsat.lag_years a ≤ landsat.lag_years b)%Z) out.
Proof.
  intros base (lag & Hlag & Hn).
  unfold landsat.lagged_correlations. fold base. cbv zeta.
  rewrite lag_rows_spec. cbn [app].
  destruct (omap _ lags) as [|row rows] eqn:Hrows.
  { exfalso. assert (∃ row, lag_row pearsonr spearmanr kendalltau series_corr
                               base season_ lag = Some row) as [row Hrow].
    { unfold lag_row. cbv zeta. rewrite decide_True by done. eauto. }
    assert (row ∈ omap (lag_row pearsonr spearmanr kendalltau series_corr
                          base season_) lags) as Hin
      by (apply list_elem_of_omap; eauto).
    rewrite Hrows in Hin. by apply not_elem_of_nil in Hin. }
  unfold landsat.sort_values_season_lag. eexists. split; [done|].
  split; [apply stable_sort_perm|].
  eapply Sorted_impl_elem;
    [|apply stable_sort_Sorted; intros a b; apply corr_leb_total].
  intros a b Ha Hb. apply elem_of_stable_sort in Ha, Hb.
  rewrite <- Hrows in Ha, Hb.
  apply elem_of_lag_rows in Ha as [-> _], Hb as [-> _].
  rewrite string_compare_refl. cbn [lex].
  destruct (Z.compare_spec (landsat.lag_years a) (landsat.lag_years b));
    simpl; intros; lia.
Qed.

(** When every lag leaves fewer than 3 pairs, the call does not return a
    table: sorting the frame made of no row raises. *)
Lemma lagged_correlations_all_skipped (df : list landsat.NdviRow)
    (rain_df : list landsat.RainRow) (season_ : string) (lags : list Z)
    (min_ndvi : option Q) :
  let base := landsat.prepare_merged df rain_df season_ min_ndvi in
  (∀ lag, lag ∈ lags → (length (landsat.lag_pairs base lag) < 3)%nat) →
  landsat.lagged_correlations pearsonr spearmanr kendalltau series_corr
    df rain_df season_ lags min_ndvi = Raise (KeyError "'season'").
Proof.
  intros base Hall.
  unfold landsat.lagged_correlations. fold base. cbv zeta.
  rewrite lag_rows_spec. cbn [app].
  assert (omap (lag_row pearsonr spearmanr kendalltau series_corr base season_)
               lags = []) as ->; [|done].
  apply elem_of_nil_inv. intros row (lag & Hlag & Hrow)%list_elem_of_omap.
  unfold lag_row in Hrow. cbv zeta in Hrow.
  specialize (Hall lag Hlag). case_decide; [lia|done].
Qed.

(** C8. With two summers of NDVI and two years of rain, every lag of the
    default set leaves fewer than 3 pairs; the call raises, where the
    specification has it leave the lags out and return. *)
Theorem lagged_correlations_raises_when_no_lag_has_3_pairs :
  (∀ lag, lag ∈ landsat.default_lags →
     (length (landsat.lag_pairs
                (landsat.prepare_merged examples.ndvi_two_years
                   examples.rain_two_years "SUMMER" landsat.default_min_ndvi)
                lag) < 3)%nat)
  ∧ landsat.lagged_correlations pearsonr spearmanr kendalltau series_corr
      examples.ndvi_two_years examples.rain_two_years "SUMMER"
      landsat.default_lags landsat.default_min_ndvi
    = Raise (KeyError "'season'").
Proof.
  assert (∀ lag, lag ∈ landsat.default_lags →
     (length (landsat.lag_pairs
                (landsat.prepare_merged examples.ndvi_two_years
                   examples.rain_two_years "SUMMER" landsat.default_min_ndvi)
                lag) < 3)%nat)
    as Hall.
  { intros lag Hlag. repeat (apply elem_of_cons in Hlag as [->|Hlag]);
      [vm_compute; lia..|by apply not_elem_of_nil in Hlag]. }
  split; [exact Hall|]. by apply lagged_correlations_all_skipped.
Qed.

End CorrelationProperties.

(** A positive lag pairs a year with a later year, a negative one with an
    earlier year, when the merged table holds each year once; it does when
    the rainfall table does. *)

Lemma drop_duplicates_last_sublist {A} (key : A → Z) (l : list A) :
  landsat.drop_duplicates_last key l `sublist_of` l.
Proof.
  induction l as [|x l IH]; simpl; [done|].
  case_decide; [by apply sublist_cons | by apply sublist_skip].
Qed.

Lemma drop_duplicates_last_NoDup {A} (key : A → Z) (l : list A) :
  NoDup (key <$> landsat.drop_duplicates_last key l).
Proof.
  induction l as [|x l IH]; simpl; [constructor|].
  case_decide as Hin; [done|]. csimpl. constructor; [|done].
  intros Hx. apply Hin. eapply elem_of_sublist; [exact Hx|].
  apply fmap_sublist, drop_duplicates_last_sublist.
Qed.

Lemma build_series_NoDup (df : list landsat.NdviRow) (season_ : string)
    (start_year : Z) (min_ndvi : Q) :
  NoDup (fst <$> landsat.build_series df season_ start_year min_ndvi).
Proof.
  unfold landsat.build_series.
  eapply sublist_NoDup; [apply (drop_duplicates_last_NoDup (@fst Z Q))|].
  apply fmap_sublist. etransitivity; apply sublist_filter.
Qed.

Lemma merge_inner_years (left : list (Z * Q)) (right : list landsat.RainRow) :
  NoDup (landsat.rain_year <$> right) →
  landsat.m_year <$> landsat.merge_inner left right `sublist_of` fst <$> left.
Proof.
  intros Hnd. unfold landsat.merge_inner.
  induction left as [|[y v] left IH]; [done|].
  rewrite bind_cons, fmap_app, fmap_cons. cbn [fst snd].
  apply (sublist_app _ [y] _ (fst <$> left)); [|exact IH].
  clear IH. induction right as [|r right IH]; [apply sublist_nil_l|].
  apply NoDup_cons in Hnd as [Hr Hnd]. rewrite filter_cons.
  destruct (decide (landsat.rain_year r = y)) as [Hy|Hy].
  - assert (filter (λ r0, landsat.rain_year r0 = y) right = []) as ->.
    { apply elem_of_nil_inv. intros r' [Hy' Hr']%list_elem_of_filter.
      apply Hr. rewrite Hy, <- Hy'. apply list_elem_of_fmap. eauto. }
    done.
  - by apply IH.
Qed.

Lemma Sorted_le_NoDup_lt {A} (f : A → Z) (l : list A) :
  Sorted (λ a b, (f a ≤ f b)%Z) l → NoDup (f <$> l) →
  StronglySorted (λ a b, (f a < f b)%Z) l.
Proof.
  intros Hs%Sorted_StronglySorted; [|intros a b c; lia].
  induction Hs as [|x l Hs IH Hall]; intros Hnd; [constructor|].
  apply NoDup_cons in Hnd as [Hx Hnd]. constructor; [by apply IH|].
  rewrite Forall_forall in Hall |- *. intros y Hy.
  assert (f x ≠ f y) by (intros Heq; apply Hx; rewrite Heq; by apply list_elem_of_fmap_2).
  specialize (Hall y Hy). lia.
Qed.

Lemma prepare_merged_years (df : list landsat.NdviRow)
    (rain_df : list landsat.RainRow) (season_ : string) (min_ndvi : option Q) :
  NoDup (landsat.rain_year <$> rain_df) →
  StronglySorted (λ a b, (landsat.m_year a < landsat.m_year b)%Z)
    (landsat.prepare_merged df rain_df season_ min_ndvi).
Proof.
  intros Hnd. unfold landsat.prepare_merged. apply Sorted_le_NoDup_lt.
  - eapply Sorted_impl_elem; [|apply stable_sort_Sorted].
    + intros a b _ _. cbv beta. apply Z.leb_le.
    + intros a b. cbv beta. rewrite !Z.leb_le. lia.
  - rewrite stable_sort_perm.
    eapply sublist_NoDup; [|by apply merge_inner_years].
    destruct min_ndvi as [m|]; [|apply build_series_NoDup].
    eapply sublist_NoDup; [apply build_series_NoDup|].
    apply fmap_sublist, sublist_filter.
Qed.

Lemma StronglySorted_lookup_lt {A} (R : A → A → Prop) (l : list A) (i j : nat)
    (x y : A) :
  StronglySorted R l → l !! i = Some x → l !! j = Some y → (i < j)%nat → R x y.
Proof.
  intros Hs. revert i j. induction Hs as [|z l Hs IH Hall]; intros i j Hi Hj Hlt.
  - done.
  - destruct i as [|i], j as [|j]; try lia; simpl in *.
    + injection Hi as ->. rewrite Forall_forall in Hall.
      by eapply Hall, list_elem_of_lookup_2.
    + eapply IH; [done..|lia].
Qed.

(** X16. Each pair of a lag is the NDVI of a year with the rain of a year that is
    later for a positive lag, earlier for a negative one, the same for 0. *)
Lemma lag_pairs_years (df : list landsat.NdviRow) (rain_df : list landsat.RainRow)
    (season_ : string) (min_ndvi : option Q) (lag : Z) (p : Q * Q) :
  let base := landsat.prepare_merged df rain_df season_ min_ndvi in
  NoDup (landsat.rain_year <$> rain_df) →
  p ∈ landsat.lag_pairs base lag →
  ∃ r r', r ∈ base ∧ r' ∈ base
    ∧ p = (landsat.ndvi r, default 0%Q (landsat.rain r'))
    ∧ is_Some (landsat.rain r')
    ∧ ((0 < lag)%Z → (landsat.m_year r < landsat.m_year r')%Z)
    ∧ ((lag < 0)%Z → (landsat.m_year r' < landsat.m_year r)%Z)
    ∧ (lag = 0%Z → r' = r).
Proof.
  intros base Hnd. rewrite lag_pairs_spec.
  intros (i & Hi & Hp)%list_elem_of_omap. unfold pair_at in Hp.
  destruct (base !! i) as [r|] eqn:Hr; [|done]. csimpl in Hp.
  case_decide as Hpos; [|done].
  destruct (base !! Z.to_nat (Z.of_nat i + lag)) as [r'|] eqn:Hr'; [|done].
  csimpl in Hp. destruct (landsat.rain r') as [v|] eqn:Hv; [|done].
  injection Hp as <-. exists r, r'.
  pose proof (prepare_merged_years df rain_df season_ min_ndvi Hnd) as Hs.
  fold base in Hs.
  split; [by eapply list_elem_of_lookup_2|].
  split; [by eapply list_elem_of_lookup_2|].
  rewrite Hv. split; [done|]. split; [eauto|]. split; [|split].
  - intros Hlag.
    apply (StronglySorted_lookup_lt _ base i (Z.to_nat (Z.of_nat i + lag)) r r' Hs);
      [done..|lia].
  - intros Hlag.
    apply (StronglySorted_lookup_lt _ base (Z.to_nat (Z.of_nat i + lag)) i r' r Hs);
      [done..|lia].
  - intros ->. rewrite Z.add_0_r, Nat2Z.id in Hr'. congruence.
Qed.

(** ** run.py: one table, two summaries *)

Lemma bind_inv {A B} (m : M A) (k : A → M B) (w w' : World) (b : B) :
  (m ≫= k) w = (Ok b, w') → ∃ a w1, m w = (Ok a, w1) ∧ k a w1 = (Ok b, w').
Proof.
  unfold mbind, M_bind. destruct (m w) as [[a|e] w1]; [eauto|done].
Qed.

(** Saving leaves the dataframe objects as they are. *)
Lemma safe_save_csv_heap (df : Table) (output_file : string) (w w' : World)
    (r : Result string) :
  safe_save_csv df output_file w = (r, w') → heap w' = heap w.
Proof.
  unfold safe_save_csv, try_except, mbind, M_bind, to_csv, strftime, print.
  destruct (write_fault w output_file) as [e|]; cbn.
  - destruct (is_PermissionError e); [|by intros [= _ <-]]. cbn.
    destruct (write_fault w _); cbn; by intros [= _ <-].
  - by intros [= _ <-].
Qed.

Section RunProperties.

Variable to_datetime : string → string → option Timestamp.
Variable to_numeric : string → option Q.

(** When the script runs to its end, the table it loaded has a row, and
    three columns have been written to it, YearMonth by the monthly summary,
    then Year and Month by the annual one, which was made from the table the
    monthly summary had already written to. *)
Lemma script_shares_the_table (w w' : World) (monthly : list Monthly.row)
    (annual : list Annual.row) :
  run.script to_datetime to_numeric w = (Ok (monthly, annual), w') →
  ∃ df d,
    heap w !! df = None ∧ heap w' !! df = Some d
    ∧ records d ≠ []
    ∧ (assigned d).*1 = ["YearMonth"; "Year"; "Month"]
    ∧ monthly = monthly_table (zip (records d) (to_period ∘ date <$> records d))
                  default_missing_threshold
    ∧ annual = annual_table (zip (records d) (year ∘ date <$> records d))
                 default_missing_threshold default_min_months.
Proof.
  unfold run.script.
  intros (df & w1 & Hload & H1)%bind_inv.
  apply bind_inv in H1 as (m & w2 & Hm & H2).
  apply bind_inv in H2 as (p1 & w3 & Hs1 & H3).
  apply bind_inv in H3 as (p2 & w4 & Hs2 & H4).
  apply bind_inv in H4 as (a & w5 & Ha & H5).
  apply bind_inv in H5 as (p3 & w6 & Hs3 & H6).
  apply bind_inv in H6 as (p4 & w7 & Hs4 & [= <- <- <-]).
  apply safe_save_csv_heap in Hs1, Hs2, Hs3, Hs4.
  destruct (glob_run (path_join run.INPUT_DIR "*.csv") w) as [files Hglob].
  rewrite (load_folder_run to_datetime to_numeric _ _ _ _ Hglob) in Hload.
  case_decide; [done|]. cbv zeta in Hload. case_decide; [done|].
  unfold new_frame in Hload. cbv zeta in Hload. injection Hload as <- <-.
  cbn [emit heap] in Hm. set (df := fresh (dom (heap w))) in *.
  assert (heap w !! df = None) as Hfresh by apply not_elem_of_dom, is_fresh.
  match type of Hm with summarize_monthly _ _ ?w1 = _ =>
    assert (heap w1 !! df
            = Some (mkFrame (concat (valid_frames to_datetime to_numeric w
                                       run.DATE_FMT files)) [])) as Hframe
      by apply lookup_insert_eq
  end.
  rewrite (summarize_monthly_run _ _ _ _ Hframe) in Hm.
  injection Hm as <- <-.
  assert (heap w4 !! df = Some (setitem "YearMonth"
            (PeriodColumn (to_period ∘ date <$> concat
               (valid_frames to_datetime to_numeric w run.DATE_FMT files)))
            (mkFrame (concat (valid_frames to_datetime to_numeric w
                                run.DATE_FMT files)) []))) as Hframe2.
  { rewrite Hs2, Hs1. cbn [heap]. apply lookup_insert_eq. }
  destruct (decide (concat (valid_frames to_datetime to_numeric w
                              run.DATE_FMT files) = [])) as [Hnil|Hrecs].
  { by rewrite (summarize_annual_no_rows _ _ _ _ _ Hframe2 Hnil) in Ha. }
  rewrite (summarize_annual_run _ _ _ _ _ Hframe2 Hrecs) in Ha.
  injection Ha as <- <-.
  eexists df, _. split; [done|]. split.
  { rewrite Hs4, Hs3. cbn [heap]. apply lookup_insert_eq. }
  split; [exact Hrecs|]. split; [reflexivity|]. split; reflexivity.
Qed.

End RunProperties.

(** ** The properties on the sample data *)

Lemma incomplete_flag_strict_witness :
  heap examples.world !! 0%nat = Some examples.frame ∧
  (∃ out w', summarize_monthly 0%nat (2 # 10) examples.world = (Ok out, w') ∧
     ∀ row, row ∈ out →
       Monthly.PctMissing row
       = round3 (inject_Z (Z.of_nat (Monthly.MissingCount row))
                 / inject_Z (Z.of_nat (Monthly.DaysCount row))) ∧
       (Monthly.IncompleteMonth row = true ↔ ((2 # 10) < Monthly.PctMissing row)%Q) ∧
       ((Monthly.PctMissing row == (2 # 10))%Q → Monthly.IncompleteMonth row = false)) ∧
  records examples.frame ≠ [] ∧
  (∃ out w', summarize_annual 0%nat (2 # 10) 10 examples.world = (Ok out, w') ∧
     ∀ row, row ∈ out →
       Annual.PctMissing row
       = round3 (inject_Z (Z.of_nat (Annual.MissingCount row))
                 / inject_Z (Z.of_nat (Annual.DaysCount row))) ∧
       (Annual.IncompleteYear row = true ↔ ((2 # 10) < Annual.PctMissing row)%Q) ∧
       ((Annual.PctMissing row == (2 # 10))%Q → Annual.IncompleteYear row = false)).
Proof.
  split; [reflexivity|].
  destruct (incomplete_flag_strict examples.world 0%nat examples.frame (2 # 10) 10
              eq_refl) as [Hmonthly Hannual].
  split; [exact Hmonthly|]. split; [done|]. by apply Hannual.
Defined.

Lemma monthly_summary_aggregates_witness :
  heap examples.world !! 0%nat = Some examples.frame ∧
  ∃ out w', summarize_monthly 0%nat (2 # 10) examples.world = (Ok out, w') ∧
    (∀ r, r ∈ records examples.frame →
       ∃ row, row ∈ out ∧ Monthly.Station row = station r
              ∧ Monthly.YearMonth row = period_str (to_period (date r))) ∧
    (∀ row, row ∈ out →
       ∃ p, Monthly.YearMonth row = period_str p ∧
         let g := month_group (records examples.frame) (Monthly.Station row) p in
         g ≠ [] ∧
         Monthly.MonthlyRainfall row = Qsum (present_rain g) ∧
         Monthly.DaysCount row = length g ∧
         Monthly.MissingCount row = length (missing_rows g) ∧
         Monthly.PctMissing row
         = round3 (inject_Z (Z.of_nat (length (missing_rows g)))
                   / inject_Z (Z.of_nat (length g)))).
Proof.
  split; [reflexivity|].
  apply (monthly_summary_aggregates examples.world 0%nat examples.frame (2 # 10)).
  reflexivity.
Defined.

Lemma insufficient_months_flag_witness :
  heap examples.world !! 0%nat = Some examples.frame ∧
  records examples.frame ≠ [] ∧
  ∃ out w', summarize_annual 0%nat (2 # 10) 10 examples.world = (Ok out, w') ∧
    ∀ row, row ∈ out →
      let g := year_group (records examples.frame) (Annual.Station row)
                 (Annual.Year row) in
      let observed := length (distinct_months g) in
      Annual.MonthsObserved row = observed ∧
      (Annual.InsufficientMonths row = true ↔ (Z.of_nat observed < 10)%Z) ∧
      (Z.of_nat observed = 10%Z → Annual.InsufficientMonths row = false) ∧
      (Annual.Flagged row = true
       ↔ Annual.IncompleteYear row = true ∨ Annual.InsufficientMonths row = true).
Proof.
  split; [reflexivity|]. split; [done|].
  apply (insufficient_months_flag examples.world 0%nat examples.frame (2 # 10) 10);
    [reflexivity|done].
Defined.


Lemma summaries_mutate_input_witness :
  heap examples.world !! 0%nat = Some examples.frame ∧
  (∃ out w' d', summarize_monthly 0%nat (2 # 10) examples.world = (Ok out, w') ∧
     heap w' !! 0%nat = Some d' ∧
     records d' = records examples.frame ∧
     column "YearMonth" (assigned d')
     = Some (PeriodColumn (to_period ∘ date <$> records examples.frame)) ∧
     (∀ c, c ≠ "YearMonth" →
           column c (assigned d') = column c (assigned examples.frame)) ∧
     (∀ file_columns,
        columns file_columns d'
        = add_column (columns file_columns examples.frame) "YearMonth" ∧
        ("YearMonth" ∈ columns file_columns examples.frame →
         columns file_columns d' = columns file_columns examples.frame) ∧
        ("YearMonth" ∉ columns file_columns examples.frame →
         columns file_columns d'
         = columns file_columns examples.frame ++ ["YearMonth"]
         ∧ d' ≠ examples.frame)) ∧
     (∀ l, l ≠ 0%nat → heap w' !! l = heap examples.world !! l)) ∧
  (∃ r w' d', summarize_annual 0%nat (2 # 10) 10 examples.world = (r, w') ∧
     (records examples.frame ≠ [] → ∃ out, r = Ok out) ∧
     (records examples.frame = [] → ∃ msg, r = Raise (TypeError msg)) ∧
     heap w' !! 0%nat = Some d' ∧
     records d' = records examples.frame ∧
     column "Year" (assigned d')
     = Some (IntColumn (year ∘ date <$> records examples.frame)) ∧
     column "Month" (assigned d')
     = Some (IntColumn (month ∘ date <$> records examples.frame)) ∧
     (∀ c, c ≠ "Year" → c ≠ "Month" →
           column c (assigned d') = column c (assigned examples.frame)) ∧
     (∀ file_columns,
        columns file_columns d'
        = add_column (add_column (columns file_columns examples.frame) "Year")
                     "Month" ∧
        ("Year" ∈ columns file_columns examples.frame →
         "Month" ∈ columns file_columns examples.frame →
         columns file_columns d' = columns file_columns examples.frame) ∧
        ("Year" ∉ columns file_columns examples.frame →
         "Month" ∉ columns file_columns examples.frame →
         columns file_columns d'
         = columns file_columns examples.frame ++ ["Year"; "Month"]
         ∧ d' ≠ examples.frame)) ∧
     (∀ l, l ≠ 0%nat → heap w' !! l = heap examples.world !! l)).
Proof.
  split; [reflexivity|].
  apply (summaries_mutate_input examples.world 0%nat examples.frame (2 # 10) 10).
  reflexivity.
Defined.

Lemma read_and_validate_rows_witness :
  disk examples.world !! "stations/clara.csv"
  = Some (Parsed REQUIRED_COLS
            [ mkRaw examples.clara "2020-01-01" "3";
              mkRaw examples.clara "01/02/2020" "4";
              mkRaw examples.clara "2020-01-03" "n/a" ]) ∧
  (∀ c, c ∈ REQUIRED_COLS → c ∈ REQUIRED_COLS) ∧
  read_and_validate_csv examples.iso_datetime examples.whole_number
    "stations/clara.csv" "%Y-%m-%d" examples.world
  = (Ok [ mkDaily examples.clara (mkDate 2020 1 1) (Some 3%Q);
          mkDaily examples.clara (mkDate 2020 1 3) None ], examples.world).
Proof.
  assert (disk examples.world !! "stations/clara.csv"
          = Some (Parsed REQUIRED_COLS
                    [ mkRaw examples.clara "2020-01-01" "3";
                      mkRaw examples.clara "01/02/2020" "4";
                      mkRaw examples.clara "2020-01-03" "n/a" ])) as Hf
    by reflexivity.
  split; [exact Hf|]. split; [by intros c Hc|].
  destruct (read_and_validate_rows examples.iso_datetime examples.whole_number
              examples.world "stations/clara.csv" "%Y-%m-%d" _ _ Hf
              (λ c Hc, Hc)) as (out & Hrun & Hout & _).
  rewrite Hrun, Hout. reflexivity.
Defined.

(** ** Worked examples *)

(** The monthly table of the sample records: Clara's December and January,
    the latter with one missing day of three, then Abbeyleix's February. *)
Example monthly_table_of_sample :
  (λ r, (Station_Number (Monthly.Station r), Monthly.YearMonth r,
         Monthly.DaysCount r, Monthly.MissingCount r, Monthly.IncompleteMonth r))
    <$> examples.monthly
  = [ (Some 1519, "2019-12", 1%nat, 0%nat, false);
      (Some 1519, "2020-01", 3%nat, 1%nat, true);
      (Some 4415, "2020-02", 1%nat, 0%nat, false) ].
Proof. reflexivity. Qed.

(** The annual table of the sample records flags every year: no year has
    records in 10 months. *)
Example annual_table_of_sample :
  (λ r, (Station_Number (Annual.Station r), Annual.Year r,
         Annual.MonthsObserved r, Annual.InsufficientMonths r, Annual.Flagged r))
    <$> annual_table (zip examples.daily (year ∘ date <$> examples.daily))
          default_missing_threshold default_min_months
  = [ (Some 1519, 2019, 1%nat, true, true);
      (Some 1519, 2020, 1%nat, true, true);
      (Some 4415, 2020, 1%nat, true, true) ].
Proof. reflexivity. Qed.

(** Loading the sample folder: one file is read, the row with the date that
    does not parse dropped; the file without a rain column is skipped. *)
Example load_folder_of_sample :
  let r := load_folder examples.iso_datetime examples.whole_number
             "stations" "%Y-%m-%d" examples.world in
  r.1 = Ok 1%nat
  ∧ stdout r.2 = [ "Loaded: clara.csv  (rows=2)";
                   "Skipping abbeyleix.csv: Missing columns: ['rain']" ]
  ∧ heap r.2 !! 1%nat
    = Some (mkFrame [ mkDaily examples.clara (mkDate 2020 1 1) (Some 3%Q);
                      mkDaily examples.clara (mkDate 2020 1 3) None ] []).
Proof. cbv zeta. repeat split; vm_compute; reflexivity. Qed.

(** A folder without a CSV file, and a folder whose only CSV file lacks a
    column. *)
Example load_folder_failures :
  (load_folder examples.iso_datetime examples.whole_number
     "elsewhere" "%Y-%m-%d" examples.world).1
  = Raise (FileNotFoundError "No CSV files found in the folder.")
  ∧ (load_folder examples.iso_datetime examples.whole_number "stations" "%Y-%m-%d"
       (mkWorld ∅ {[ "stations/abbeyleix.csv" := examples.abbeyleix_csv ]}
                (λ _, None) ∅ "20240101-120000" [])).1
    = Raise (RuntimeError "No valid CSVs after validation.").
Proof. split; vm_compute; reflexivity. Qed.

(** Saving to the locked path of the sample state goes to the alternate
    name. *)
Example safe_save_csv_of_sample :
  let r := safe_save_csv (MonthlyTable examples.monthly) "out/monthly.csv"
             examples.world in
  r.1 = Ok "out/monthly_20240101-120000.csv"
  ∧ outputs r.2 !! "out/monthly_20240101-120000.csv"
    = Some (MonthlyTable examples.monthly)
  ∧ outputs r.2 !! "out/monthly.csv" = None.
Proof.
  destruct (safe_save_csv_locked_run (MonthlyTable examples.monthly)
              "out/monthly.csv" examples.world
              "Permission denied: 'out/monthly.csv'" eq_refl eq_refl)
    as (w' & Hrun & Hout).
  cbv zeta. rewrite Hrun. cbn [fst snd]. rewrite Hout.
  split; [reflexivity|]. split; [apply lookup_insert_eq|].
  rewrite lookup_insert_ne by done. reflexivity.
Qed.

Example splitext_examples :
  splitext "out/monthly.csv" = ("out/monthly", ".csv")
  ∧ splitext "out.d/monthly" = ("out.d/monthly", "")
  ∧ splitext "out/.hidden" = ("out/.hidden", "")
  ∧ splitext "archive.tar.gz" = ("archive.tar", ".gz").
Proof. repeat split; reflexivity. Qed.

(** The merged table of the second sample has no row for 2001, a year
    without NDVI: lag 1 pairs the NDVI of 2000 with the rain of 2002. *)
Example lag_pairs_of_sample :
  let base := landsat.prepare_merged examples.ndvi_years examples.rain_years
                "summer" landsat.default_min_ndvi in
  landsat.m_year <$> base = [1999; 2000; 2002; 2003; 2004]%Z
  ∧ landsat.lag_pairs base 1
    = [ ((5 # 10)%Q, 900%Q); ((6 # 10)%Q, 1100%Q);
        ((7 # 10)%Q, 950%Q); ((6 # 10)%Q, 1200%Q) ]
  ∧ length (landsat.lag_pairs base 3) = 2%nat.
Proof. cbv zeta. repeat split; vm_compute; reflexivity. Qed.

(** * Part III: further properties of the code *)

(** ** The shape and the cells of the wide tables *)

Lemma Station_compare_opp (a b : Station) :
  Station_compare b a = CompOpp (Station_compare a b).
Proof.
  unfold Station_compare. rewrite !lex_opp.
  repeat f_equal; apply cmp_na_opp; intros x y;
    first [apply Z.compare_antisym | apply String.compare_antisym].
Qed.

Lemma Station_leb_total (a b : Station) :
  not_gt (Station_compare a b) = true ∨ not_gt (Station_compare b a) = true.
Proof. rewrite (Station_compare_opp a b). apply not_gt_total. Qed.

Section PivotTable.

Context {C : Type} `{EqDecision C} (cleb : C → C → bool).

Lemma pivot_table_columns (rows : list (Station * C * Q)) (c : C) :
  c ∈ (pivot_table cleb rows).1
  ↔ ∃ r, r ∈ rows ∧ station_has_na r.1.1 = false ∧ r.1.2 = c.
Proof.
  unfold pivot_table. cbn [fst].
  rewrite elem_of_stable_sort, elem_of_remove_dups, list_elem_of_fmap.
  split.
  - intros (r & -> & [Hna Hr]%list_elem_of_filter). eauto.
  - intros (r & Hr & Hna & <-). exists r. split; [done|].
    by apply list_elem_of_filter.
Qed.

Lemma pivot_table_columns_NoDup (rows : list (Station * C * Q)) :
  NoDup (pivot_table cleb rows).1.
Proof. apply stable_sort_NoDup, NoDup_remove_dups. Qed.

Lemma pivot_table_index_eq (rows : list (Station * C * Q)) :
  (pivot_table cleb rows).2.*1
  = stable_sort (λ a b, not_gt (Station_compare a b))
      (remove_dups ((λ r : Station * C * Q, r.1.1)
         <$> filter (λ r : Station * C * Q, station_has_na r.1.1 = false) rows)).
Proof.
  unfold pivot_table. cbn [snd]. rewrite <- list_fmap_compose.
  apply list_fmap_id.
Qed.

Lemma pivot_table_index (rows : list (Station * C * Q)) (s : Station) :
  s ∈ (pivot_table cleb rows).2.*1
  ↔ station_has_na s = false ∧ ∃ r, r ∈ rows ∧ r.1.1 = s.
Proof.
  rewrite pivot_table_index_eq.
  rewrite elem_of_stable_sort, elem_of_remove_dups, list_elem_of_fmap.
  split.
  - intros (r & -> & [Hna Hr]%list_elem_of_filter). eauto.
  - intros (Hna & r & Hr & <-). exists r. split; [done|].
    by apply list_elem_of_filter.
Qed.

Lemma pivot_table_index_NoDup (rows : list (Station * C * Q)) :
  NoDup (pivot_table cleb rows).2.*1.
Proof.
  rewrite pivot_table_index_eq. apply stable_sort_NoDup, NoDup_remove_dups.
Qed.

Lemma pivot_table_index_Sorted (rows : list (Station * C * Q)) :
  Sorted (λ a b, not_gt (Station_compare a b) = true) (pivot_table cleb rows).2.*1.
Proof.
  rewrite pivot_table_index_eq.
  apply (stable_sort_Sorted (λ a b, not_gt (Station_compare a b))).
  apply Station_leb_total.
Qed.

Lemma pivot_table_cells (rows : list (Station * C * Q)) (s : Station)
    (cells : list (option Q)) :
  (s, cells) ∈ (pivot_table cleb rows).2 →
  cells = (λ c, cell_sum (snd <$> filter (λ r : Station * C * Q,
                                            r.1.1 = s ∧ r.1.2 = c) rows))
            <$> (pivot_table cleb rows).1.
Proof.
  intros Hin.
  assert (station_has_na s = false) as Hna.
  { apply (pivot_table_index rows s), list_elem_of_fmap.
    by exists (s, cells). }
  revert Hin. unfold pivot_table. cbn [fst snd].
  intros (s' & Heq & _)%list_elem_of_fmap.
  pose proof (f_equal fst Heq) as Hs. cbn [fst] in Hs. subst s'.
  pose proof (f_equal snd Heq) as Hc. cbn [snd] in Hc. subst cells.
  apply list_fmap_ext. intros _ c _. f_equal. f_equal.
  rewrite list_filter_filter. apply list_filter_iff.
  intros r. split; [tauto|]. intros [<- Hc]. done.
Qed.

End PivotTable.

Lemma filter_station_label {A C} `{EqDecision C} (f : A → Station) (h : A → C)
    (g : A → Q) (s : Station) (c : C) (l : list A) :
  snd <$> filter (λ r : Station * C * Q, r.1.1 = s ∧ r.1.2 = c)
                 ((λ x, (f x, h x, g x)) <$> l)
  = g <$> filter (λ x, f x = s ∧ h x = c) l.
Proof.
  induction l as [|x l IH]; [done|].
  csimpl. rewrite !filter_cons. cbn [fst snd].
  destruct (decide (f x = s ∧ h x = c)); csimpl; by rewrite IH.
Qed.

(** X2. The wide monthly table made from any long table: its rows are the
    stations of the long rows without a missing metadata cell, each once, in
    the order of the metadata; its columns are the month texts of those rows,
    each once, in the order of the texts; and a cell holds the sum of the
    monthly rainfall of the long rows of its station and month, or nothing
    when there is no such row. *)
Theorem pivot_wide_rows_columns_cells (monthly_df : list Monthly.row) :
  let w := pivot_wide monthly_df in
  let complete :=
    filter (λ r, station_has_na (Monthly.Station r) = false) monthly_df in
  (∀ s, s ∈ (wide_rows w).*1 ↔ s ∈ Monthly.Station <$> complete) ∧
  NoDup (wide_rows w).*1 ∧
  Sorted (λ a b, Station_compare a b ≠ Gt) (wide_rows w).*1 ∧
  (∀ c, c ∈ period_columns w ↔ c ∈ Monthly.YearMonth <$> complete) ∧
  NoDup (period_columns w) ∧
  Sorted (λ a b, String.compare a b ≠ Gt) (period_columns w) ∧
  (∀ s cells, (s, cells) ∈ wide_rows w →
     cells = (λ c, cell_sum (Monthly.MonthlyRainfall
                               <$> filter (λ r, Monthly.Station r = s
                                                ∧ Monthly.YearMonth r = c)
                                          monthly_df))
               <$> period_columns w).
Proof.
  intros w complete. subst w. unfold pivot_wide. cbn [wide_rows period_columns].
  set (rows := (λ r, (Monthly.Station r, Monthly.YearMonth r,
                      Monthly.MonthlyRainfall r)) <$> monthly_df).
  split_and!.
  - intros s. rewrite pivot_table_index, list_elem_of_fmap. split.
    + intros (Hna & r & (x & -> & Hx)%list_elem_of_fmap & <-).
      exists x. split; [done|]. by apply list_elem_of_filter.
    + intros (x & -> & [Hna Hx]%list_elem_of_filter). split; [done|].
      exists (Monthly.Station x, Monthly.YearMonth x, Monthly.MonthlyRainfall x).
      split; [|done]. apply list_elem_of_fmap. eauto.
  - apply pivot_table_index_NoDup.
  - eapply Sorted_impl_elem, pivot_table_index_Sorted.
    intros a b _ _. cbv beta. by destruct (Station_compare a b).
  - intros c. rewrite pivot_table_columns, list_elem_of_fmap. split.
    + intros (r & (x & -> & Hx)%list_elem_of_fmap & Hna & <-).
      exists x. split; [done|]. by apply list_elem_of_filter.
    + intros (x & -> & [Hna Hx]%list_elem_of_filter).
      exists (Monthly.Station x, Monthly.YearMonth x, Monthly.MonthlyRainfall x).
      split; [|done]. apply list_elem_of_fmap. eauto.
  - apply pivot_table_columns_NoDup.
  - eapply Sorted_impl_elem;
      [|apply (stable_sort_Sorted String.leb), String.leb_total].
    intros a b _ _. cbv beta. unfold String.leb.
    by destruct (String.compare a b).
  - intros s cells Hin. rewrite (pivot_table_cells _ _ _ _ Hin).
    apply list_fmap_ext. intros _ c _. f_equal.
    subst rows. apply filter_station_label.
Qed.

(** X3. The wide annual table made from any long table: its year columns are
    the non-negative years of the long rows without a missing metadata cell,
    each once and in increasing numeric order, named by their decimal text;
    its rows are the stations of those long rows, each once; and a cell holds
    the sum of the annual rainfall of the long rows of its station and year,
    or nothing when there is no such row. *)
Theorem pivot_wide_annual_rows_columns_cells (annual_df : list Annual.row) :
  let w := pivot_wide_annual annual_df in
  let complete :=
    filter (λ r, station_has_na (Annual.Station r) = false) annual_df in
  ∃ years : list Z,
    period_columns w = pretty <$> years ∧
    StronglySorted Z.lt years ∧
    (∀ y, y ∈ years ↔ (0 ≤ y)%Z ∧ y ∈ Annual.Year <$> complete) ∧
    (∀ s, s ∈ (wide_rows w).*1 ↔ s ∈ Annual.Station <$> complete) ∧
    NoDup (wide_rows w).*1 ∧
    (∀ s cells, (s, cells) ∈ wide_rows w →
       cells = (λ y, cell_sum (Annual.AnnualRainfall
                                 <$> filter (λ r, Annual.Station r = s
                                                  ∧ Annual.Year r = y)
                                            annual_df))
                 <$> years).
Proof.
  intros w complete. subst w. unfold pivot_wide_annual.
  cbn [wide_rows period_columns].
  set (rows := (λ r, (Annual.Station r, Annual.Year r,
                      Annual.AnnualRainfall r)) <$> annual_df).
  set (years := stable_sort Z.leb
                  (filter (λ c, isdigit_of_int c = true) (pivot_table Z.leb rows).1)).
  assert (∀ y, y ∈ years ↔ (0 ≤ y)%Z ∧ y ∈ (pivot_table Z.leb rows).1) as Hyears.
  { intros y. unfold years.
    rewrite elem_of_stable_sort, list_elem_of_filter.
    unfold isdigit_of_int. by rewrite Z.leb_le. }
  exists years. split_and!.
  - done.
  - apply (Sorted_le_NoDup_lt id).
    + eapply Sorted_impl_elem;
        [|apply (stable_sort_Sorted Z.leb)].
      * intros a b _ _. cbv beta. unfold id. apply Z.leb_le.
      * intros a b. rewrite !Z.leb_le. lia.
    + rewrite list_fmap_id. apply stable_sort_NoDup, NoDup_filter,
        pivot_table_columns_NoDup.
  - intros y. rewrite Hyears, pivot_table_columns, list_elem_of_fmap.
    apply and_iff_compat_l. split.
    + intros (r & (x & -> & Hx)%list_elem_of_fmap & Hna & <-).
      exists x. split; [done|]. by apply list_elem_of_filter.
    + intros (x & -> & [Hna Hx]%list_elem_of_filter).
      exists (Annual.Station x, Annual.Year x, Annual.AnnualRainfall x).
      split; [|done]. apply list_elem_of_fmap. eauto.
  - intros s. rewrite <- list_fmap_compose.
    change (s ∈ (pivot_table Z.leb rows).2.*1 ↔ s ∈ Annual.Station <$> complete).
    rewrite pivot_table_index, list_elem_of_fmap. split.
    + intros (Hna & r & (x & -> & Hx)%list_elem_of_fmap & <-).
      exists x. split; [done|]. by apply list_elem_of_filter.
    + intros (x & -> & [Hna Hx]%list_elem_of_filter). split; [done|].
      exists (Annual.Station x, Annual.Year x, Annual.AnnualRainfall x).
      split; [|done]. apply list_elem_of_fmap. eauto.
  - rewrite <- list_fmap_compose.
    change (NoDup (pivot_table Z.leb rows).2.*1).
    apply pivot_table_index_NoDup.
  - intros s cells ([s' cells'] & Heq & Hin)%list_elem_of_fmap.
    cbn [fst snd] in Heq.
    pose proof (f_equal fst Heq) as Hs. cbn [fst] in Hs. subst s'.
    pose proof (f_equal snd Heq) as Hc. cbn [snd] in Hc. subst cells.
    rewrite (pivot_table_cells _ _ _ _ Hin).
    apply list_fmap_ext. intros _ y Hy%list_elem_of_lookup_2.
    apply Hyears in Hy as [_ Hy].
    apply list_elem_of_lookup_1 in Hy as [i Hi].
    assert (list_find (λ c', c' = y) (pivot_table Z.leb rows).1 = Some (i, y))
      as ->.
    { apply list_find_Some. split_and!; [done..|].
      intros j z Hj Hlt ->.
      pose proof (pivot_table_columns_NoDup Z.leb rows) as Hnd.
      pose proof (NoDup_lookup _ _ _ _ Hnd Hi Hj). lia. }
    rewrite list_lookup_fmap, Hi. cbn. f_equal.
    subst rows. apply filter_station_label.
Qed.

(** ** What the summaries conserve *)

Lemma filter_ext_elem {A} (P Q : A → Prop) `{∀ x, Decision (P x)}
    `{∀ x, Decision (Q x)} (l : list A) :
  (∀ x, x ∈ l → (P x ↔ Q x)) → filter P l = filter Q l.
Proof.
  induction l as [|x l IH]; intros HPQ; [done|].
  rewrite !filter_cons.
  rewrite IH by (intros y Hy; apply HPQ; by right).
  destruct (decide (P x)) as [HP|HP], (decide (Q x)) as [HQ|HQ]; try done.
  - destruct HQ. apply HPQ; [by left|done].
  - destruct HP. apply HPQ; [by left|done].
Qed.

Lemma length_filter_split {A} (P : A → Prop) `{∀ x, Decision (P x)} (l : list A) :
  length l = (length (filter P l) + length (filter (λ x, ¬ P x) l))%nat.
Proof.
  rewrite <- length_app. apply Permutation_length.
  symmetry. apply filter_app_complement.
Qed.

(** Counting label by label is counting all, when every row has one of the
    labels and no label comes twice. *)
Lemma length_by_label {A C} `{EqDecision C} (key : A → C) (cols : list C)
    (l : list A) :
  NoDup cols → (∀ r, r ∈ l → key r ∈ cols) →
  sum_list ((λ c, length (filter (λ r, key r = c) l)) <$> cols) = length l.
Proof.
  intros Hnd. revert l. induction Hnd as [|c cols Hc Hnd IH]; intros l Hl.
  - destruct l as [|r l]; [reflexivity|].
    exfalso. eapply not_elem_of_nil, (Hl r). by left.
  - csimpl. rewrite (length_filter_split (λ r, key r = c) l). f_equal.
    rewrite <- (IH (filter (λ r, ¬ key r = c) l)).
    + f_equal. apply list_fmap_ext. intros i c' Hc'. cbv beta. f_equal.
      rewrite list_filter_filter. apply list_filter_iff. intros r.
      split; [|tauto]. intros ->. split; [done|]. intros ->.
      apply Hc. by eapply list_elem_of_lookup_2.
    + intros r [Hne Hr]%list_elem_of_filter.
      apply Hl, elem_of_cons in Hr as [Heq|Hin]; [by destruct Hne|done].
Qed.

Lemma Qsum_present_rain (g : list Daily) :
  Qsum (present_rain g) = Qsum ((λ r, default 0%Q (rain r)) <$> g).
Proof.
  unfold present_rain. induction g as [|r g IH]; [done|].
  csimpl. destruct (rain r); csimpl; rewrite IH; [done|].
  unfold Qplus, Qeq. cbn.
  destruct (Qsum ((λ r, default 0%Q (rain r)) <$> g)) as [n dd].
  cbn. f_equal; lia.
Qed.

Lemma month_group_key (recs : list Daily) (k : Station * Period) :
  month_group recs k.1 k.2
  = filter (λ r, (station r, to_period (date r)) = k) recs.
Proof.
  unfold month_group. apply list_filter_iff. intros r. destruct k as [s p].
  cbn [fst snd]. split; [by intros [-> ->]|].
  intros Heq. pose proof (f_equal fst Heq). pose proof (f_equal snd Heq). done.
Qed.

Lemma year_group_key (recs : list Daily) (k : Station * Z) :
  year_group recs k.1 k.2
  = filter (λ r, (station r, year (date r)) = k) recs.
Proof.
  unfold year_group. apply list_filter_iff. intros r. destruct k as [s p].
  cbn [fst snd]. split; [by intros [-> ->]|].
  intros Heq. pose proof (f_equal fst Heq). pose proof (f_equal snd Heq). done.
Qed.

(** The tables of the summaries, up to the order of their rows: one row for
    each distinct key of the records. *)
Lemma monthly_table_perm (recs : list Daily) (thr : Q) :
  monthly_table (zip recs (to_period ∘ date <$> recs)) thr
  ≡ₚ (λ k : Station * Period, monthly_row recs thr k.1 k.2)
       <$> remove_dups ((λ r, (station r, to_period (date r))) <$> recs).
Proof.
  unfold monthly_table. rewrite stable_sort_perm. unfold groupby.
  rewrite <- !list_fmap_compose.
  erewrite (list_fmap_ext _ (λ k : Station * Period, monthly_row recs thr k.1 k.2));
    cycle 1.
  { intros i k _. pose proof (month_group_rain recs k) as E.
    unfold compose in E |- *. cbn [fst snd]. rewrite E. reflexivity. }
  rewrite stable_sort_perm.
  by rewrite zip_fmap_self, <- list_fmap_compose.
Qed.

Lemma annual_table_perm (recs : list Daily) (thr : Q) (min_months : Z) :
  annual_table (zip recs (year ∘ date <$> recs)) thr min_months
  ≡ₚ (λ k : Station * Z, annual_row recs thr min_months k.1 k.2)
       <$> remove_dups ((λ r, (station r, year (date r))) <$> recs).
Proof.
  unfold annual_table. rewrite stable_sort_perm. unfold groupby.
  rewrite <- !list_fmap_compose.
  erewrite (list_fmap_ext _
    (λ k : Station * Z, annual_row recs thr min_months k.1 k.2)); cycle 1.
  { intros i k _. pose proof (year_group_fst recs k) as E.
    pose proof (list_fmap_compose fst rain
                  (filter (λ r : Daily * Z, (station r.1, r.2) = k)
                          (zip recs (year ∘ date <$> recs)))) as E1.
    pose proof (list_fmap_compose fst date
                  (filter (λ r : Daily * Z, (station r.1, r.2) = k)
                          (zip recs (year ∘ date <$> recs)))) as E2.
    rewrite E in E1, E2. unfold compose in E1, E2 |- *. cbn [fst snd].
    rewrite E1, E2. reflexivity. }
  rewrite stable_sort_perm.
  by rewrite zip_fmap_self, <- list_fmap_compose.
Qed.

(** The sums of a column over the groups of a key are its sums over all the
    records, when the keys listed are distinct and every record has one. *)
Section GroupTotals.

Context {K : Type} `{EqDecision K} (key : Daily → K).
Variable cols : list K.
Variable recs : list Daily.
Hypothesis cols_NoDup : NoDup cols.
Hypothesis cols_cover : ∀ r, r ∈ recs → key r ∈ cols.

Lemma group_days_total :
  sum_list ((λ k, length (rain <$> filter (λ r, key r = k) recs)) <$> cols)
  = length recs.
Proof.
  erewrite list_fmap_ext; [|intros i k _; apply length_fmap].
  by apply length_by_label.
Qed.

Lemma group_missing_total :
  sum_list ((λ k, count_missing (rain <$> filter (λ r, key r = k) recs)) <$> cols)
  = length (missing_rows recs).
Proof.
  rewrite <- (length_by_label key cols (missing_rows recs)).
  - f_equal. apply list_fmap_ext. intros i k _. cbv beta.
    rewrite count_missing_rain. f_equal. unfold missing_rows.
    rewrite !list_filter_filter. apply list_filter_iff. tauto.
  - done.
  - intros r [_ Hr]%list_elem_of_filter. by apply cols_cover.
Qed.

Lemma group_rain_total :
  (Qsum ((λ k, nansum (rain <$> filter (λ r, key r = k) recs)) <$> cols)
   == Qsum (present_rain recs))%Q.
Proof.
  rewrite Qsum_present_rain.
  rewrite <- (Qsum_by_label (λ r, default 0%Q (rain r)) key cols recs) by done.
  erewrite list_fmap_ext; [reflexivity|]. intros i k _. cbv beta.
  by rewrite nansum_omap, omap_rain_fmap, Qsum_present_rain.
Qed.

End GroupTotals.

Lemma remove_dups_cover {A K} `{EqDecision K} (key : A → K) (l : list A) (r : A) :
  r ∈ l → key r ∈ remove_dups (key <$> l).
Proof. intros Hr. apply elem_of_remove_dups, list_elem_of_fmap. eauto. Qed.

(** X4. Nothing is lost or counted twice by the grouping: over the rows of
    the monthly summary, and over the rows of the annual summary of a table
    that has a row, the day counts add up to the number of records of the
    table, the missing counts to the number of its records without a rain
    value, and the rainfall totals to the sum of all the rain values
    present. *)
Theorem summaries_conserve_totals (w : World) (df : loc) (d : DataFrame)
    (missing_threshold : Q) (min_months : Z) :
  heap w !! df = Some d →
  (∃ monthly w1,
     summarize_monthly df missing_threshold w = (Ok monthly, w1) ∧
     sum_list (Monthly.DaysCount <$> monthly) = length (records d) ∧
     sum_list (Monthly.MissingCount <$> monthly)
     = length (missing_rows (records d)) ∧
     (Qsum (Monthly.MonthlyRainfall <$> monthly)
      == Qsum (present_rain (records d)))%Q) ∧
  (records d ≠ [] →
   ∃ annual w2,
     summarize_annual df missing_threshold min_months w = (Ok annual, w2) ∧
     sum_list (Annual.DaysCount <$> annual) = length (records d) ∧
     sum_list (Annual.MissingCount <$> annual)
     = length (missing_rows (records d)) ∧
     (Qsum (Annual.AnnualRainfall <$> annual)
      == Qsum (present_rain (records d)))%Q).
Proof.
  intros Hd. set (recs := records d). split.
  - eexists _, _. split; [by apply summarize_monthly_run|]. fold recs.
    split_and!.
    + rewrite monthly_table_perm, <- list_fmap_compose.
      rewrite <- (group_days_total (λ r, (station r, to_period (date r))) _ recs
                   (NoDup_remove_dups _) (remove_dups_cover _ recs)).
      f_equal. apply list_fmap_ext. intros i k _. unfold compose, monthly_row.
      cbn [Monthly.DaysCount]. by rewrite month_group_key.
    + rewrite monthly_table_perm, <- list_fmap_compose.
      rewrite <- (group_missing_total (λ r, (station r, to_period (date r))) _ recs
                   (NoDup_remove_dups _) (remove_dups_cover _ recs)).
      f_equal. apply list_fmap_ext. intros i k _. unfold compose, monthly_row.
      cbn [Monthly.MissingCount]. by rewrite month_group_key.
    + rewrite (Qsum_perm _ _ (fmap_Permutation Monthly.MonthlyRainfall _ _
                                (monthly_table_perm recs missing_threshold))).
      rewrite <- list_fmap_compose.
      rewrite <- (group_rain_total (λ r, (station r, to_period (date r))) _ recs
                   (NoDup_remove_dups _) (remove_dups_cover _ recs)).
      erewrite list_fmap_ext; [reflexivity|]. intros i k _.
      unfold compose, monthly_row.
      cbn [Monthly.MonthlyRainfall]. by rewrite month_group_key.
  - intros Hrecs. eexists _, _. split; [by apply summarize_annual_run|].
    fold recs. split_and!.
    + rewrite annual_table_perm, <- list_fmap_compose.
      rewrite <- (group_days_total (λ r, (station r, year (date r))) _ recs
                   (NoDup_remove_dups _) (remove_dups_cover _ recs)).
      f_equal. apply list_fmap_ext. intros i k _. unfold compose, annual_row.
      cbn [Annual.DaysCount]. by rewrite year_group_key.
    + rewrite annual_table_perm, <- list_fmap_compose.
      rewrite <- (group_missing_total (λ r, (station r, year (date r))) _ recs
                   (NoDup_remove_dups _) (remove_dups_cover _ recs)).
      f_equal. apply list_fmap_ext. intros i k _. unfold compose, annual_row.
      cbn [Annual.MissingCount]. by rewrite year_group_key.
    + rewrite (Qsum_perm _ _ (fmap_Permutation Annual.AnnualRainfall _ _
                                (annual_table_perm recs missing_threshold min_months))).
      rewrite <- list_fmap_compose.
      rewrite <- (group_rain_total (λ r, (station r, year (date r))) _ recs
                   (NoDup_remove_dups _) (remove_dups_cover _ recs)).
      erewrite list_fmap_ext; [reflexivity|]. intros i k _.
      unfold compose, annual_row.
      cbn [Annual.AnnualRainfall]. by rewrite year_group_key.
Qed.

(** ** The annual row is the sum of the monthly rows of its year *)

Lemma pad4_inj (y y' : Z) :
  (0 ≤ y < 10000)%Z → (0 ≤ y' < 10000)%Z → pad4 y = pad4 y' → y = y'.
Proof.
  intros Hy Hy' Heq.
  assert (period_str (y, 0%Z) = period_str (y', 0%Z)) as H.
  { unfold period_str. cbn [fst snd]. by rewrite Heq. }
  apply period_str_inj in H; cbn [fst snd]; try lia.
  exact (f_equal fst H).
Qed.

Lemma in_year_period_str (y : Z) (p : Period) :
  (0 ≤ y < 10000)%Z → (0 ≤ p.1 < 10000)%Z →
  in_year y (period_str p) = true ↔ p.1 = y.
Proof.
  intros Hy Hp. unfold in_year, starts_with. split.
  - intros H. symmetry. apply pad4_inj; [done..|].
    revert H. unfold period_str, pad4.
    rewrite !string_app_cons, !string_app_nil. cbn [strip_prefix].
    repeat match goal with
           | |- context [Ascii.eqb ?a ?b] =>
               destruct (Ascii.eqb_spec a b); [|done]
           end.
    intros _. congruence.
  - intros <-. unfold period_str, pad4.
    rewrite !string_app_cons, !string_app_nil. cbn [strip_prefix].
    by rewrite !Ascii.eqb_refl.
Qed.

Lemma filter_fmap_comp {A B} (f : A → B) (P : B → Prop) `{∀ x, Decision (P x)}
    (l : list A) :
  filter P (f <$> l) = f <$> filter (λ x, P (f x)) l.
Proof.
  induction l as [|x l IH]; [done|].
  csimpl. rewrite !filter_cons.
  destruct (decide (P (f x))); csimpl; by rewrite IH.
Qed.

(** The monthly rows of a station and a year are the rows of the months the
    station has a record in that year. *)
Lemma months_of_perm (recs : list Daily) (thr : Q) (s : Station) (y : Z) :
  Forall (valid_date ∘ date) recs → (0 ≤ y < 10000)%Z →
  months_of (monthly_table (zip recs (to_period ∘ date <$> recs)) thr) s y
  ≡ₚ (λ k : Station * Period, monthly_row recs thr k.1 k.2)
       <$> filter (λ k : Station * Period, k.1 = s ∧ k.2.1 = y)
                  (remove_dups ((λ r, (station r, to_period (date r))) <$> recs)).
Proof.
  intros Hvalid Hy. unfold months_of.
  rewrite monthly_table_perm, filter_fmap_comp. f_equiv.
  apply eq_subrelation; [apply _|].
  apply filter_ext_elem. intros [s' p] Hk. unfold monthly_row.
  cbn [Monthly.Station Monthly.YearMonth fst snd].
  apply elem_of_remove_dups, list_elem_of_fmap in Hk as (r & Hk & Hr).
  pose proof (f_equal snd Hk) as Hp. cbn [snd] in Hp.
  rewrite Forall_forall in Hvalid. apply Hvalid, valid_period in Hr as [Hr _].
  rewrite in_year_period_str; [done..|]. by rewrite Hp.
Qed.

Section YearMonths.

Variable recs : list Daily.
Variable s : Station.
Variable y : Z.

Lemma year_months_NoDup : NoDup (year_months recs s y).
Proof. apply NoDup_filter, NoDup_remove_dups. Qed.

Lemma year_months_cover (r : Daily) :
  r ∈ year_group recs s y → (station r, to_period (date r)) ∈ year_months recs s y.
Proof.
  intros [[Hs Hy] Hr]%list_elem_of_filter. apply list_elem_of_filter.
  split; [done|]. by apply (remove_dups_cover (λ r, (station r, to_period (date r)))).
Qed.

Lemma year_months_group (k : Station * Period) :
  k ∈ year_months recs s y →
  month_group recs k.1 k.2
  = filter (λ r, (station r, to_period (date r)) = k) (year_group recs s y).
Proof.
  intros [[Hs Hy] _]%list_elem_of_filter. rewrite month_group_key.
  unfold year_group. rewrite list_filter_filter. apply list_filter_iff.
  intros r. split; [|tauto]. intros <-. done.
Qed.

Lemma year_months_length :
  length (year_months recs s y) = _nmonths (date <$> year_group recs s y).
Proof.
  unfold _nmonths.
  rewrite <- (remove_dups_fmap_inj_length (pair s)
                ((λ t, (year t, month t)) <$> (date <$> year_group recs s y)))
    by (intros ?? Heq; exact (f_equal snd Heq)).
  apply Permutation_length, NoDup_Permutation.
  - apply year_months_NoDup.
  - apply NoDup_remove_dups.
  - intros k. rewrite elem_of_remove_dups, <- !list_fmap_compose.
    rewrite list_elem_of_fmap. unfold year_months.
    rewrite list_elem_of_filter, elem_of_remove_dups, list_elem_of_fmap.
    split.
    + intros ([Hs Hy] & r & -> & Hr). exists r. cbn [fst snd] in Hs, Hy.
      split; [unfold compose; by rewrite Hs|].
      apply list_elem_of_filter. done.
    + intros (r & -> & [[Hs Hy] Hr]%list_elem_of_filter).
      unfold compose. cbn [fst snd]. split; [done|].
      exists r. split; [|done]. by rewrite Hs.
Qed.

End YearMonths.

(** X5. Made from the same table, one that has a row and whose records have
    valid dates, the two summaries agree: the row of the annual summary for a
    station and a year holds, as rainfall, day count and missing count, the
    sums of those of the rows the monthly summary has for the station and the
    months of that year, and as months observed the number of those rows. *)
Theorem annual_row_sums_monthly_rows (w : World) (df : loc) (d : DataFrame)
    (missing_threshold : Q) (min_months : Z) :
  heap w !! df = Some d →
  records d ≠ [] →
  Forall (valid_date ∘ date) (records d) →
  ∃ monthly w1 annual w2,
    summarize_monthly df missing_threshold w = (Ok monthly, w1) ∧
    summarize_annual df missing_threshold min_months w1 = (Ok annual, w2) ∧
    ∀ a, a ∈ annual →
      let months := months_of monthly (Annual.Station a) (Annual.Year a) in
      (Annual.AnnualRainfall a == Qsum (Monthly.MonthlyRainfall <$> months))%Q ∧
      Annual.DaysCount a = sum_list (Monthly.DaysCount <$> months) ∧
      Annual.MissingCount a = sum_list (Monthly.MissingCount <$> months) ∧
      Annual.MonthsObserved a = length months.
Proof.
  intros Hd Hrecs Hvalid. eexists _, _, _, _.
  split; [by apply summarize_monthly_run|].
  split.
  { apply summarize_annual_run; [cbn [heap]; apply lookup_insert_eq|done]. }
  rewrite records_setitem. set (recs := records d) in *.
  intros a (s & y & Hk & ->)%elem_of_annual_table.
  cbn [Annual.Station Annual.Year Annual.AnnualRainfall Annual.DaysCount
       Annual.MissingCount Annual.MonthsObserved].
  assert (0 ≤ y < 10000)%Z as Hy.
  { apply list_elem_of_fmap in Hk as (r & Hk & Hr).
    rewrite Forall_forall in Hvalid. apply Hvalid, valid_period in Hr as [Hr _].
    pose proof (f_equal snd Hk) as Hy. cbn [snd] in Hy. by rewrite Hy. }
  pose proof (months_of_perm recs missing_threshold s y Hvalid Hy) as Hperm.
  set (ks := filter (λ k : Station * Period, k.1 = s ∧ k.2.1 = y)
               (remove_dups ((λ r, (station r, to_period (date r))) <$> recs)))
    in *.
  split_and!.
  - rewrite (Qsum_perm _ _ (fmap_Permutation Monthly.MonthlyRainfall _ _ Hperm)).
    rewrite <- list_fmap_compose.
    rewrite nansum_omap, omap_rain_fmap.
    rewrite <- (group_rain_total (λ r, (station r, to_period (date r))) ks
                  (year_group recs s y) (year_months_NoDup recs s y)
                  (year_months_cover recs s y)).
    apply Qsum_perm. apply eq_subrelation; [apply _|].
    apply list_fmap_ext. intros i k Hin%list_elem_of_lookup_2.
    unfold compose, monthly_row. cbn [Monthly.MonthlyRainfall].
    by rewrite (year_months_group recs s y k Hin).
  - rewrite Hperm, <- list_fmap_compose.
    rewrite (length_fmap rain).
    rewrite <- (group_days_total (λ r, (station r, to_period (date r))) ks
                  (year_group recs s y) (year_months_NoDup recs s y)
                  (year_months_cover recs s y)).
    f_equal. apply list_fmap_ext. intros i k Hin%list_elem_of_lookup_2.
    unfold compose, monthly_row. cbn [Monthly.DaysCount].
    by rewrite (year_months_group recs s y k Hin).
  - rewrite Hperm, <- list_fmap_compose.
    rewrite count_missing_rain.
    rewrite <- (group_missing_total (λ r, (station r, to_period (date r))) ks
                  (year_group recs s y) (year_months_NoDup recs s y)
                  (year_months_cover recs s y)).
    f_equal. apply list_fmap_ext. intros i k Hin%list_elem_of_lookup_2.
    unfold compose, monthly_row. cbn [Monthly.MissingCount].
    by rewrite (year_months_group recs s y k Hin).
  - rewrite Hperm, length_fmap. symmetry. apply year_months_length.
Qed.

(** ** What saving, loading and summarizing touch *)

(** X6. Saving writes at most one file. When [safe_save_csv] returns a path,
    the table is in the outputs at that path and nowhere else new, one line
    was printed, and the path is the requested one or, when that one was
    locked, the timestamped one; when it raises, the state is as it was
    before the call: nothing was written and nothing printed. *)
Theorem safe_save_csv_writes_one_file (df : Table) (output_file : string)
    (w : World) :
  let r := safe_save_csv df output_file w in
  let fallback_file := (splitext output_file).1 +:+ "_" +:+ now w +:+ ".csv" in
  (∀ e, r.1 = Raise e →
     r.2 = w ∧
     (write_fault w output_file = Some e
      ∨ (∃ m, write_fault w output_file = Some (PermissionError m))
        ∧ write_fault w fallback_file = Some e)) ∧
  (∀ p, r.1 = Ok p →
     write_fault w p = None ∧
     (p = output_file
      ∨ p = fallback_file ∧ ∃ m, write_fault w output_file = Some (PermissionError m)) ∧
     outputs r.2 = <[p := df]> (outputs w) ∧
     (∃ line, stdout r.2 = stdout w ++ [line]) ∧
     heap r.2 = heap w ∧ disk r.2 = disk w ∧ now r.2 = now w ∧
     write_fault r.2 = write_fault w).
Proof.
  intros r fallback_file. subst r fallback_file.
  unfold safe_save_csv, try_except, mbind, M_bind, to_csv, strftime, print.
  destruct (write_fault w output_file) as [e|] eqn:Hf; cbn.
  - destruct (is_PermissionError e) eqn:He; cbn.
    + destruct e; try done.
      destruct (write_fault w ((splitext output_file).1 +:+ "_" +:+ now w +:+ ".csv"))
        as [e'|] eqn:Hf'; cbn.
      * split; [|done]. intros e [= <-]. split; [done|]. right. eauto.
      * split; [done|]. intros p [= <-]. split_and!; eauto.
    + split; [|done]. intros e' [= <-]. split; [done|]. by left.
  - split; [done|]. intros p [= <-]. split_and!; eauto.
Qed.

Lemma assign_same (c : string) (v : Column) (cols : list (string * Column)) :
  column c cols = Some v → assign c v cols = cols.
Proof.
  induction cols as [|[c' v'] cols IH]; [done|]. cbn.
  destruct (decide (c' = c)) as [->|]; [by intros [= ->]|].
  intros Hc. by rewrite IH.
Qed.

Lemma setitem_same (c : string) (v : Column) (d : DataFrame) :
  column c (assigned d) = Some v → setitem c v d = d.
Proof.
  intros Hc. unfold setitem. rewrite assign_same by done. by destruct d.
Qed.

(** X7. The summaries can be repeated and taken in either order: a second
    call of a summary on the table has the outcome of the first, the same
    rows or, for the annual summary of a table without a row, the same
    error, and leaves the state as the first call left it; and each summary
    has the same outcome whether or not the other ran before it on the
    table. The annual summary of a table that has a row returns. *)
Theorem summaries_repeatable (w : World) (df : loc) (d : DataFrame)
    (missing_threshold : Q) (min_months : Z) :
  heap w !! df = Some d →
  ∃ monthly annual w1 w2,
    summarize_monthly df missing_threshold w = (Ok monthly, w1) ∧
    summarize_annual df missing_threshold min_months w = (annual, w2) ∧
    (records d ≠ [] → ∃ rows, annual = Ok rows) ∧
    summarize_monthly df missing_threshold w1 = (Ok monthly, w1) ∧
    summarize_annual df missing_threshold min_months w2 = (annual, w2) ∧
    (summarize_annual df missing_threshold min_months w1).1 = annual ∧
    (summarize_monthly df missing_threshold w2).1 = Ok monthly.
Proof.
  intros Hd. eexists _, _, _, _.
  split; [by apply summarize_monthly_run|].
  split; [by apply summarize_annual_any|].
  split_and!.
  - intros Hrecs. destruct (records d); [done|by eexists].
  - erewrite summarize_monthly_run by (cbn [heap]; apply lookup_insert_eq).
    rewrite records_setitem. cbn [heap disk write_fault outputs now stdout].
    rewrite insert_insert_eq. do 3 f_equal.
    apply setitem_same. cbn [setitem assigned]. apply column_assign_eq.
  - erewrite summarize_annual_any by (cbn [heap]; apply lookup_insert_eq).
    rewrite !records_setitem. cbn [heap disk write_fault outputs now stdout].
    rewrite insert_insert_eq. do 3 f_equal.
    rewrite (setitem_same "Year"); [apply setitem_same|].
    + cbn [setitem assigned]. apply column_assign_eq.
    + cbn [setitem assigned]. rewrite column_assign_ne by done.
      apply column_assign_eq.
  - erewrite summarize_annual_any by (cbn [heap]; apply lookup_insert_eq).
    cbn [fst]. by rewrite records_setitem.
  - erewrite summarize_monthly_run by (cbn [heap]; apply lookup_insert_eq).
    cbn [fst]. by rewrite !records_setitem.
Qed.

Lemma elem_of_concat {A} (x : A) (ls : list (list A)) :
  x ∈ concat ls ↔ ∃ l, x ∈ l ∧ l ∈ ls.
Proof.
  induction ls as [|l ls IH]; cbn [concat].
  - split; [by intros ?%not_elem_of_nil|]. by intros (l & _ & ?%not_elem_of_nil).
  - rewrite elem_of_app, IH. split.
    + intros [Hx|(l' & Hx & Hl')]; [exists l|exists l']; split; try done;
        [by left|by right].
    + intros (l' & Hx & [->|Hl']%elem_of_cons); [by left|right; eauto].
Qed.

Section LoadedRecords.

Variable to_datetime : string → string → option Timestamp.
Variable to_numeric : string → option Q.

Lemma elem_of_valid_frames (w : World) (date_format : string)
    (files : list string) (x : Daily) :
  x ∈ concat (valid_frames to_datetime to_numeric w date_format files) ↔
  ∃ f header body r,
    f ∈ files ∧ disk w !! f = Some (Parsed header body)
    ∧ (∀ c, c ∈ REQUIRED_COLS → c ∈ header)
    ∧ r ∈ body
    ∧ daily_of_raw to_datetime to_numeric date_format r = Some x.
Proof.
  rewrite elem_of_concat. unfold valid_frames. split.
  - intros (frame & Hx & (f & Hf & Hframe)%list_elem_of_omap).
    unfold validated in Hframe. rewrite read_and_validate_csv_run in Hframe.
    cbn [fst] in Hframe.
    destruct (disk w !! f) as [[e|header body]|] eqn:Hdisk; try done.
    case_decide as Hmiss; [|done]. injection Hframe as <-.
    apply list_elem_of_omap in Hx as (r & Hr & Hx).
    exists f, header, body, r. split_and!; try done.
    by apply missing_nil_iff.
  - intros (f & header & body & r & Hf & Hdisk & Hcols & Hr & Hx).
    exists (omap (daily_of_raw to_datetime to_numeric date_format) body).
    split; [apply list_elem_of_omap; eauto|].
    apply list_elem_of_omap. exists f. split; [done|].
    rewrite (validated_Parsed _ _ _ _ _ _ _ Hdisk).
    by rewrite decide_True by (by apply missing_nil_iff).
Qed.

(** X8. When [load_folder] returns a table, the table is a new object to
    which no column has been written yet; the tables that existed, the files
    and the outputs are as before; and the records of the new table are
    exactly the rows with a date that parses of the files of the folder that
    have every required column, each with its date parsed and its rain
    coerced. *)
Theorem load_folder_records (w : World) (input_folder date_format : string) :
  let r := load_folder to_datetime to_numeric input_folder date_format w in
  ∀ df, r.1 = Ok df →
    ∃ files d,
      glob (path_join input_folder "*.csv") w = (Ok files, w) ∧
      heap w !! df = None ∧
      heap r.2 = <[df := d]> (heap w) ∧
      assigned d = [] ∧
      disk r.2 = disk w ∧ outputs r.2 = outputs w ∧
      ∀ x, x ∈ records d ↔
        ∃ f header body raw,
          f ∈ files ∧ disk w !! f = Some (Parsed header body)
          ∧ (∀ c, c ∈ REQUIRED_COLS → c ∈ header)
          ∧ raw ∈ body
          ∧ to_datetime date_format (raw_date raw) = Some (date x)
          ∧ station x = raw_station raw
          ∧ rain x = to_numeric (raw_rain raw).
Proof.
  intros r df. subst r.
  destruct (glob_run (path_join input_folder "*.csv") w) as [files Hglob].
  rewrite (load_folder_run to_datetime to_numeric _ _ _ _ Hglob).
  case_decide; [done|]. cbv zeta. case_decide; [done|].
  unfold new_frame. cbv zeta. cbn [fst snd emit heap disk outputs].
  intros [= <-]. eexists files, _. split_and!; try done.
  - apply not_elem_of_dom, is_fresh.
  - intros x. cbn [records]. rewrite elem_of_valid_frames.
    unfold daily_of_raw. split.
    + intros (f & header & body & raw & Hf & Hdisk & Hcols & Hraw & Hx).
      exists f, header, body, raw. split_and!; try done;
        destruct (to_datetime date_format (raw_date raw)); try done;
        by injection Hx as <-.
    + intros (f & header & body & raw & Hf & Hdisk & Hcols & Hraw & Hd & Hs & Hr).
      exists f, header, body, raw. split_and!; try done.
      rewrite Hd. cbn. destruct x. cbn in *. by subst.
Qed.

End LoadedRecords.

(** ** The command line and the script *)

Lemma safe_save_csv_inv (df : Table) (output_file : string) (w w' : World)
    (p : string) :
  safe_save_csv df output_file w = (Ok p, w') →
  heap w' = heap w ∧ disk w' = disk w ∧ write_fault w' = write_fault w
  ∧ now w' = now w
  ∧ outputs w' = <[p := df]> (outputs w)
  ∧ (∃ line, stdout w' = stdout w ++ [line])
  ∧ (p = output_file
     ∨ p = (splitext output_file).1 +:+ "_" +:+ now w +:+ ".csv"
       ∧ ∃ m, write_fault w output_file = Some (PermissionError m)).
Proof.
  unfold safe_save_csv, try_except, mbind, M_bind, to_csv, strftime, print.
  destruct (write_fault w output_file) as [e|] eqn:Hf; cbn.
  - destruct (is_PermissionError e) eqn:He; cbn; [|done].
    destruct e; try done.
    destruct (write_fault w ((splitext output_file).1 +:+ "_" +:+ now w +:+ ".csv"));
      cbn; [done|].
    intros [= <- <-]. cbn. split_and!; eauto.
  - intros [= <- <-]. cbn. split_and!; eauto.
Qed.

Lemma print_run (line : string) (w : World) : print line w = (Ok (), emit [line] w).
Proof. done. Qed.

Section MainProperties.

Variable to_datetime : string → string → option Timestamp.
Variable to_numeric : string → option Q.
Variable to_string : list Monthly.row → string.

(** X9. When [main] runs to its end, the table it loaded is a new object
    to which the YearMonth column only has been written, after the columns
    of the files or over their column of that name; the monthly summary of its
    records is in the outputs at the path asked for, or at the timestamped
    one when that path was locked; the preview of the first ten rows was
    printed; and the wide table of that summary is in the outputs as well
    exactly when a wide path that is not empty was given. Nothing else is
    written. *)
Theorem main_writes_the_tables (args : Args) (w : World) :
  let r := main to_datetime to_numeric to_string args w in
  r.1 = Ok () →
  ∃ df d monthly out_path,
    heap w !! df = None ∧ heap r.2 !! df = Some d ∧
    ((assigned d).*1 = ["YearMonth"] ∧
     ∀ file_columns,
       columns file_columns d = add_column file_columns "YearMonth") ∧
    monthly = monthly_table (zip (records d) (to_period ∘ date <$> records d))
                (missing_threshold args) ∧
    (out_path = output args
     ∨ out_path = (splitext (output args)).1 +:+ "_" +:+ now w +:+ ".csv") ∧
    to_string (take 10 monthly) ∈ stdout r.2 ∧
    ((wide_output args = None ∨ wide_output args = Some "") →
       outputs r.2 = <[out_path := MonthlyTable monthly]> (outputs w)) ∧
    (∀ wide_file, wide_output args = Some wide_file → wide_file ≠ "" →
       ∃ wide_path,
         (wide_path = wide_file
          ∨ wide_path = (splitext wide_file).1 +:+ "_" +:+ now w +:+ ".csv") ∧
         outputs r.2 = <[wide_path := WideTable (pivot_wide monthly)]>
                         (<[out_path := MonthlyTable monthly]> (outputs w))).
Proof.
  intros r. subst r.
  destruct (main to_datetime to_numeric to_string args w) as [res w'] eqn:Hmain.
  cbn [fst snd]. intros ->. revert Hmain. unfold main.
  intros (df & w1 & Hload & H1)%bind_inv.
  apply bind_inv in H1 as (monthly & w2 & Hm & H2).
  apply bind_inv in H2 as (out_path & w3 & Hsave & H3).
  apply bind_inv in H3 as ([] & w4 & Hp1 & H4).
  apply bind_inv in H4 as ([] & w5 & Hp2 & H5).
  rewrite print_run in Hp1, Hp2. injection Hp1 as <-. injection Hp2 as <-.
  destruct (glob_run (path_join (input_folder args) "*.csv") w) as [files Hglob].
  rewrite (load_folder_run to_datetime to_numeric _ _ _ _ Hglob) in Hload.
  case_decide; [done|]. cbv zeta in Hload. case_decide; [done|].
  unfold new_frame in Hload. cbv zeta in Hload. injection Hload as <- <-.
  cbn [emit heap] in Hm. set (df := fresh (dom (heap w))) in *.
  assert (heap w !! df = None) as Hfresh by apply not_elem_of_dom, is_fresh.
  match type of Hm with summarize_monthly _ _ ?w1 = _ =>
    assert (heap w1 !! df
            = Some (mkFrame (concat (valid_frames to_datetime to_numeric w
                                       (date_format args) files)) [])) as Hframe
      by apply lookup_insert_eq
  end.
  rewrite (summarize_monthly_run _ _ _ _ Hframe) in Hm.
  injection Hm as Hmonthly <-. symmetry in Hmonthly.
  apply safe_save_csv_inv in Hsave
    as (Hheap & Hdisk & Hfault & Hnow & Hout & [line Hline] & Hpath).
  cbn [heap disk write_fault now outputs stdout] in *.
  assert (to_string (take 10 monthly) ∈ stdout (emit [to_string (take 10 monthly)]
            (emit [nl +:+ "Preview (first 10 rows):"] w3))) as Hprinted.
  { cbn [emit stdout]. apply elem_of_app. right. by left. }
  set (d := setitem "YearMonth"
              (PeriodColumn (to_period ∘ date <$> concat
                 (valid_frames to_datetime to_numeric w (date_format args) files)))
              (mkFrame (concat (valid_frames to_datetime to_numeric w
                                  (date_format args) files)) [])) in *.
  assert (heap w3 !! df = Some d) as Hd3
    by (rewrite Hheap; apply lookup_insert_eq).
  assert (out_path = output args
          ∨ out_path = (splitext (output args)).1 +:+ "_" +:+ now w +:+ ".csv")
    as Hpath' by (destruct Hpath as [->|[-> _]]; eauto).
  exists df, d, monthly, out_path.
  split; [done|].
  destruct (wide_output args) as [wide_file|] eqn:Hwide.
  - destruct (decide (wide_file = "")) as [->|Hne].
    + injection H5 as <-. cbn [emit heap outputs].
      split; [done|]. split; [done|]. split; [done|]. split; [done|].
      split; [done|]. split; [done|].
      intros wide_file [= <-]. done.
    + apply bind_inv in H5 as (wide_path & w6 & Hsave2 & Hp3).
      rewrite print_run in Hp3. injection Hp3 as <-.
      apply safe_save_csv_inv in Hsave2
        as (Hheap2 & Hdisk2 & Hfault2 & Hnow2 & Hout2 & [line2 Hline2] & Hpath2).
      cbn [emit heap disk write_fault now outputs stdout] in *.
      split; [by rewrite Hheap2|]. split; [done|]. split; [done|].
      split; [done|]. split.
      { apply elem_of_app. left. rewrite Hline2. apply elem_of_app. by left. }
      split.
      { intros [?|[= ->]]; done. }
      intros ? [= <-] _. exists wide_path. split.
      * rewrite Hnow in Hpath2. destruct Hpath2 as [->|[-> _]]; eauto.
      * by rewrite Hout2, Hout.
  - injection H5 as <-. cbn [emit heap outputs].
    split; [done|]. split; [done|]. split; [done|]. split; [done|].
    split; [done|]. split; [done|]. done.
Qed.

End MainProperties.

Section ScriptProperties.

Variable to_datetime : string → string → option Timestamp.
Variable to_numeric : string → option Q.

(** The tables the script writes when none of its four output paths is
    locked or otherwise unwritable. *)
Lemma script_outputs (w : World) :
  let r := run.script to_datetime to_numeric w in
  (∀ p, p ∈ [run.OUT_LONG; run.OUT_WIDE; run.OUT_ANNUAL; run.OUT_ANNUAL_WIDE] →
        write_fault w p = None) →
  ∀ monthly annual, r.1 = Ok (monthly, annual) →
    outputs r.2
    = <[run.OUT_ANNUAL_WIDE := WideTable (pivot_wide_annual annual)]>
        (<[run.OUT_ANNUAL := AnnualTable annual]>
           (<[run.OUT_WIDE := WideTable (pivot_wide monthly)]>
              (<[run.OUT_LONG := MonthlyTable monthly]> (outputs w)))) ∧
    ∃ df d,
      heap w !! df = None ∧ heap r.2 !! df = Some d
      ∧ records d ≠ []
      ∧ (assigned d).*1 = ["YearMonth"; "Year"; "Month"]
      ∧ monthly = monthly_table (zip (records d) (to_period ∘ date <$> records d))
                    default_missing_threshold
      ∧ annual = annual_table (zip (records d) (year ∘ date <$> records d))
                   default_missing_threshold default_min_months.
Proof.
  intros r Hfree monthly annual. subst r.
  destruct (run.script to_datetime to_numeric w) as [res w'] eqn:Hrun.
  cbn [fst snd]. intros ->. split; [|by eapply script_shares_the_table].
  revert Hrun. unfold run.script.
  intros (df & w1 & Hload & H1)%bind_inv.
  apply bind_inv in H1 as (m & w2 & Hm & H2).
  apply bind_inv in H2 as (p1 & w3 & Hs1 & H3).
  apply bind_inv in H3 as (p2 & w4 & Hs2 & H4).
  apply bind_inv in H4 as (a & w5 & Ha & H5).
  apply bind_inv in H5 as (p3 & w6 & Hs3 & H6).
  apply bind_inv in H6 as (p4 & w7 & Hs4 & [= <- <- <-]).
  destruct (glob_run (path_join run.INPUT_DIR "*.csv") w) as [files Hglob].
  rewrite (load_folder_run to_datetime to_numeric _ _ _ _ Hglob) in Hload.
  case_decide; [done|]. cbv zeta in Hload. case_decide; [done|].
  unfold new_frame in Hload. cbv zeta in Hload. injection Hload as <- <-.
  unfold summarize_monthly, get_frame, set_frame, mbind, M_bind in Hm.
  cbn [emit heap disk write_fault outputs now stdout] in Hm.
  rewrite lookup_insert_eq in Hm. injection Hm as <- <-.
  apply safe_save_csv_inv in Hs1 as (Hh1 & _ & Hf1 & _ & Ho1 & _ & Hp1).
  apply safe_save_csv_inv in Hs2 as (Hh2 & _ & Hf2 & _ & Ho2 & _ & Hp2).
  cbn [heap disk write_fault outputs now stdout] in *.
  assert (write_fault w5 = write_fault w ∧ outputs w5 = outputs w4) as [Hf5 Ho5].
  { assert (is_Some (heap w4 !! fresh (dom (heap w)))) as [d4 Hd4].
    { rewrite Hh2, Hh1. rewrite lookup_insert_eq. by eexists. }
    rewrite (summarize_annual_any _ _ _ _ _ Hd4) in Ha.
    injection Ha as _ <-. cbn. by rewrite Hf2, Hf1. }
  apply safe_save_csv_inv in Hs3 as (Hh3 & _ & Hf3 & _ & Ho3 & _ & Hp3).
  apply safe_save_csv_inv in Hs4 as (Hh4 & _ & Hf4 & _ & Ho4 & _ & Hp4).
  assert (p1 = run.OUT_LONG) as ->.
  { destruct Hp1 as [->|[_ [msg Hm]]]; [done|].
    rewrite Hfree in Hm; [done|].
    repeat first [by left | right]. }
  assert (p2 = run.OUT_WIDE) as ->.
  { destruct Hp2 as [->|[_ [msg Hm]]]; [done|].
    rewrite Hf1, Hfree in Hm; [done|].
    repeat first [by left | right]. }
  assert (p3 = run.OUT_ANNUAL) as ->.
  { destruct Hp3 as [->|[_ [msg Hm]]]; [done|].
    rewrite Hf5, Hfree in Hm; [done|].
    repeat first [by left | right]. }
  assert (p4 = run.OUT_ANNUAL_WIDE) as ->.
  { destruct Hp4 as [->|[_ [msg Hm]]]; [done|].
    rewrite Hf3, Hf5, Hfree in Hm; [done|].
    repeat first [by left | right]. }
  by rewrite Ho4, Ho3, Ho5, Ho2, Ho1.
Qed.

(** When no date of the folder is of the format, the table has no row, and
    the script stops at the annual summary. *)
Example script_without_dates :
  ∃ msg,
    (run.script examples.strptime examples.whole_number examples.run_world_iso).1
    = Raise (TypeError msg).
Proof. eexists. vm_compute. reflexivity. Qed.

Variable monthly_to_string : list Monthly.row → string.
Variable annual_to_string : list Annual.row → string.

(** X10. When the script of [run.py] runs to its end and none of its four
    output paths is locked or otherwise unwritable, the outputs gain exactly
    four tables: the monthly summary, its wide table, the annual summary and
    its wide table, the two summaries being those of the records of the one
    table loaded, which has a row and to which the columns YearMonth, Year
    and Month have been written, each after the columns the table had or
    over the column of its name; and the last lines printed are the previews
    of the first ten rows of the two summaries under their titles. *)
Theorem program_writes_four_tables (w : World) :
  let r := run.program to_datetime to_numeric monthly_to_string
             annual_to_string w in
  (∀ p, p ∈ [run.OUT_LONG; run.OUT_WIDE; run.OUT_ANNUAL; run.OUT_ANNUAL_WIDE] →
        write_fault w p = None) →
  r.1 = Ok () →
  ∃ monthly annual,
    outputs r.2
    = <[run.OUT_ANNUAL_WIDE := WideTable (pivot_wide_annual annual)]>
        (<[run.OUT_ANNUAL := AnnualTable annual]>
           (<[run.OUT_WIDE := WideTable (pivot_wide monthly)]>
              (<[run.OUT_LONG := MonthlyTable monthly]> (outputs w)))) ∧
    (∃ before,
       stdout r.2
       = before ++ [ "Done. Previews:";
                     nl +:+ "Monthly (first 10):";
                     monthly_to_string (take 10 monthly);
                     nl +:+ "Annual (first 10):";
                     annual_to_string (take 10 annual) ]) ∧
    ∃ df d,
      heap w !! df = None ∧ heap r.2 !! df = Some d
      ∧ records d ≠ []
      ∧ (assigned d).*1 = ["YearMonth"; "Year"; "Month"]
      ∧ (∀ file_columns,
           columns file_columns d
           = add_column (add_column (add_column file_columns "YearMonth") "Year")
                        "Month")
      ∧ monthly = monthly_table (zip (records d) (to_period ∘ date <$> records d))
                    default_missing_threshold
      ∧ annual = annual_table (zip (records d) (year ∘ date <$> records d))
                   default_missing_threshold default_min_months.
Proof.
  intros r Hfree. subst r.
  destruct (run.program _ _ _ _ w) as [res w'] eqn:Hrun.
  cbn [fst snd]. intros ->. revert Hrun. unfold run.program.
  intros ([monthly annual] & w1 & Hscript & Hprints)%bind_inv.
  apply bind_inv in Hprints as ([] & w2 & Hp1 & Hprints).
  apply bind_inv in Hprints as ([] & w3 & Hp2 & Hprints).
  apply bind_inv in Hprints as ([] & w4 & Hp3 & Hprints).
  apply bind_inv in Hprints as ([] & w5 & Hp4 & Hp5).
  rewrite print_run in Hp1, Hp2, Hp3, Hp4, Hp5.
  injection Hp1 as <-. injection Hp2 as <-. injection Hp3 as <-.
  injection Hp4 as <-. injection Hp5 as <-.
  pose proof (script_outputs w Hfree monthly annual) as Hout.
  rewrite Hscript in Hout. cbn [fst snd] in Hout.
  destruct (Hout eq_refl)
    as (Houtputs & df & d & Hfresh & Hd & Hrecs & Hcols & Hm & Ha).
  exists monthly, annual. cbn [emit outputs stdout heap fst snd].
  split; [done|]. split.
  { exists (stdout w1). by rewrite <- !app_assoc. }
  exists df, d. split_and!; try done.
  intros fc. unfold columns. by rewrite Hcols.
Qed.

End ScriptProperties.

(** ** The NDVI series and the merged table *)

Lemma StronglySorted_sublist {A} (R : A → A → Prop) (l k : list A) :
  l `sublist_of` k → StronglySorted R k → StronglySorted R l.
Proof.
  induction 1 as [|x l k Hsub IH|x l k Hsub IH]; intros Hk; [done|..].
  - apply StronglySorted_inv in Hk as [Hk Hall]. constructor; [by apply IH|].
    rewrite Forall_forall in Hall |- *. intros y Hy.
    apply Hall. by eapply elem_of_sublist.
  - apply StronglySorted_inv in Hk as [Hk _]. by apply IH.
Qed.

Lemma drop_duplicates_last_keeps {A} (key : A → Z) (l : list A) (x : A) :
  x ∈ l → ∃ x', x' ∈ landsat.drop_duplicates_last key l ∧ key x' = key x.
Proof.
  revert x. induction l as [|a l IH]; intros x; [by intros ?%not_elem_of_nil|].
  intros [->|Hx]%elem_of_cons; cbn [landsat.drop_duplicates_last].
  - case_decide as Hin.
    + apply list_elem_of_fmap in Hin as (y & -> & Hy). by apply IH.
    + exists a. split; [by left|done].
  - destruct (IH x Hx) as (x' & Hx' & Hkey). exists x'. split; [|done].
    case_decide; [done|by right].
Qed.

(** The rows [build_series] chooses among: the year and value of the rows
    of the season that have a value, in the order of the table. *)
Lemma elem_of_season_values (df : list landsat.NdviRow) (season_ : string)
    (y : Z) (v : Q) :
  (y, v) ∈ omap (λ r, v ← landsat.NDVI r; Some (landsat.year r, v))
             (filter (λ r, landsat.season r = upper season_) df)
  ↔ ∃ r, r ∈ df ∧ landsat.season r = upper season_
         ∧ landsat.year r = y ∧ landsat.NDVI r = Some v.
Proof.
  rewrite list_elem_of_omap. split.
  - intros (r & [Hs Hr]%list_elem_of_filter & Hv).
    destruct (landsat.NDVI r) as [v'|] eqn:Hn; [|done].
    cbn in Hv. exists r. split_and!; try done.
    + exact (f_equal fst (Some_inj _ _ Hv)).
    + rewrite Hn. f_equal. exact (f_equal snd (Some_inj _ _ Hv)).
  - intros (r & Hr & Hs & <- & Hv). exists r. split.
    + by apply list_elem_of_filter.
    + by rewrite Hv.
Qed.

(** X11. The series [build_series] returns holds one value per year, the
    years strictly increasing; each of its rows has a year not before
    [start_year] and a value not under [min_ndvi], taken from a row of the
    table of that year and of the season in upper case; and a year not
    before [start_year] for which the rows of the season agree on a value not
    under [min_ndvi] is in the series with that value. *)
Theorem build_series_one_value_per_year (df : list landsat.NdviRow)
    (season_ : string) (start_year : Z) (min_ndvi : Q) :
  let s := landsat.build_series df season_ start_year min_ndvi in
  StronglySorted (λ a b : Z * Q, (a.1 < b.1)%Z) s ∧
  (∀ y v, (y, v) ∈ s →
     (start_year ≤ y)%Z ∧ (min_ndvi <= v)%Q ∧
     ∃ r, r ∈ df ∧ landsat.season r = upper season_
          ∧ landsat.year r = y ∧ landsat.NDVI r = Some v) ∧
  (∀ r v, r ∈ df → landsat.season r = upper season_ →
     landsat.NDVI r = Some v →
     (start_year ≤ landsat.year r)%Z → (min_ndvi <= v)%Q →
     (∀ r' v', r' ∈ df → landsat.season r' = upper season_ →
        landsat.year r' = landsat.year r → landsat.NDVI r' = Some v' → v' = v) →
     (landsat.year r, v) ∈ s).
Proof.
  intros s. subst s. split_and!.
  - apply (Sorted_le_NoDup_lt fst); [|apply build_series_NoDup].
    apply StronglySorted_Sorted. unfold landsat.build_series.
    eapply StronglySorted_sublist.
    { etransitivity; [apply sublist_filter|].
      etransitivity; [apply sublist_filter|].
      apply drop_duplicates_last_sublist. }
    apply Sorted_StronglySorted; [intros a b c; lia|].
    eapply Sorted_impl_elem;
      [|apply (stable_sort_Sorted (λ a b : Z * Q, Z.leb a.1 b.1))].
    + intros a b _ _. cbv beta. apply Z.leb_le.
    + intros a b. cbv beta. rewrite !Z.leb_le. lia.
  - intros y v. unfold landsat.build_series.
    intros [Hmin [Hstart Hin]%list_elem_of_filter]%list_elem_of_filter.
    cbn [fst snd] in Hmin, Hstart.
    split; [done|]. split; [by apply Qle_bool_iff|].
    apply elem_of_season_values.
    eapply elem_of_stable_sort, elem_of_sublist;
      [exact Hin|apply drop_duplicates_last_sublist].
  - intros r v Hr Hs Hv Hstart Hmin Hagree. unfold landsat.build_series.
    assert ((landsat.year r, v)
            ∈ stable_sort (λ a b : Z * Q, Z.leb a.1 b.1)
                (omap (λ r, v ← landsat.NDVI r; Some (landsat.year r, v))
                   (filter (λ r, landsat.season r = upper season_) df))) as Hin.
    { apply elem_of_stable_sort, elem_of_season_values. eauto. }
    destruct (drop_duplicates_last_keeps fst _ _ Hin) as ([y' v'] & Hkept & Hy).
    cbn [fst] in Hy. subst y'.
    assert (v' = v) as ->.
    { eapply elem_of_sublist in Hkept; [|apply drop_duplicates_last_sublist].
      apply elem_of_stable_sort, elem_of_season_values in Hkept
        as (r' & Hr' & Hs' & Hy' & Hv'). by eapply Hagree. }
    apply list_elem_of_filter. split; [by apply Qle_bool_iff|].
    apply list_elem_of_filter. split; [done|]. done.
Qed.

Lemma elem_of_merge_inner (left : list (Z * Q)) (right : list landsat.RainRow)
    (m : landsat.Merged) :
  m ∈ landsat.merge_inner left right
  ↔ ∃ l r, l ∈ left ∧ r ∈ right ∧ landsat.rain_year r = l.1
           ∧ m = landsat.mkMerged l.1 l.2 (landsat.rain_mm r).
Proof.
  unfold landsat.merge_inner. rewrite list_elem_of_bind. split.
  - intros (l & (r & Hm%list_elem_of_singleton
                   & [Hy Hr]%list_elem_of_filter)%list_elem_of_bind & Hl).
    eauto 10.
  - intros (l & r & Hl & Hr & Hy & ->). exists l. split; [|done].
    apply list_elem_of_bind. exists r. split; [by left|].
    by apply list_elem_of_filter.
Qed.

(** X12. Every row of the merged table [prepare_merged] returns joins a row
    of the NDVI table, of the season and the year, with a row of the rainfall
    table of that year; its year is not before 1984 and its NDVI not under
    0.25 whatever [min_ndvi] the caller passes, and not under [min_ndvi]
    either when one is passed. The rows come in the order of their years,
    each year once when the rainfall table has each year once. *)
Theorem prepare_merged_rows (df : list landsat.NdviRow)
    (rain_df : list landsat.RainRow) (season_ : string) (min_ndvi : option Q) :
  let base := landsat.prepare_merged df rain_df season_ min_ndvi in
  (∀ m, m ∈ base →
     (1984 ≤ landsat.m_year m)%Z ∧
     ((25 # 100) <= landsat.ndvi m)%Q ∧
     (∀ floor, min_ndvi = Some floor → (floor <= landsat.ndvi m)%Q) ∧
     (∃ r, r ∈ df ∧ landsat.season r = upper season_
           ∧ landsat.year r = landsat.m_year m
           ∧ landsat.NDVI r = Some (landsat.ndvi m)) ∧
     (∃ q, q ∈ rain_df ∧ landsat.rain_year q = landsat.m_year m
           ∧ landsat.rain_mm q = landsat.rain m)) ∧
  Sorted (λ a b, (landsat.m_year a ≤ landsat.m_year b)%Z) base ∧
  (NoDup (landsat.rain_year <$> rain_df) →
   StronglySorted (λ a b, (landsat.m_year a < landsat.m_year b)%Z) base).
Proof.
  intros base. subst base. split_and!.
  - intros m. unfold landsat.prepare_merged.
    rewrite elem_of_stable_sort, elem_of_merge_inner.
    intros ([y v] & q & Hl & Hq & Hy & ->).
    cbn [fst snd landsat.m_year landsat.ndvi landsat.rain] in *.
    assert ((y, v) ∈ landsat.build_series df season_ 1984 (25 # 100)
            ∧ ∀ floor, min_ndvi = Some floor → (floor <= v)%Q) as [Hs Hfloor].
    { destruct min_ndvi as [floor|].
      - apply list_elem_of_filter in Hl as [Hfl Hl]. split; [done|].
        intros ? [= <-]. by apply Qle_bool_iff.
      - split; [done|]. by intros ? [=]. }
    unfold landsat.build_series in Hs.
    apply list_elem_of_filter in Hs as [Hmin Hs].
    apply list_elem_of_filter in Hs as [Hstart Hs].
    cbn [fst snd] in Hmin, Hstart.
    split; [done|]. split; [by apply Qle_bool_iff|]. split; [done|]. split.
    + apply elem_of_season_values.
      eapply elem_of_stable_sort, elem_of_sublist;
        [exact Hs|apply drop_duplicates_last_sublist].
    + eauto.
  - unfold landsat.prepare_merged.
    eapply Sorted_impl_elem;
      [|apply (stable_sort_Sorted
                 (λ a b, Z.leb (landsat.m_year a) (landsat.m_year b)))].
    + intros a b _ _. cbv beta. apply Z.leb_le.
    + intros a b. cbv beta. rewrite !Z.leb_le. lia.
  - apply prepare_merged_years.
Qed.

(** ** The pairs and the rows of the lags *)

Lemma elem_of_lag_pairs (base : list landsat.Merged) (lag : Z) (p : Q * Q) :
  p ∈ landsat.lag_pairs base lag ↔
  ∃ (i : nat) r r',
    base !! i = Some r ∧ (0 ≤ Z.of_nat i + lag)%Z
    ∧ base !! Z.to_nat (Z.of_nat i + lag) = Some r'
    ∧ landsat.rain r' = Some p.2 ∧ landsat.ndvi r = p.1.
Proof.
  rewrite lag_pairs_spec, list_elem_of_omap. unfold pair_at. split.
  - intros (i & Hi & Hp).
    destruct (base !! i) as [r|] eqn:Hr; [|done]. csimpl in Hp.
    case_decide as Hpos; [|done].
    destruct (base !! Z.to_nat (Z.of_nat i + lag)) as [r'|] eqn:Hr'; [|done].
    csimpl in Hp. destruct (landsat.rain r') as [v|] eqn:Hv; [|done].
    injection Hp as <-. exists i, r, r'. by rewrite Hv.
  - intros (i & r & r' & Hr & Hpos & Hr' & Hv & Hn). exists i. split.
    + apply elem_of_seq. apply lookup_lt_Some in Hr. lia.
    + rewrite Hr. csimpl. rewrite decide_True by done. rewrite Hr'. csimpl.
      rewrite Hv. csimpl. destruct p. cbn in *. by subst.
Qed.

Lemma consecutive_years_lookup (base : list landsat.Merged) :
  (∀ i r r', base !! i = Some r → base !! S i = Some r' →
             landsat.m_year r' = landsat.m_year r + 1)%Z →
  ∀ (d i : nat) r r', base !! i = Some r → base !! (i + d)%nat = Some r' →
    (landsat.m_year r' = landsat.m_year r + Z.of_nat d)%Z.
Proof.
  intros Hstep. induction d as [|d IH]; intros i r r' Hr Hr'.
  - rewrite Nat.add_0_r in Hr'. assert (r' = r) as -> by congruence. lia.
  - destruct (base !! (i + d)%nat) as [r0|] eqn:Hr0.
    + rewrite (Hstep (i + d)%nat r0 r' Hr0); [|by rewrite <- Nat.add_succ_r].
      rewrite (IH i r r0 Hr Hr0). lia.
    + apply lookup_ge_None in Hr0. apply lookup_lt_Some in Hr'. lia.
Qed.

(** X13. When the merged table holds consecutive years, every pair of a lag
    is the NDVI of a year with the rain of the year [lag] years later: the
    shift by rows is then the shift by years the correlation is named for. *)
Theorem lag_pairs_consecutive_years (base : list landsat.Merged) (lag : Z)
    (p : Q * Q) :
  (∀ (i : nat) r r', base !! i = Some r → base !! S i = Some r' →
     landsat.m_year r' = landsat.m_year r + 1)%Z →
  p ∈ landsat.lag_pairs base lag →
  ∃ r r', r ∈ base ∧ r' ∈ base
    ∧ (landsat.m_year r' = landsat.m_year r + lag)%Z
    ∧ landsat.ndvi r = p.1 ∧ landsat.rain r' = Some p.2.
Proof.
  intros Hstep (i & r & r' & Hr & Hpos & Hr' & Hv & Hn)%elem_of_lag_pairs.
  exists r, r'.
  split; [by eapply list_elem_of_lookup_2|].
  split; [by eapply list_elem_of_lookup_2|].
  split; [|done].
  destruct (Z.le_gt_cases 0 lag) as [Hlag|Hlag].
  - rewrite (consecutive_years_lookup base Hstep (Z.to_nat lag) i r r' Hr).
    + lia.
    + rewrite <- Hr'. f_equal. lia.
  - pose proof (consecutive_years_lookup base Hstep (Z.to_nat (- lag))
                  (Z.to_nat (Z.of_nat i + lag)) r' r Hr') as Hback.
    rewrite Hback; [lia|]. rewrite <- Hr. f_equal. lia.
Qed.

Lemma omap_None_nil {A B} (f : A → option B) (l : list A) :
  (∀ x, x ∈ l → f x = None) → omap f l = [].
Proof.
  induction l as [|x l IH]; intros Hf; [done|]. csimpl.
  rewrite (Hf x) by (by left). apply IH. intros y Hy. apply Hf. by right.
Qed.

Lemma length_omap_le {A B} (f : A → option B) (l : list A) :
  (length (omap f l) ≤ length l)%nat.
Proof.
  induction l as [|x l IH]; csimpl; [done|].
  destruct (f x); cbn; lia.
Qed.

Lemma length_omap_Some {A B} (f : A → option B) (l : list A) :
  (∀ x, x ∈ l → is_Some (f x)) → length (omap f l) = length l.
Proof.
  induction l as [|x l IH]; intros Hf; csimpl; [done|].
  destruct (Hf x) as [y ->]; [by left|]. cbn. f_equal. apply IH.
  intros z Hz. apply Hf. by right.
Qed.

(** The rows of the merged table a lag has a partner row for. *)
Lemma lag_pairs_window (base : list landsat.Merged) (lag : Z) :
  let n := length base in
  let k := Z.abs_nat lag in
  let first := if decide (lag < 0)%Z then Nat.min k n else 0%nat in
  landsat.lag_pairs base lag = omap (pair_at base lag) (seq first (n - k)).
Proof.
  intros n k first. rewrite lag_pairs_spec. fold n.
  assert (n = first + (n - k) + (n - first - (n - k)))%nat as Hn
    by (subst first; case_decide; lia).
  rewrite Hn at 1. rewrite !seq_app, !omap_app. cbn [plus].
  rewrite (omap_None_nil _ (seq 0 first)); cycle 1.
  { intros i [_ Hi]%elem_of_seq. unfold pair_at.
    destruct (base !! i); [|done]. csimpl.
    subst first. case_decide; [|lia]. rewrite decide_False by lia. done. }
  rewrite (omap_None_nil _ (seq (first + (n - k)) _)); cycle 1.
  { intros i [Hi Hi']%elem_of_seq. unfold pair_at.
    destruct (base !! i) as [r|] eqn:Hr; [|done]. csimpl.
    apply lookup_lt_Some in Hr. fold n in Hr.
    case_decide as Hpos; [|done].
    rewrite (proj2 (lookup_ge_None base _)); [done|].
    fold n. subst first. case_decide; lia. }
  by rewrite app_nil_r.
Qed.

(** X14. A lag of [k] years in either direction leaves at most as many
    pairs as the merged table has rows less [k], and exactly as many when
    every row of the table has a rain value: a lag needs a merged table of
    three rows more than its size to get a row of its own. *)
Theorem lag_pairs_length (base : list landsat.Merged) (lag : Z) :
  (length (landsat.lag_pairs base lag) ≤ length base - Z.abs_nat lag)%nat ∧
  ((∀ r, r ∈ base → is_Some (landsat.rain r)) →
   length (landsat.lag_pairs base lag) = (length base - Z.abs_nat lag)%nat).
Proof.
  rewrite lag_pairs_window. cbv zeta. split.
  - etransitivity; [apply length_omap_le|]. by rewrite length_seq.
  - intros Hrain. rewrite length_omap_Some; [by rewrite length_seq|].
    intros i [Hi Hi']%elem_of_seq. unfold pair_at.
    destruct (lookup_lt_is_Some_2 base i) as [r Hr]; [case_decide; lia|].
    rewrite Hr. csimpl.
    rewrite decide_True by (case_decide; lia).
    destruct (lookup_lt_is_Some_2 base (Z.to_nat (Z.of_nat i + lag))) as [r' Hr'];
      [case_decide; lia|].
    rewrite Hr'. csimpl.
    destruct (Hrain r') as [v ->]; [by eapply list_elem_of_lookup_2|]. done.
Qed.

Section LagRows.

Variable pearsonr spearmanr kendalltau : list Q → list Q → Result landsat.Stat.
Variable series_corr : string → list Q → list Q → option Q.

Lemma lag_rows_lags (base : list landsat.Merged) (season_ : string)
    (lags : list Z) :
  landsat.lag_years
    <$> omap (lag_row pearsonr spearmanr kendalltau series_corr base season_) lags
  = filter (λ lag, (3 ≤ length (landsat.lag_pairs base lag))%nat) lags.
Proof.
  induction lags as [|lag lags IH]; [done|]. csimpl. rewrite filter_cons.
  unfold lag_row at 1. cbv zeta.
  destruct (decide (3 ≤ length (landsat.lag_pairs base lag))%nat); csimpl;
    by rewrite IH.
Qed.

(** X15. When some lag leaves at least 3 pairs, [lagged_correlations]
    returns a table with one row for each lag given that leaves at least 3
    pairs and none for the others, the rows in the order of their lags; a
    row holds the season as it was passed, the number of pairs of its lag,
    and the coefficients and p-values [corr_with_p] gives for these pairs. *)
Theorem lagged_correlations_one_row_per_lag (df : list landsat.NdviRow)
    (rain_df : list landsat.RainRow) (season_ : string) (lags : list Z)
    (min_ndvi : option Q) :
  let base := landsat.prepare_merged df rain_df season_ min_ndvi in
  (∃ lag, lag ∈ lags ∧ (3 ≤ length (landsat.lag_pairs base lag))%nat) →
  ∃ out,
    landsat.lagged_correlations pearsonr spearmanr kendalltau series_corr
      df rain_df season_ lags min_ndvi = Ok out
    ∧ Sorted (λ a b, (landsat.lag_years a ≤ landsat.lag_years b)%Z) out
    ∧ landsat.lag_years <$> out
      ≡ₚ filter (λ lag, (3 ≤ length (landsat.lag_pairs base lag))%nat) lags
    ∧ ∀ row, row ∈ out →
        let pairs := landsat.lag_pairs base (landsat.lag_years row) in
        let stat := landsat.corr_with_p pearsonr spearmanr kendalltau
                      series_corr pairs.*1 pairs.*2 in
        landsat.c_season row = season_
        ∧ landsat.n row = length pairs
        ∧ (landsat.pearson_r row, landsat.pearson_p row) = landsat.pearson stat
        ∧ (landsat.spearman_r row, landsat.spearman_p row) = landsat.spearman stat
        ∧ (landsat.kendall_tau row, landsat.kendall_p row) = landsat.kendall stat.
Proof.
  intros base Hsome.
  destruct (lagged_correlations_rows pearsonr spearmanr kendalltau series_corr
              df rain_df season_ lags min_ndvi Hsome) as (out & Hout & Hperm & Hsorted).
  fold base in Hperm.
  exists out. split; [done|]. split; [done|]. split.
  - by rewrite Hperm, lag_rows_lags.
  - intros row Hrow. rewrite Hperm in Hrow.
    apply elem_of_lag_rows in Hrow as (Hs & _ & Hn & _ & Hstat).
    cbv zeta in Hstat |- *. tauto.
Qed.

End LagRows.

(** ** The loaders of the tables *)

Lemma getitem_cons (c c' : string) (cells : list landsat.Cell)
    (t : landsat.Frame) :
  landsat.getitem ((c', cells) :: t) c
  = if decide (c' = c) then cells else landsat.getitem t c.
Proof.
  unfold landsat.getitem. cbn [list_find fst]. case_decide; [done|].
  by destruct (list_find _ t) as [[i col]|].
Qed.

Lemma names_setitem (c : string) (cells : list landsat.Cell) (t : landsat.Frame) :
  (landsat.setitem c cells t).*1 = t.*1.
Proof.
  unfold landsat.setitem. induction t as [|[c' col] t IH]; [done|].
  csimpl. rewrite IH. by case_decide; subst.
Qed.


Lemma getitem_setitem_ne (c c' : string) (cells : list landsat.Cell)
    (t : landsat.Frame) :
  c ≠ c' → landsat.getitem (landsat.setitem c' cells t) c = landsat.getitem t c.
Proof.
  intros Hne. induction t as [|[c0 col] t IH]; [done|].
  unfold landsat.setitem. csimpl. case_decide as Hc.
  - subst c0. rewrite !getitem_cons, !decide_False by done. apply IH.
  - rewrite !getitem_cons. case_decide; [done|]. apply IH.
Qed.

Lemma drop_duplicates_keep_last_sublist {A K} `{EqDecision K} (key : A → K)
    (l : list A) :
  landsat.drop_duplicates_keep_last key l `sublist_of` l.
Proof.
  induction l as [|x l IH]; simpl; [done|].
  case_decide; [by apply sublist_cons | by apply sublist_skip].
Qed.

Lemma drop_duplicates_keep_last_NoDup {A K} `{EqDecision K} (key : A → K)
    (l : list A) :
  NoDup (key <$> landsat.drop_duplicates_keep_last key l).
Proof.
  induction l as [|x l IH]; simpl; [constructor|].
  case_decide as Hin; [done|]. csimpl. constructor; [|done].
  intros Hx. apply Hin. eapply elem_of_sublist; [exact Hx|].
  apply fmap_sublist, drop_duplicates_keep_last_sublist.
Qed.

Lemma drop_duplicates_keep_last_keeps {A K} `{EqDecision K} (key : A → K)
    (l : list A) (x : A) :
  x ∈ l → ∃ x', x' ∈ landsat.drop_duplicates_keep_last key l ∧ key x' = key x.
Proof.
  revert x. induction l as [|a l IH]; intros x; [by intros ?%not_elem_of_nil|].
  intros [->|Hx]%elem_of_cons; cbn [landsat.drop_duplicates_keep_last].
  - case_decide as Hin.
    + apply list_elem_of_fmap in Hin as (y & -> & Hy). by apply IH.
    + exists a. split; [by left|done].
  - destruct (IH x Hx) as (x' & Hx' & Hkey). exists x'. split; [|done].
    case_decide; [done|by right].
Qed.

(** The order of the years of the rainfall table, a missing year last. *)
Lemma year_na_le_trans (a b c : option Z) :
  not_gt (cmp_na Z.compare a b) = true → not_gt (cmp_na Z.compare b c) = true →
  not_gt (cmp_na Z.compare a c) = true.
Proof.
  destruct a as [x|], b as [y|], c as [z|]; cbn; try done.
  destruct (Z.compare_spec x y), (Z.compare_spec y z), (Z.compare_spec x z);
    try done; lia.
Qed.

Lemma year_na_le_total (a b : option Z) :
  not_gt (cmp_na Z.compare a b) = true ∨ not_gt (cmp_na Z.compare b a) = true.
Proof.
  rewrite (cmp_na_opp Z.compare a b) by (intros; apply Z.compare_antisym).
  apply not_gt_total.
Qed.

Lemma StronglySorted_omap {A B} (R : A → A → Prop) (R' : B → B → Prop)
    (f : A → option B) (l : list A) :
  (∀ x y x' y', f x = Some x' → f y = Some y' → R x y → R' x' y') →
  StronglySorted R l → StronglySorted R' (omap f l).
Proof.
  intros HR. induction 1 as [|x l Hl IH Hall]; csimpl; [constructor|].
  destruct (f x) as [x'|] eqn:Hx; [|done]. constructor; [done|].
  rewrite Forall_forall in Hall. apply Forall_forall.
  intros y' (y & Hy & Hfy)%list_elem_of_omap. eauto.
Qed.

Lemma rain_rows_years (t : list (option Z * Q)) :
  Some <$> (landsat.rain_year <$> landsat.rain_rows t)
  = filter (λ k, is_Some k) (fst <$> t).
Proof.
  unfold landsat.rain_rows. induction t as [|[[y|] v] t IH]; csimpl; [done|..].
  - rewrite filter_cons, decide_True by eauto. by rewrite IH.
  - rewrite filter_cons, decide_False by (by intros [? ?]). done.
Qed.

Lemma forallb_false_elem {A} (f : A → bool) (l : list A) :
  forallb f l = false ↔ ∃ x, x ∈ l ∧ f x = false.
Proof.
  induction l as [|a l IH]; cbn [forallb].
  - split; [done|]. by intros (x & ?%not_elem_of_nil & _).
  - rewrite andb_false_iff, IH. split.
    + intros [Ha|(x & Hx & Hfx)]; [exists a|exists x]; split; try done;
        [by left|by right].
    + intros (x & [->|Hx]%elem_of_cons & Hfx); [by left|right; eauto].
Qed.

Lemma forallb_true_elem {A} (f : A → bool) (l : list A) :
  forallb f l = true ↔ ∀ x, x ∈ l → f x = true.
Proof.
  induction l as [|a l IH]; cbn [forallb].
  - split; [|done]. by intros _ x ?%not_elem_of_nil.
  - rewrite andb_true_iff, IH. split.
    + intros [Ha Hl] x [->|Hx]%elem_of_cons; auto.
    + intros Hall. split; [apply Hall; by left|].
      intros x Hx. apply Hall. by right.
Qed.

Lemma astype_Int64_Returns (s : list (option Q)) (years : list (option Z)) :
  landsat.astype_Int64 s = landsat.Returns years
  ↔ years = (λ v : option Q, Qfloor <$> v) <$> s
    ∧ ∀ q, Some q ∈ s → landsat.is_int64 q = true.
Proof.
  unfold landsat.astype_Int64.
  destruct (forallb _ s) eqn:Hall.
  - rewrite forallb_true_elem in Hall. split.
    + intros [= <-]. split; [done|]. intros q Hq. by apply (Hall (Some q)).
    + intros [-> _]. done.
  - apply forallb_false_elem in Hall as ([q|] & Hq & Hf); [|done].
    split; [done|]. intros [_ Hint]. rewrite Hint in Hf; done.
Qed.

Lemma astype_Int64_Raises (s : list (option Q)) (e : landsat.error) :
  landsat.astype_Int64 s = landsat.Raises e
  ↔ e = landsat.TypeError "cannot safely cast non-equivalent float64 to int64"
    ∧ ∃ q, Some q ∈ s ∧ landsat.is_int64 q = false.
Proof.
  unfold landsat.astype_Int64.
  destruct (forallb _ s) eqn:Hall.
  - rewrite forallb_true_elem in Hall. split; [done|].
    intros (_ & q & Hq & Hf). by rewrite (Hall (Some q) Hq) in Hf.
  - apply forallb_false_elem in Hall as ([q|] & Hq & Hf); [|done].
    split; [intros [= <-]; eauto|]. by intros [-> _].
Qed.

Lemma first_such_find {A} (P : A → Prop) `{∀ x, Decision (P x)} (l : list A)
    (x : A) :
  first_such P l x ↔ ∃ i, list_find P l = Some (i, x).
Proof.
  unfold first_such. by setoid_rewrite list_find_Some.
Qed.

Section LoaderProperties.

Variable to_numeric : string → option Q.

(** The rows of the rainfall table before the sort: the rows of the file
    with a rain value. *)
Lemma elem_of_rain_candidates (years : list (option Z)) (rain_mm : list (option Q))
    (y : option Z) (v : Q) :
  (y, v) ∈ omap (λ x : option Z * option Q, v ← x.2; Some (x.1, v))
             (zip years rain_mm)
  ↔ ∃ i : nat, years !! i = Some y ∧ rain_mm !! i = Some (Some v).
Proof.
  rewrite list_elem_of_omap. split.
  - intros ([y' [v'|]] & (i & y0 & v0 & Heq & Hy & Hv)%elem_of_lookup_zip_with & Hx);
      [|done].
    cbn in Hx. injection Hx as -> ->. injection Heq as <- <-. eauto.
  - intros (i & Hy & Hv). exists (y, Some v). split; [|done].
    exact (elem_of_lookup_zip_with_2 pair years rain_mm y (Some v) (y, Some v) i Hy Hv).
Qed.

Lemma load_rainfall_inv (files : gmap string landsat.File) (csv_path : string)
    (out : list (option Z * Q)) :
  landsat.load_rainfall to_numeric files csv_path = landsat.Returns out →
  ∃ t year_col val_col,
    files !! csv_path = Some (landsat.Readable t)
    ∧ first_such (λ c, landsat.lower (landsat.strip c) = "year") t.*1 year_col
    ∧ first_such (λ c, c ∈ t.*1) value_names val_col
    ∧ (∀ c q, c ∈ landsat.getitem t year_col →
         landsat.numeric to_numeric c = Some q → landsat.is_int64 q = true)
    ∧ out = landsat.drop_duplicates_keep_last fst
              (stable_sort (λ a b : option Z * Q, not_gt (cmp_na Z.compare a.1 b.1))
                 (omap (λ x : option Z * option Q, v ← x.2; Some (x.1, v))
                    (zip ((λ c, Qfloor <$> landsat.numeric to_numeric c)
                            <$> landsat.getitem t year_col)
                         (landsat.numeric to_numeric <$> landsat.getitem t val_col)))).
Proof.
  unfold landsat.load_rainfall.
  destruct (files !! csv_path) as [[e|t]|]; try done.
  destruct (list_find _ t.*1) as [[iy year_col]|] eqn:Hy; [|done].
  destruct (list_find (λ c, c ∈ t.*1) _) as [[iv val_col]|] eqn:Hv; [|done].
  destruct (landsat.astype_Int64 _) as [years|e] eqn:Hyears; [|done].
  intros [= <-]. apply astype_Int64_Returns in Hyears as [-> Hint].
  exists t, year_col, val_col. split; [done|].
  split.
  { apply (proj2 (first_such_find
                    (λ c, landsat.lower (landsat.strip c) = "year") t.*1 year_col)).
    eauto. }
  split.
  { apply (proj2 (first_such_find (λ c, c ∈ t.*1) value_names val_col)). eauto. }
  split.
  - intros c q Hc Hq. apply Hint. rewrite <- Hq. by apply list_elem_of_fmap_2.
  - by rewrite <- list_fmap_compose.
Qed.

(** X17. The table [load_rainfall] returns: the rows that have a year come
    with their years strictly increasing, so no year twice; at most one row
    is without a year; every row is a row of the file, its year from the
    first column whose name is "year" up to case and blanks around it, its
    rain from the first of the value columns in the order of preference,
    read as numbers; and the year of every row of the file with a rain
    value is in the table. *)
Theorem load_rainfall_table (files : gmap string landsat.File)
    (csv_path : string) (out : list (option Z * Q)) :
  landsat.load_rainfall to_numeric files csv_path = landsat.Returns out →
  StronglySorted (λ a b, (landsat.rain_year a < landsat.rain_year b)%Z)
    (landsat.rain_rows out) ∧
  (length (filter (λ r : option Z * Q, r.1 = None) out) ≤ 1)%nat ∧
  ∃ t year_col val_col,
    files !! csv_path = Some (landsat.Readable t)
    ∧ first_such (λ c, landsat.lower (landsat.strip c) = "year") t.*1 year_col
    ∧ first_such (λ c, c ∈ t.*1) value_names val_col
    ∧ (∀ y v, (y, v) ∈ out →
         ∃ (i : nat) cy cv,
           landsat.getitem t year_col !! i = Some cy
           ∧ landsat.getitem t val_col !! i = Some cv
           ∧ Qfloor <$> landsat.numeric to_numeric cy = y
           ∧ landsat.numeric to_numeric cv = Some v)
    ∧ (∀ (i : nat) cy cv v,
         landsat.getitem t year_col !! i = Some cy →
         landsat.getitem t val_col !! i = Some cv →
         landsat.numeric to_numeric cv = Some v →
         ∃ v', (Qfloor <$> landsat.numeric to_numeric cy, v') ∈ out).
Proof.
  intros (t & year_col & val_col & Hfile & Hyear & Hval & Hint & ->)%load_rainfall_inv.
  set (rows := omap _ (zip _ _)).
  set (sorted := stable_sort _ rows).
  assert (NoDup (fst <$> landsat.drop_duplicates_keep_last fst sorted)) as Hnd
    by apply drop_duplicates_keep_last_NoDup.
  split_and!.
  - apply Sorted_le_NoDup_lt.
    + apply StronglySorted_Sorted.
      eapply (StronglySorted_omap
                (λ a b : option Z * Q, not_gt (cmp_na Z.compare a.1 b.1) = true)).
      * intros [[x|] vx] [[y|] vy] x' y'; cbn; try done.
        intros [= <-] [= <-]. cbn. destruct (Z.compare_spec x y); try done; lia.
      * eapply StronglySorted_sublist;
          [apply drop_duplicates_keep_last_sublist|].
        apply Sorted_StronglySorted.
        { intros a b c. apply year_na_le_trans. }
        apply (stable_sort_Sorted
                 (λ a b : option Z * Q, not_gt (cmp_na Z.compare a.1 b.1))).
        intros a b. apply year_na_le_total.
    + apply (NoDup_fmap_1 Some). rewrite rain_rows_years.
      by apply NoDup_filter.
  - set (l := landsat.drop_duplicates_keep_last fst sorted) in *.
    clearbody l. induction l as [|[[y|] v] l IH]; [cbn; lia|..].
    + rewrite filter_cons, decide_False by done. apply IH.
      by apply NoDup_cons in Hnd as [_ ?].
    + rewrite filter_cons, decide_True by done.
      apply NoDup_cons in Hnd as [Hnone Hnd].
      assert (filter (λ r : option Z * Q, r.1 = None) l = []) as ->; [|done].
      apply elem_of_nil_inv. intros r [Hr Hin]%list_elem_of_filter.
      apply Hnone. cbn. rewrite <- Hr. by apply list_elem_of_fmap_2.
  - exists t, year_col, val_col. split_and!; try done.
    + intros y v Hin.
      eapply elem_of_sublist in Hin; [|apply drop_duplicates_keep_last_sublist].
      apply elem_of_stable_sort, elem_of_rain_candidates in Hin
        as (i & Hy & Hv).
      rewrite list_lookup_fmap in Hy. rewrite list_lookup_fmap in Hv.
      destruct (landsat.getitem t year_col !! i) as [cy|] eqn:Hcy; [|done].
      destruct (landsat.getitem t val_col !! i) as [cv|] eqn:Hcv; [|done].
      injection Hy as <-. injection Hv as Hv. exists i, cy, cv. done.
    + intros i cy cv v Hcy Hcv Hv.
      assert ((Qfloor <$> landsat.numeric to_numeric cy, v) ∈ sorted) as Hin.
      { apply elem_of_stable_sort, elem_of_rain_candidates. exists i.
        rewrite !list_lookup_fmap, Hcy, Hcv. cbn. by rewrite Hv. }
      destruct (drop_duplicates_keep_last_keeps fst _ _ Hin)
        as ([y' v'] & Hkept & Hy').
      cbn in Hy'. subst y'. eauto.
Qed.

(** X18. How [load_rainfall] fails: on a path that holds no file, with
    FileNotFoundError; on a table without a column named "year" up to case
    and blanks, with ValueError, whatever else the table holds; on a table
    with such a column but none of the value columns, with ValueError; and on
    a table with both whose year column holds a number that is not whole,
    with TypeError. In every other case of a table it returns. *)
Theorem load_rainfall_failures (files : gmap string landsat.File)
    (csv_path : string) :
  let r := landsat.load_rainfall to_numeric files csv_path in
  (files !! csv_path = None →
     r = landsat.Raises (landsat.Builtin
           (FileNotFoundError ("Rainfall CSV not found: " +:+ csv_path)))) ∧
  (∀ t, files !! csv_path = Some (landsat.Readable t) →
     ((∀ c, c ∈ t.*1 → landsat.lower (landsat.strip c) ≠ "year") →
        r = landsat.Raises (landsat.Builtin
              (ValueError "Rainfall CSV must have a 'Year' column."))) ∧
     (∀ year_col,
        first_such (λ c, landsat.lower (landsat.strip c) = "year") t.*1 year_col →
        ((∀ c, c ∈ value_names → c ∉ t.*1) →
           r = landsat.Raises (landsat.Builtin
                 (ValueError "Rainfall CSV missing a rainfall value column."))) ∧
        ((∃ c, c ∈ value_names ∧ c ∈ t.*1) →
           ((∃ c q, c ∈ landsat.getitem t year_col
                    ∧ landsat.numeric to_numeric c = Some q
                    ∧ landsat.is_int64 q = false) →
              r = landsat.Raises (landsat.TypeError
                    "cannot safely cast non-equivalent float64 to int64")) ∧
           ((∀ c q, c ∈ landsat.getitem t year_col →
                    landsat.numeric to_numeric c = Some q →
                    landsat.is_int64 q = true) →
              ∃ out, r = landsat.Returns out)))).
Proof.
  intros r. subst r. unfold landsat.load_rainfall. split.
  { by intros ->. }
  intros t ->. split.
  { intros Hno.
    rewrite (proj2 (list_find_None _ t.*1)); [done|].
    apply Forall_forall. intros c Hc. by apply Hno. }
  intros year_col Hy.
  apply (proj1 (first_such_find
                  (λ c, landsat.lower (landsat.strip c) = "year") t.*1 year_col))
    in Hy as [iy Hy].
  rewrite Hy. split.
  { intros Hno.
    rewrite (proj2 (list_find_None _ _)); [done|].
    apply Forall_forall. intros c Hc. by apply Hno. }
  intros (c & Hc & Hin).
  destruct (list_find_elem_of (λ c, c ∈ t.*1) _ c Hc Hin) as [[iv val_col] Hv].
  unfold value_names in Hv. rewrite Hv. split.
  - intros (cell & q & Hcell & Hq & Hint).
    destruct (landsat.astype_Int64 _) as [years|e] eqn:Hyears.
    + apply astype_Int64_Returns in Hyears as [_ Hall].
      rewrite Hall in Hint; [done|].
      rewrite <- Hq. by apply list_elem_of_fmap_2.
    + by apply astype_Int64_Raises in Hyears as [-> _].
  - intros Hall.
    destruct (landsat.astype_Int64 _) as [years|e] eqn:Hyears; [eauto|].
    apply astype_Int64_Raises in Hyears
      as (_ & q & (cell & Hq & Hcell)%list_elem_of_fmap & Hint).
    rewrite (Hall cell q) in Hint; done.
Qed.

End LoaderProperties.

(** ** The NDVI column and the NDVI table *)

Lemma last_filter_None {A} (P : A → Prop) `{∀ x, Decision (P x)} (l : list A) :
  last (filter P l) = None ↔ ∀ x, x ∈ l → ¬ P x.
Proof.
  rewrite last_None. split.
  - intros Hnil x Hx HP.
    assert (x ∈ filter P l) as Hin by (by apply list_elem_of_filter).
    rewrite Hnil in Hin. by apply not_elem_of_nil in Hin.
  - intros Hno. apply elem_of_nil_inv. intros x [HP Hx]%list_elem_of_filter.
    by apply (Hno x).
Qed.

Lemma last_filter_Some {A} (P : A → Prop) `{∀ x, Decision (P x)} (l : list A)
    (x : A) :
  last (filter P l) = Some x → x ∈ l ∧ P x.
Proof.
  intros Hx%last_Some_elem_of. apply list_elem_of_filter in Hx. tauto.
Qed.

(** The first of a list sorted by decreasing median: one with the greatest
    median. *)
Lemma first_by_median (l : list (string * Q)) :
  l ≠ [] →
  ∃ x rest,
    stable_sort (λ a b : string * Q, Qle_bool b.2 a.2) l = x :: rest
    ∧ x ∈ l ∧ ∀ y, y ∈ l → (y.2 <= x.2)%Q.
Proof.
  intros Hne.
  pose proof (stable_sort_perm (λ a b : string * Q, Qle_bool b.2 a.2) l) as Hperm.
  pose proof (stable_sort_Sorted (λ a b : string * Q, Qle_bool b.2 a.2)) as Hsorted.
  specialize (Hsorted ltac:(intros a b; rewrite !Qle_bool_iff;
                             destruct (Qlt_le_dec a.2 b.2) as [?%Qlt_le_weak|?]; auto) l).
  destruct (stable_sort _ l) as [|x rest].
  { apply Permutation_nil_l in Hperm. done. }
  exists x, rest. split; [done|]. split.
  { rewrite <- Hperm. by left. }
  apply Sorted_StronglySorted in Hsorted; cycle 1.
  { intros a b c. rewrite !Qle_bool_iff. intros ? ?. by eapply Qle_trans. }
  apply StronglySorted_inv in Hsorted as [_ Hall].
  rewrite Forall_forall in Hall.
  intros y Hy. rewrite <- Hperm in Hy.
  apply elem_of_cons in Hy as [->|Hy]; [apply Qle_refl|].
  by apply Qle_bool_iff, Hall.
Qed.



Section NdviProperties.

Variable to_numeric : string → option Q.
Variable num_str : Q → string.


(** What the search by medians of [_detect_ndvi_column] gives. *)
Lemma detect_by_median_run (df : landsat.Frame) :
  (∀ c, c ∈ df.*1 → landsat.lower c ≠ "ndvi") →
  (∀ c, c ∈ df.*1 → landsat.lower c ≠ "ndvi_use") →
  (∀ c, c ∈ df.*1 → landsat.lower c ≠ "ndvi_harmonized") →
  let cols := numeric_columns to_numeric df in
  let best := filter (λ cm : string * Q,
                        Qle_bool (2 # 10) cm.2 && Qle_bool cm.2 (9 # 10) = true)
                     cols in
  landsat._detect_ndvi_column to_numeric df
  = match stable_sort (λ a b : string * Q, Qle_bool b.2 a.2)
            (match best with [] => cols | _ => best end) with
    | x :: _ => landsat.Returns x.1
    | [] => landsat.Raises (landsat.IndexError "list index out of range")
    end.
Proof.
  intros H1 H2 H3 cols best. unfold landsat._detect_ndvi_column.
  rewrite (proj2 (last_filter_None (λ c, landsat.lower c = "ndvi") df.*1)) by done.
  rewrite (proj2 (last_filter_None (λ c, landsat.lower c = "ndvi_use") df.*1))
    by done.
  rewrite (proj2 (last_filter_None (λ c, landsat.lower c = "ndvi_harmonized") df.*1))
    by done.
  subst best cols. unfold numeric_columns, numbers.
  by destruct (filter _ _).
Qed.


(** X19. A column named "ndvi" in any case is the NDVI column whatever the
    table holds; without one, a column named "ndvi_use" is, and without
    either, one named "ndvi_harmonized". *)
Theorem detect_ndvi_column_by_name (df : landsat.Frame) :
  let found := λ key, ∃ c, landsat._detect_ndvi_column to_numeric df
                           = landsat.Returns c
                           ∧ c ∈ df.*1 ∧ landsat.lower c = key in
  let absent := λ key, ∀ c, c ∈ df.*1 → landsat.lower c ≠ key in
  ((∃ c, c ∈ df.*1 ∧ landsat.lower c = "ndvi") → found "ndvi") ∧
  (absent "ndvi" → (∃ c, c ∈ df.*1 ∧ landsat.lower c = "ndvi_use") →
   found "ndvi_use") ∧
  (absent "ndvi" → absent "ndvi_use" →
   (∃ c, c ∈ df.*1 ∧ landsat.lower c = "ndvi_harmonized") →
   found "ndvi_harmonized").
Proof.
  intros found absent. subst found absent. cbv beta.
  assert (∀ key, (∃ c, c ∈ df.*1 ∧ landsat.lower c = key) →
            ∃ c, last (filter (λ c, landsat.lower c = key) df.*1) = Some c
                 ∧ c ∈ df.*1 ∧ landsat.lower c = key) as Hlast.
  { intros key (c & Hc & Hkey).
    destruct (last (filter (λ c, landsat.lower c = key) df.*1)) as [c'|] eqn:Hl.
    - exists c'. split; [done|]. by apply last_filter_Some in Hl.
    - rewrite last_filter_None in Hl. by destruct (Hl c Hc). }
  unfold landsat._detect_ndvi_column. split_and!.
  - intros (c & -> & Hc & Hkey)%Hlast. eauto.
  - intros H1 (c & -> & Hc & Hkey)%Hlast.
    rewrite (proj2 (last_filter_None (λ c, landsat.lower c = "ndvi") df.*1))
      by done.
    eauto.
  - intros H1 H2 (c & -> & Hc & Hkey)%Hlast.
    rewrite (proj2 (last_filter_None (λ c, landsat.lower c = "ndvi") df.*1))
      by done.
    rewrite (proj2 (last_filter_None (λ c, landsat.lower c = "ndvi_use") df.*1))
      by done.
    eauto.
Qed.

(** X20. Without a column of one of the three names, the NDVI column is
    chosen by the medians of the columns that hold a number: when some
    median lies in [0.2, 0.9], a column with the greatest such median; when
    none does, a column with the greatest median of all, which may be the
    year column; and when no column holds a number, the search raises
    IndexError. *)
Theorem detect_ndvi_column_by_median (df : landsat.Frame) :
  (∀ c, c ∈ df.*1 →
     landsat.lower c ∉ ["ndvi"; "ndvi_use"; "ndvi_harmonized"]) →
  let cols := numeric_columns to_numeric df in
  (cols = [] →
     landsat._detect_ndvi_column to_numeric df
     = landsat.Raises (landsat.IndexError "list index out of range")) ∧
  (cols ≠ [] →
     ∃ c m,
       landsat._detect_ndvi_column to_numeric df = landsat.Returns c
       ∧ (c, m) ∈ cols
       ∧ ((∃ x, x ∈ cols ∧ plausible x.2) →
            plausible m ∧ ∀ x, x ∈ cols → plausible x.2 → (x.2 <= m)%Q)
       ∧ ((∀ x, x ∈ cols → ¬ plausible x.2) →
            ∀ x, x ∈ cols → (x.2 <= m)%Q)).
Proof.
  intros Hnames cols.
  rewrite detect_by_median_run; cycle 1.
  { intros c Hc Hl. apply (Hnames c Hc). rewrite Hl. by left. }
  { intros c Hc Hl. apply (Hnames c Hc). rewrite Hl. right. by left. }
  { intros c Hc Hl. apply (Hnames c Hc). rewrite Hl. right. right. by left. }
  cbv zeta. fold cols.
  set (best := filter _ cols).
  assert (∀ x, x ∈ best ↔ plausible x.2 ∧ x ∈ cols) as Hbest.
  { intros x. unfold best. rewrite list_elem_of_filter.
    unfold plausible. by rewrite andb_true_iff, !Qle_bool_iff. }
  split.
  - intros Hnil. unfold best. rewrite Hnil. done.
  - intros Hcols. clearbody best. destruct best as [|b best'].
    + destruct (first_by_median cols Hcols) as ([c m] & rest & -> & Hin & Hmax).
      exists c, m. split; [done|]. split; [done|]. split.
      * intros (x & Hx & Hp). exfalso.
        eapply not_elem_of_nil, Hbest. eauto.
      * intros _ x Hx. by apply (Hmax x).
    + destruct (first_by_median (b :: best')) as ([c m] & rest & -> & Hin & Hmax);
        [done|].
      apply Hbest in Hin as [Hp Hin]. cbn [snd] in Hp.
      exists c, m. split; [done|]. split; [done|]. split.
      * intros _. split; [done|]. intros x Hx Hpx. apply (Hmax x).
        by apply Hbest.
      * intros Hno. by destruct (Hno (c, m) Hin).
Qed.

Lemma detect_raises (df : landsat.Frame) (e : landsat.error) :
  landsat._detect_ndvi_column to_numeric df = landsat.Raises e →
  e = landsat.IndexError "list index out of range".
Proof.
  unfold landsat._detect_ndvi_column.
  destruct (last (filter (λ c, landsat.lower c = "ndvi") df.*1)); [done|].
  destruct (last (filter (λ c, landsat.lower c = "ndvi_use") df.*1)); [done|].
  destruct (last (filter (λ c, landsat.lower c = "ndvi_harmonized") df.*1));
    [done|].
  destruct (filter _ _) as [|b best].
  - destruct (stable_sort _ _); [by intros [= <-]|done].
  - destruct (stable_sort _ _); [by intros [= <-]|done].
Qed.



(** X22. How [load_ndvi_table] fails: on a path that holds no file, with
    FileNotFoundError; on a table without a column named exactly "year",
    with ValueError; on a table whose year column holds a number that is not
    whole, with TypeError; and a table without a column named exactly
    "season" is never loaded: the call raises, KeyError when nothing else
    fails before the rows are dropped. *)
Theorem load_ndvi_table_failures (files : gmap string landsat.File)
    (csv_path : string) :
  let r := landsat.load_ndvi_table to_numeric num_str files csv_path in
  (files !! csv_path = None →
     r = landsat.Raises (landsat.Builtin
           (FileNotFoundError ("CSV not found: " +:+ csv_path)))) ∧
  (∀ df, files !! csv_path = Some (landsat.Readable df) →
     ("year" ∉ df.*1 →
        r = landsat.Raises (landsat.Builtin
              (ValueError "NDVI CSV must contain a 'year' column."))) ∧
     ("year" ∈ df.*1 →
        (∃ c q, c ∈ landsat.getitem df "year"
                ∧ landsat.numeric to_numeric c = Some q
                ∧ landsat.is_int64 q = false) →
        r = landsat.Raises (landsat.TypeError
              "cannot safely cast non-equivalent float64 to int64")) ∧
     ("year" ∈ df.*1 → "season" ∉ df.*1 →
        ∃ e, r = landsat.Raises e
             ∧ (e = landsat.TypeError
                      "cannot safely cast non-equivalent float64 to int64"
                ∨ e = landsat.IndexError "list index out of range"
                ∨ e = landsat.Builtin (KeyError "['season']")))).
Proof.
  intros r. subst r. unfold landsat.load_ndvi_table. split.
  { by intros ->. }
  intros df ->.
  set (df1 := if decide ("season" ∈ df.*1) then _ else df).
  assert (df1.*1 = df.*1) as Hnames1.
  { subst df1. case_decide; [apply names_setitem|done]. }
  assert (landsat.getitem df1 "year" = landsat.getitem df "year") as Hyear1.
  { subst df1. case_decide; [|done]. by apply getitem_setitem_ne. }
  cbv zeta. rewrite Hyear1. split_and!.
  - intros Hy. rewrite decide_False; [done|]. by rewrite Hnames1.
  - intros Hy (c & q & Hc & Hq & Hint).
    rewrite decide_True by (by rewrite Hnames1).
    destruct (landsat.astype_Int64 _) as [years|e] eqn:Hyears.
    + apply astype_Int64_Returns in Hyears as [_ Hall].
      rewrite Hall in Hint; [done|]. rewrite <- Hq. by apply list_elem_of_fmap_2.
    + by apply astype_Int64_Raises in Hyears as [-> _].
  - intros Hy Hs. rewrite decide_True by (by rewrite Hnames1).
    destruct (landsat.astype_Int64 _) as [years|e] eqn:Hyears; cycle 1.
    { apply astype_Int64_Raises in Hyears as [-> _]. eauto. }
    destruct (landsat._detect_ndvi_column _ _) as [ndvi_col|e] eqn:Hdet; cycle 1.
    { apply detect_raises in Hdet as ->. eauto. }
    rewrite decide_False; [eauto 6|]. by rewrite names_setitem, Hnames1.
Qed.

End NdviProperties.

(** ** The further properties on the sample data *)

Lemma pivot_wide_station_sum_witness :
  station_has_na examples.clara = false ∧
  (wide_station_sum (pivot_wide examples.monthly) examples.clara
   == long_station_sum examples.monthly examples.clara)%Q.
Proof.
  split; [reflexivity|].
  apply (pivot_wide_station_sum examples.monthly examples.clara). reflexivity.
Defined.

Lemma summaries_conserve_totals_witness :
  heap examples.world !! 0%nat = Some examples.frame ∧
  records examples.frame ≠ [] ∧
  (∃ monthly w1,
     summarize_monthly 0%nat (2 # 10) examples.world = (Ok monthly, w1) ∧
     sum_list (Monthly.DaysCount <$> monthly) = length (records examples.frame) ∧
     sum_list (Monthly.MissingCount <$> monthly)
     = length (missing_rows (records examples.frame)) ∧
     (Qsum (Monthly.MonthlyRainfall <$> monthly)
      == Qsum (present_rain (records examples.frame)))%Q) ∧
  (∃ annual w2,
     summarize_annual 0%nat (2 # 10) 10 examples.world = (Ok annual, w2) ∧
     sum_list (Annual.DaysCount <$> annual) = length (records examples.frame) ∧
     sum_list (Annual.MissingCount <$> annual)
     = length (missing_rows (records examples.frame)) ∧
     (Qsum (Annual.AnnualRainfall <$> annual)
      == Qsum (present_rain (records examples.frame)))%Q).
Proof.
  split; [reflexivity|]. split; [done|].
  destruct (summaries_conserve_totals examples.world 0%nat examples.frame
              (2 # 10) 10 eq_refl) as [Hmonthly Hannual].
  split; [exact Hmonthly|]. by apply Hannual.
Defined.

Lemma annual_row_sums_monthly_rows_witness :
  heap examples.world !! 0%nat = Some examples.frame ∧
  records examples.frame ≠ [] ∧
  Forall (valid_date ∘ date) (records examples.frame) ∧
  ∃ monthly w1 annual w2,
    summarize_monthly 0%nat (2 # 10) examples.world = (Ok monthly, w1) ∧
    summarize_annual 0%nat (2 # 10) 10 w1 = (Ok annual, w2) ∧
    ∀ a, a ∈ annual →
      let months := months_of monthly (Annual.Station a) (Annual.Year a) in
      (Annual.AnnualRainfall a == Qsum (Monthly.MonthlyRainfall <$> months))%Q ∧
      Annual.DaysCount a = sum_list (Monthly.DaysCount <$> months) ∧
      Annual.MissingCount a = sum_list (Monthly.MissingCount <$> months) ∧
      Annual.MonthsObserved a = length months.
Proof.
  assert (Forall (valid_date ∘ date) (records examples.frame)) as Hvalid.
  { repeat constructor; simpl; lia. }
  split; [reflexivity|]. split; [done|]. split; [exact Hvalid|].
  apply (annual_row_sums_monthly_rows examples.world 0%nat examples.frame
           (2 # 10) 10); [reflexivity|done|exact Hvalid].
Defined.

Lemma summaries_repeatable_witness :
  heap examples.world !! 0%nat = Some examples.frame ∧
  ∃ monthly annual w1 w2,
    summarize_monthly 0%nat (2 # 10) examples.world = (Ok monthly, w1) ∧
    summarize_annual 0%nat (2 # 10) 10 examples.world = (annual, w2) ∧
    (records examples.frame ≠ [] → ∃ rows, annual = Ok rows) ∧
    summarize_monthly 0%nat (2 # 10) w1 = (Ok monthly, w1) ∧
    summarize_annual 0%nat (2 # 10) 10 w2 = (annual, w2) ∧
    (summarize_annual 0%nat (2 # 10) 10 w1).1 = annual ∧
    (summarize_monthly 0%nat (2 # 10) w2).1 = Ok monthly.
Proof.
  split; [reflexivity|].
  apply (summaries_repeatable examples.world 0%nat examples.frame (2 # 10) 10).
  reflexivity.
Defined.

Lemma load_folder_records_witness :
  (load_folder examples.iso_datetime examples.whole_number
     "stations" "%Y-%m-%d" examples.world).1 = Ok 1%nat ∧
  ∃ files d,
    glob (path_join "stations" "*.csv") examples.world
    = (Ok files, examples.world) ∧
    heap examples.world !! 1%nat = None ∧
    heap (load_folder examples.iso_datetime examples.whole_number
            "stations" "%Y-%m-%d" examples.world).2
    = <[1%nat := d]> (heap examples.world) ∧
    assigned d = [] ∧
    disk (load_folder examples.iso_datetime examples.whole_number
            "stations" "%Y-%m-%d" examples.world).2
    = disk examples.world ∧
    outputs (load_folder examples.iso_datetime examples.whole_number
               "stations" "%Y-%m-%d" examples.world).2
    = outputs examples.world ∧
    ∀ x, x ∈ records d ↔
      ∃ f header body raw,
        f ∈ files ∧ disk examples.world !! f = Some (Parsed header body)
        ∧ (∀ c, c ∈ REQUIRED_COLS → c ∈ header)
        ∧ raw ∈ body
        ∧ examples.iso_datetime "%Y-%m-%d" (raw_date raw) = Some (date x)
        ∧ station x = raw_station raw
        ∧ rain x = examples.whole_number (raw_rain raw).
Proof.
  split; [vm_compute; reflexivity|].
  apply (load_folder_records examples.iso_datetime examples.whole_number
           examples.world "stations" "%Y-%m-%d" 1%nat).
  vm_compute. reflexivity.
Defined.

Lemma main_writes_the_tables_witness :
  (main examples.iso_datetime examples.whole_number examples.row_count
     examples.args examples.world).1 = Ok () ∧
  ∃ df d monthly out_path,
    heap examples.world !! df = None ∧
    heap (main examples.iso_datetime examples.whole_number examples.row_count
            examples.args examples.world).2 !! df = Some d ∧
    ((assigned d).*1 = ["YearMonth"] ∧
     ∀ file_columns,
       columns file_columns d = add_column file_columns "YearMonth") ∧
    monthly = monthly_table (zip (records d) (to_period ∘ date <$> records d))
                (missing_threshold examples.args) ∧
    (out_path = output examples.args
     ∨ out_path = (splitext (output examples.args)).1 +:+ "_"
                    +:+ now examples.world +:+ ".csv") ∧
    examples.row_count (take 10 monthly)
    ∈ stdout (main examples.iso_datetime examples.whole_number examples.row_count
                examples.args examples.world).2 ∧
    ((wide_output examples.args = None ∨ wide_output examples.args = Some "") →
       outputs (main examples.iso_datetime examples.whole_number
                  examples.row_count examples.args examples.world).2
       = <[out_path := MonthlyTable monthly]> (outputs examples.world)) ∧
    (∀ wide_file, wide_output examples.args = Some wide_file → wide_file ≠ "" →
       ∃ wide_path,
         (wide_path = wide_file
          ∨ wide_path = (splitext wide_file).1 +:+ "_"
                          +:+ now examples.world +:+ ".csv") ∧
         outputs (main examples.iso_datetime examples.whole_number
                    examples.row_count examples.args examples.world).2
         = <[wide_path := WideTable (pivot_wide monthly)]>
             (<[out_path := MonthlyTable monthly]> (outputs examples.world))).
Proof.
  split; [vm_compute; reflexivity|].
  apply (main_writes_the_tables examples.iso_datetime examples.whole_number
           examples.row_count examples.args examples.world).
  vm_compute. reflexivity.
Defined.

Lemma program_writes_four_tables_witness :
  (∀ p, p ∈ [run.OUT_LONG; run.OUT_WIDE; run.OUT_ANNUAL; run.OUT_ANNUAL_WIDE] →
        write_fault examples.run_world p = None) ∧
  (run.program examples.strptime examples.whole_number examples.row_count
     examples.annual_row_count examples.run_world).1 = Ok () ∧
  ∃ monthly annual,
    outputs (run.program examples.strptime examples.whole_number
               examples.row_count examples.annual_row_count examples.run_world).2
    = <[run.OUT_ANNUAL_WIDE := WideTable (pivot_wide_annual annual)]>
        (<[run.OUT_ANNUAL := AnnualTable annual]>
           (<[run.OUT_WIDE := WideTable (pivot_wide monthly)]>
              (<[run.OUT_LONG := MonthlyTable monthly]>
                 (outputs examples.run_world)))) ∧
    (∃ before,
       stdout (run.program examples.strptime examples.whole_number
                 examples.row_count examples.annual_row_count
                 examples.run_world).2
       = before ++ [ "Done. Previews:";
                     nl +:+ "Monthly (first 10):";
                     examples.row_count (take 10 monthly);
                     nl +:+ "Annual (first 10):";
                     examples.annual_row_count (take 10 annual) ]) ∧
    ∃ df d,
      heap examples.run_world !! df = None
      ∧ heap (run.program examples.strptime examples.whole_number
                examples.row_count examples.annual_row_count
                examples.run_world).2 !! df = Some d
      ∧ records d ≠ []
      ∧ (assigned d).*1 = ["YearMonth"; "Year"; "Month"]
      ∧ (∀ file_columns,
           columns file_columns d
           = add_column (add_column (add_column file_columns "YearMonth") "Year")
                        "Month")
      ∧ monthly = monthly_table (zip (records d) (to_period ∘ date <$> records d))
                    default_missing_threshold
      ∧ annual = annual_table (zip (records d) (year ∘ date <$> records d))
                   default_missing_threshold default_min_months.
Proof.
  assert (∀ p, p ∈ [run.OUT_LONG; run.OUT_WIDE; run.OUT_ANNUAL; run.OUT_ANNUAL_WIDE] →
               write_fault examples.run_world p = None) as Hfree
    by (intros p _; reflexivity).
  assert ((run.program examples.strptime examples.whole_number
             examples.row_count examples.annual_row_count examples.run_world).1
          = Ok ()) as Hrun by (vm_compute; reflexivity).
  split; [exact Hfree|]. split; [exact Hrun|].
  exact (program_writes_four_tables examples.strptime examples.whole_number
           examples.row_count examples.annual_row_count examples.run_world
           Hfree Hrun).
Defined.

Lemma lag_pairs_consecutive_years_witness :
  (∀ (i : nat) r r',
     examples.merged_consecutive !! i = Some r →
     examples.merged_consecutive !! S i = Some r' →
     landsat.m_year r' = landsat.m_year r + 1)%Z ∧
  ((6 # 10)%Q, 1100%Q) ∈ landsat.lag_pairs examples.merged_consecutive 1 ∧
  ∃ r r', r ∈ examples.merged_consecutive ∧ r' ∈ examples.merged_consecutive
    ∧ (landsat.m_year r' = landsat.m_year r + 1)%Z
    ∧ landsat.ndvi r = (6 # 10)%Q ∧ landsat.rain r' = Some 1100%Q.
Proof.
  assert (∀ (i : nat) r r',
            examples.merged_consecutive !! i = Some r →
            examples.merged_consecutive !! S i = Some r' →
            landsat.m_year r' = landsat.m_year r + 1)%Z as Hstep.
  { intros i r r' Hi Hi'.
    destruct i as [|[|[|i]]]; cbn in Hi, Hi'; simplify_eq; reflexivity. }
  assert (((6 # 10)%Q, 1100%Q) ∈ landsat.lag_pairs examples.merged_consecutive 1)
    as Hin.
  { assert (landsat.lag_pairs examples.merged_consecutive 1
            = [((6 # 10)%Q, 1100%Q); ((7 # 10)%Q, 1000%Q)]) as ->
      by (vm_compute; reflexivity).
    by left. }
  split; [exact Hstep|]. split; [exact Hin|].
  exact (lag_pairs_consecutive_years examples.merged_consecutive 1
           ((6 # 10)%Q, 1100%Q) Hstep Hin).
Defined.

Lemma lagged_correlations_one_row_per_lag_witness :
  (∃ lag, lag ∈ landsat.default_lags
          ∧ (3 ≤ length (landsat.lag_pairs
                           (landsat.prepare_merged examples.ndvi_years
                              examples.rain_years "summer" landsat.default_min_ndvi)
                           lag))%nat) ∧
  ∃ out,
    landsat.lagged_correlations examples.no_test examples.no_test examples.no_test
      examples.no_corr examples.ndvi_years examples.rain_years "summer"
      landsat.default_lags landsat.default_min_ndvi = Ok out
    ∧ Sorted (λ a b, (landsat.lag_years a ≤ landsat.lag_years b)%Z) out
    ∧ landsat.lag_years <$> out
      ≡ₚ filter (λ lag, (3 ≤ length (landsat.lag_pairs
                                       (landsat.prepare_merged examples.ndvi_years
                                          examples.rain_years "summer"
                                          landsat.default_min_ndvi) lag))%nat)
           landsat.default_lags
    ∧ ∀ row, row ∈ out →
        let pairs := landsat.lag_pairs
                       (landsat.prepare_merged examples.ndvi_years
                          examples.rain_years "summer" landsat.default_min_ndvi)
                       (landsat.lag_years row) in
        let stat := landsat.corr_with_p examples.no_test examples.no_test
                      examples.no_test examples.no_corr pairs.*1 pairs.*2 in
        landsat.c_season row = "summer"
        ∧ landsat.n row = length pairs
        ∧ (landsat.pearson_r row, landsat.pearson_p row) = landsat.pearson stat
        ∧ (landsat.spearman_r row, landsat.spearman_p row) = landsat.spearman stat
        ∧ (landsat.kendall_tau row, landsat.kendall_p row) = landsat.kendall stat.
Proof.
  assert (∃ lag, lag ∈ landsat.default_lags
                 ∧ (3 ≤ length (landsat.lag_pairs
                                  (landsat.prepare_merged examples.ndvi_years
                                     examples.rain_years "summer"
                                     landsat.default_min_ndvi) lag))%nat) as Hsome.
  { exists 0%Z. split; [right; right; by left|].
    assert (length (landsat.lag_pairs
                      (landsat.prepare_merged examples.ndvi_years
                         examples.rain_years "summer" landsat.default_min_ndvi) 0)
            = 5%nat) as -> by (vm_compute; reflexivity).
    lia. }
  split; [exact Hsome|].
  exact (lagged_correlations_one_row_per_lag examples.no_test examples.no_test
           examples.no_test examples.no_corr examples.ndvi_years
           examples.rain_years "summer" landsat.default_lags
           landsat.default_min_ndvi Hsome).
Defined.

Lemma lag_pairs_years_witness :
  NoDup (landsat.rain_year <$> examples.rain_years) ∧
  ((5 # 10)%Q, 900%Q)
  ∈ landsat.lag_pairs
      (landsat.prepare_merged examples.ndvi_years examples.rain_years "summer"
         landsat.default_min_ndvi) 1 ∧
  ∃ r r',
    r ∈ landsat.prepare_merged examples.ndvi_years examples.rain_years "summer"
          landsat.default_min_ndvi
    ∧ r' ∈ landsat.prepare_merged examples.ndvi_years examples.rain_years "summer"
             landsat.default_min_ndvi
    ∧ ((5 # 10)%Q, 900%Q) = (landsat.ndvi r, default 0%Q (landsat.rain r'))
    ∧ is_Some (landsat.rain r')
    ∧ ((0 < 1)%Z → (landsat.m_year r < landsat.m_year r')%Z)
    ∧ ((1 < 0)%Z → (landsat.m_year r' < landsat.m_year r)%Z)
    ∧ (1%Z = 0%Z → r' = r).
Proof.
  assert (NoDup (landsat.rain_year <$> examples.rain_years)) as Hnd.
  { apply (bool_decide_unpack _). vm_compute. exact I. }
  assert (((5 # 10)%Q, 900%Q)
          ∈ landsat.lag_pairs
              (landsat.prepare_merged examples.ndvi_years examples.rain_years
                 "summer" landsat.default_min_ndvi) 1) as Hin.
  { assert (landsat.lag_pairs
              (landsat.prepare_merged examples.ndvi_years examples.rain_years
                 "summer" landsat.default_min_ndvi) 1
            = [ ((5 # 10)%Q, 900%Q); ((6 # 10)%Q, 1100%Q);
                ((7 # 10)%Q, 950%Q); ((6 # 10)%Q, 1200%Q) ]) as ->
      by (vm_compute; reflexivity).
    by left. }
  split; [exact Hnd|]. split; [exact Hin|].
  exact (lag_pairs_years examples.ndvi_years examples.rain_years "summer"
           landsat.default_min_ndvi 1 ((5 # 10)%Q, 900%Q) Hnd Hin).
Defined.

Lemma load_rainfall_table_witness :
  landsat.load_rainfall examples.whole_number examples.csv_files "rain.csv"
  = landsat.Returns [(Some 2000%Z, 900%Q); (Some 2001%Z, 1000%Q); (None, 5%Q)] ∧
  StronglySorted (λ a b, (landsat.rain_year a < landsat.rain_year b)%Z)
    (landsat.rain_rows [(Some 2000%Z, 900%Q); (Some 2001%Z, 1000%Q); (None, 5%Q)]) ∧
  (length (filter (λ r : option Z * Q, r.1 = None)
             [(Some 2000%Z, 900%Q); (Some 2001%Z, 1000%Q); (None, 5%Q)]) ≤ 1)%nat ∧
  ∃ t year_col val_col,
    examples.csv_files !! "rain.csv" = Some (landsat.Readable t)
    ∧ first_such (λ c, landsat.lower (landsat.strip c) = "year") t.*1 year_col
    ∧ first_such (λ c, c ∈ t.*1) value_names val_col
    ∧ (∀ y v, (y, v) ∈ [(Some 2000%Z, 900%Q); (Some 2001%Z, 1000%Q); (None, 5%Q)] →
         ∃ (i : nat) cy cv,
           landsat.getitem t year_col !! i = Some cy
           ∧ landsat.getitem t val_col !! i = Some cv
           ∧ Qfloor <$> landsat.numeric examples.whole_number cy = y
           ∧ landsat.numeric examples.whole_number cv = Some v)
    ∧ (∀ (i : nat) cy cv v,
         landsat.getitem t year_col !! i = Some cy →
         landsat.getitem t val_col !! i = Some cv →
         landsat.numeric examples.whole_number cv = Some v →
         ∃ v', (Qfloor <$> landsat.numeric examples.whole_number cy, v')
               ∈ [(Some 2000%Z, 900%Q); (Some 2001%Z, 1000%Q); (None, 5%Q)]).
Proof.
  assert (landsat.load_rainfall examples.whole_number examples.csv_files "rain.csv"
          = landsat.Returns [(Some 2000%Z, 900%Q); (Some 2001%Z, 1000%Q); (None, 5%Q)])
    as Hrun by (vm_compute; reflexivity).
  split; [exact Hrun|].
  exact (load_rainfall_table examples.whole_number examples.csv_files "rain.csv"
           _ Hrun).
Defined.

Lemma detect_ndvi_column_by_median_witness :
  (∀ c, c ∈ examples.unnamed_csv.*1 →
     landsat.lower c ∉ ["ndvi"; "ndvi_use"; "ndvi_harmonized"]) ∧
  (numeric_columns examples.whole_number examples.unnamed_csv = [] →
     landsat._detect_ndvi_column examples.whole_number examples.unnamed_csv
     = landsat.Raises (landsat.IndexError "list index out of range")) ∧
  (numeric_columns examples.whole_number examples.unnamed_csv ≠ [] →
     ∃ c m,
       landsat._detect_ndvi_column examples.whole_number examples.unnamed_csv
       = landsat.Returns c
       ∧ (c, m) ∈ numeric_columns examples.whole_number examples.unnamed_csv
       ∧ ((∃ x, x ∈ numeric_columns examples.whole_number examples.unnamed_csv
                ∧ plausible x.2) →
            plausible m
            ∧ ∀ x, x ∈ numeric_columns examples.whole_number examples.unnamed_csv →
                   plausible x.2 → (x.2 <= m)%Q)
       ∧ ((∀ x, x ∈ numeric_columns examples.whole_number examples.unnamed_csv →
                ¬ plausible x.2) →
            ∀ x, x ∈ numeric_columns examples.whole_number examples.unnamed_csv →
                 (x.2 <= m)%Q)).
Proof.
  assert (∀ c, c ∈ examples.unnamed_csv.*1 →
               landsat.lower c ∉ ["ndvi"; "ndvi_use"; "ndvi_harmonized"]) as Hnames.
  { apply Forall_forall. apply (bool_decide_unpack _). vm_compute. exact I. }
  split; [exact Hnames|].
  exact (detect_ndvi_column_by_median examples.whole_number examples.unnamed_csv
           Hnames).
Defined.

